(** * Artist events: RSVP ledger and reminder sweep

    A shallow embedding of the events service ([EventsService]), its DTOs
    and the reminder cron job ([EventsScheduler]) of the backend, together
    with the properties of the attendance counter, the RSVP preconditions,
    the reminder window and the per-event isolation of the sweep.

    Instants ([Date]) are integers: milliseconds since the epoch, the value
    of [getTime()]; comparing two [Date]s compares these.  Identifiers are
    strings.  The two tables are finite maps from the primary key to the
    remaining columns, so an entity handed to the service is a pair of its
    [id] and its columns.  The creation and update timestamps and the
    relation properties ([event], [rsvps]) are read by none of the embedded
    functions and are left out.

    The store and the notification channel are collaborators: each call on
    them is recorded in a trace and is accepted or rejected by a parameter
    [fails] of the service, so that a property holds for a store that
    answers, for one that rejects a given call, or for every store,
    according to what it assumes about [fails]. *)

From stdpp Require Import base option list gmap fin_maps strings sorting.
From Stdlib Require Import ZArith Lia.
From Stdlib Require SpecFloat.

Local Open Scope Z_scope.

(** ** Entities (entities/artist-event.entity.ts) *)

Inductive EventType := LIVE_STREAM | CONCERT | MEET_GREET | ALBUM_RELEASE.

Record ArtistEvent := {
  artistId : string;
  title : string;
  description : string;
  eventType : EventType;
  startTime : Z;
  endTime : option Z;
  venue : option string;
  streamUrl : option string;
  ticketUrl : option string;
  isVirtual : bool;
  rsvpCount : Z
}.

Record EventRSVP := {
  eventId : string;
  userId : string;
  reminderEnabled : bool;
  reminderSent : bool
}.

(** An entity object: the primary key [id] and the other columns. *)
Abbreviation Entity T := (string * T)%type.

Definition set_rsvpCount (n : Z) (e : ArtistEvent) : ArtistEvent :=
  {| artistId := artistId e; title := title e; description := description e;
     eventType := eventType e; startTime := startTime e; endTime := endTime e;
     venue := venue e; streamUrl := streamUrl e; ticketUrl := ticketUrl e;
     isVirtual := isVirtual e; rsvpCount := n |}.

Definition set_reminderSent (b : bool) (r : EventRSVP) : EventRSVP :=
  {| eventId := eventId r; userId := userId r;
     reminderEnabled := reminderEnabled r; reminderSent := b |}.

(** ** DTOs (dto/events.dto.ts)

    An optional property is an [option]; a date string that passed
    [@IsDateString] is the instant it denotes. *)

Module CreateEventDto.
Record t := {
  title : string;
  description : string;
  eventType : EventType;
  startTime : Z;
  endTime : option Z;
  venue : option string;
  streamUrl : option string;
  ticketUrl : option string;
  isVirtual : option bool
}.
End CreateEventDto.

Module UpdateEventDto.
Record t := {
  title : option string;
  description : option string;
  eventType : option EventType;
  startTime : option Z;
  endTime : option Z;
  venue : option string;
  streamUrl : option string;
  ticketUrl : option string;
  isVirtual : option bool
}.
End UpdateEventDto.

Module RsvpDto.
Record t := { reminderEnabled : option bool }.
End RsvpDto.

Module PaginationDto.
Record t := { page : option Z; limit : option Z }.
End PaginationDto.

(** [Math.ceil(total / limit)] on integers; [None] stands for the
    non-finite quotient of a division by zero. *)
Definition ceil_div (total limit : Z) : option Z :=
  if limit =? 0 then None else Some (- ((- total) `div` limit)).

Record PaginatedResult (T : Type) := {
  data : list T;
  total : Z;
  page : Z;
  limit : Z;
  totalPages : option Z
}.
Arguments data {T} _.
Arguments total {T} _.
Arguments page {T} _.
Arguments limit {T} _.
Arguments totalPages {T} _.

Definition new_PaginatedResult {T} (data : list T) (total page limit : Z)
  : PaginatedResult T :=
  {| data := data; total := total; page := page; limit := limit;
     totalPages := ceil_div total limit |}.

(** ** Errors

    The four HTTP exceptions the service throws, the error of a rejected
    store call and the error of a rejected reminder dispatch.  The
    abbreviations are the names of the error taxonomy. *)

Inductive Exception :=
| NotFoundException
| ForbiddenException
| BadRequestException
| ConflictException
| QueryFailedError
| DispatchError.

Abbreviation NOT_FOUND := NotFoundException (only parsing).
Abbreviation FORBIDDEN := ForbiddenException (only parsing).
Abbreviation INVALID_STATE := BadRequestException (only parsing).
Abbreviation ALREADY_EXISTS := ConflictException (only parsing).
Abbreviation TRANSIENT_STORE_FAILURE := QueryFailedError (only parsing).

Inductive Result (A : Type) :=
| Ok (a : A)
| Throw (e : Exception).
Arguments Ok {A} a.
Arguments Throw {A} e.

(** ** The store and the collaborators

    Every call the service makes on a repository, on the transaction's
    entity manager or on the notifications service is recorded, in order,
    in [trace]: what a test observes on its mocks. *)

(** The two relative adjustments of the counter column. *)
Inductive CounterExpr :=
| rsvp_count_plus_1               (* 'rsvp_count + 1' *)
| GREATEST_rsvp_count_minus_1_0.  (* 'GREATEST(rsvp_count - 1, 0)' *)

Definition eval_CounterExpr (x : CounterExpr) (rsvp_count : Z) : Z :=
  match x with
  | rsvp_count_plus_1 => rsvp_count + 1
  | GREATEST_rsvp_count_minus_1_0 => Z.max (rsvp_count - 1) 0
  end.

Inductive Call :=
| EventRepo_findOne (id : string)
| EventRepo_save (e : Entity ArtistEvent)
| EventRepo_findAndCount (artistIds : list string) (after skip take : Z)
| EventRepo_getMany (buffer oneHourFromNow : Z)
| RsvpRepo_findOne (eventId userId : string)
| RsvpRepo_find (eventId : string)
| RsvpRepo_update (rsvpIds : list string)
| Manager_save (r : Entity EventRSVP)
| Manager_remove (r : Entity EventRSVP)
| Manager_update (x : CounterExpr) (id : string)
| Notifications_sendEventReminders
    (userIds : list string) (event : Entity ArtistEvent).

Record World := {
  events : gmap string ArtistEvent;
  rsvps : gmap string EventRSVP;
  trace : list Call
}.

Definition set_events (m : gmap string ArtistEvent) (w : World) : World :=
  {| events := m; rsvps := rsvps w; trace := trace w |}.
Definition set_rsvps (m : gmap string EventRSVP) (w : World) : World :=
  {| events := events w; rsvps := m; trace := trace w |}.
Definition log_call (c : Call) (w : World) : World :=
  {| events := events w; rsvps := rsvps w; trace := trace w ++ [c] |}.

(** ** The monad of the service: state and exceptions *)

Definition M (A : Type) : Type := World → Result A * World.

Definition ret {A} (a : A) : M A := λ w, (Ok a, w).
Definition throw {A} (e : Exception) : M A := λ w, (Throw e, w).
Definition bind {A B} (m : M A) (k : A → M B) : M B := λ w,
  match m w with
  | (Ok a, w') => k a w'
  | (Throw e, w') => (Throw e, w')
  end.
(** [try { m } catch (err) { h err }] *)
Definition try_catch {A} (m : M A) (h : Exception → M A) : M A := λ w,
  match m w with
  | (Ok a, w') => (Ok a, w')
  | (Throw e, w') => h e w'
  end.

Global Instance M_ret : MRet M := @ret.
Global Instance M_bind : MBind M := λ A B k m, bind m k.

(** The rows of the RSVP table of one event, and its rows still waiting
    for a reminder: the [where] clauses of the service. *)
Definition rsvps_of (eid : string) (t : gmap string EventRSVP)
  : gmap string EventRSVP :=
  filter (λ kr, eventId kr.2 = eid) t.

Definition rsvps_where (eid uid : string) (t : gmap string EventRSVP)
  : gmap string EventRSVP :=
  filter (λ kr, eventId kr.2 = eid ∧ userId kr.2 = uid) t.

Definition rsvps_pending (eid : string) (t : gmap string EventRSVP)
  : gmap string EventRSVP :=
  filter (λ kr, eventId kr.2 = eid ∧ reminderEnabled kr.2 = true
                ∧ reminderSent kr.2 = false) t.

(** The window of the reminder query:
    [start_time > :buffer AND start_time <= :oneHourFromNow]. *)
Definition starts_between (buffer oneHourFromNow : Z) (e : ArtistEvent) : Prop :=
  buffer < startTime e ∧ startTime e ≤ oneHourFromNow.

Global Instance starts_between_dec b h e : Decision (starts_between b h e).
Proof. unfold starts_between. apply _. Defined.

(** [order: { startTime: 'ASC' }] *)
Definition startTime_ASC (a b : Entity ArtistEvent) : Prop :=
  startTime a.2 ≤ startTime b.2.

Global Instance startTime_ASC_dec a b : Decision (startTime_ASC a b).
Proof. unfold startTime_ASC. apply _. Defined.

Section Service.

(** The calls that the store or the notification channel rejects. *)
Variable fails : Call → bool.

(** A call on a collaborator: recorded, then rejected or performed. *)
Definition call {A} (c : Call) (e : Exception) (run : M A) : M A := λ w,
  let w' := log_call c w in
  if fails c then (Throw e, w') else run w'.

(** [dataSource.transaction(body)]: the writes of a body that throws are
    rolled back. *)
Definition transaction {A} (body : M A) : M A := λ w,
  match body w with
  | (Ok a, w') => (Ok a, w')
  | (Throw e, w') =>
      (Throw e, {| events := events w; rsvps := rsvps w; trace := trace w' |})
  end.

(** *** Repositories *)

Definition eventRepo_findOne (id : string) : M (option (Entity ArtistEvent)) :=
  call (EventRepo_findOne id) QueryFailedError
    (λ w, (Ok ((λ e, (id, e)) <$> events w !! id), w)).

(** [save] of an entity with its primary key: insert or update. *)
Definition eventRepo_save (e : Entity ArtistEvent) : M (Entity ArtistEvent) :=
  call (EventRepo_save e) QueryFailedError
    (λ w, (Ok e, set_events (<[e.1 := e.2]> (events w)) w)).

Definition rsvpRepo_findOne (eid uid : string) : M (option (Entity EventRSVP)) :=
  call (RsvpRepo_findOne eid uid) QueryFailedError
    (λ w, (Ok (head (map_to_list (rsvps_where eid uid (rsvps w)))), w)).

Definition rsvpRepo_find (eid : string) : M (list (Entity EventRSVP)) :=
  call (RsvpRepo_find eid) QueryFailedError
    (λ w, (Ok (map_to_list (rsvps_pending eid (rsvps w))), w)).

(** [update({ id: In(rsvpIds) }, { reminderSent: true })] *)
Definition mark_sent (rsvpIds : list string) (t : gmap string EventRSVP)
  : gmap string EventRSVP :=
  map_imap (λ k r, Some (if bool_decide (k ∈ rsvpIds)
                         then set_reminderSent true r else r)) t.

Definition rsvpRepo_update (rsvpIds : list string) : M unit :=
  call (RsvpRepo_update rsvpIds) QueryFailedError
    (λ w, (Ok (), set_rsvps (mark_sent rsvpIds (rsvps w)) w)).

Definition eventRepo_findAndCount (artistIds : list string) (after skip_ take_ : Z)
  : M (list (Entity ArtistEvent) * Z) :=
  call (EventRepo_findAndCount artistIds after skip_ take_) QueryFailedError
    (λ w,
       let rows :=
         merge_sort startTime_ASC
           (map_to_list
              (filter (λ kr, artistId kr.2 ∈ artistIds ∧ after < startTime kr.2)
                 (events w))) in
       (Ok (take (Z.to_nat take_) (drop (Z.to_nat skip_) rows),
            Z.of_nat (length rows)), w)).

Definition eventRepo_getMany (buffer oneHourFromNow : Z)
  : M (list (Entity ArtistEvent)) :=
  call (EventRepo_getMany buffer oneHourFromNow) QueryFailedError
    (λ w, (Ok (map_to_list
                 (filter (λ kr, starts_between buffer oneHourFromNow kr.2)
                    (events w))), w)).

(** [create] fills the columns an event gets from its DTO; the store
    defaults are [is_virtual = false] and [rsvp_count = 0]. *)
Definition eventRepo_create (artist : string) (dto : CreateEventDto.t)
    (start : Z) (end_ : option Z) : ArtistEvent :=
  {| artistId := artist;
     title := CreateEventDto.title dto;
     description := CreateEventDto.description dto;
     eventType := CreateEventDto.eventType dto;
     startTime := start;
     endTime := end_;
     venue := CreateEventDto.venue dto;
     streamUrl := CreateEventDto.streamUrl dto;
     ticketUrl := CreateEventDto.ticketUrl dto;
     isVirtual := default false (CreateEventDto.isVirtual dto);
     rsvpCount := 0 |}.

(** [save] of a new entity: an insert under the key [uuid] that the column
    default [uuid_generate_v4()] draws; a key already in use violates the
    primary key. *)
Definition eventRepo_insert (uuid : string) (e : ArtistEvent)
  : M (Entity ArtistEvent) :=
  call (EventRepo_save (uuid, e)) QueryFailedError
    (λ w, match events w !! uuid with
          | None => (Ok (uuid, e), set_events (<[uuid := e]> (events w)) w)
          | Some _ => (Throw QueryFailedError, w)
          end).

(** *** The entity manager of a transaction *)

(** [manager.create(EventRSVP, { eventId, userId, reminderEnabled })];
    [reminder_sent] takes its column default. *)
Definition manager_create (eid uid : string) (enabled : bool) : EventRSVP :=
  {| eventId := eid; userId := uid;
     reminderEnabled := enabled; reminderSent := false |}.

(** [manager.save(rsvp)]: the insert is refused by the primary key, by the
    unique index on [(event_id, user_id)] and by the foreign key. *)
Definition manager_save (uuid : string) (r : EventRSVP) : M (Entity EventRSVP) :=
  call (Manager_save (uuid, r)) QueryFailedError
    (λ w, match rsvps w !! uuid,
                head (map_to_list (rsvps_where (eventId r) (userId r) (rsvps w))),
                events w !! eventId r with
          | None, None, Some _ =>
              (Ok (uuid, r), set_rsvps (<[uuid := r]> (rsvps w)) w)
          | _, _, _ => (Throw QueryFailedError, w)
          end).

Definition manager_remove (r : Entity EventRSVP) : M unit :=
  call (Manager_remove r) QueryFailedError
    (λ w, (Ok (), set_rsvps (delete r.1 (rsvps w)) w)).

(** [update(ArtistEvent).set({ rsvpCount: () => x }).where('id = :id')] *)
Definition manager_update (x : CounterExpr) (id : string) : M unit :=
  call (Manager_update x id) QueryFailedError
    (λ w, (Ok (),
           set_events
             (alter (λ e, set_rsvpCount (eval_CounterExpr x (rsvpCount e)) e)
                id (events w)) w)).

(** *** The notifications service *)

(** Modelled from the spec: [NotificationsService.sendEventReminders] is
    not among the sources.  It is the reminder-dispatch capability
    [dispatchReminders(userIds, event) → success/failure] of the external
    interfaces: a recorded call that the channel accepts or rejects, with
    no effect on the two tables. *)
Definition notificationsService_sendEventReminders
    (userIds : list string) (event : Entity ArtistEvent) : M unit :=
  call (Notifications_sendEventReminders userIds event) DispatchError (mret ()).

(** ** EventsService (events.service.ts)

    [now] is the value of [new Date()] during the call. *)

Definition createEvent (now : Z) (uuid artist : string) (dto : CreateEventDto.t)
  : M (Entity ArtistEvent) :=
  let start := CreateEventDto.startTime dto in
  if start <=? now then throw BadRequestException else
  let end_ := CreateEventDto.endTime dto in
  if match end_ with Some e => e <=? start | None => false end
  then throw BadRequestException else
  let event := eventRepo_create artist dto start end_ in
  eventRepo_insert uuid event.

Definition getEvent (eventId : string) : M (Entity ArtistEvent) :=
  event ← eventRepo_findOne eventId;
  match event with
  | None => throw NotFoundException
  | Some event => mret event
  end.

(** [Object.assign(event, { ...dto, startTime, endTime })] *)
Definition Object_assign (e : ArtistEvent) (dto : UpdateEventDto.t)
    (start : Z) (end_ : option Z) : ArtistEvent :=
  {| artistId := artistId e;
     title := default (title e) (UpdateEventDto.title dto);
     description := default (description e) (UpdateEventDto.description dto);
     eventType := default (eventType e) (UpdateEventDto.eventType dto);
     startTime := start;
     endTime := end_;
     venue := from_option Some (venue e) (UpdateEventDto.venue dto);
     streamUrl := from_option Some (streamUrl e) (UpdateEventDto.streamUrl dto);
     ticketUrl := from_option Some (ticketUrl e) (UpdateEventDto.ticketUrl dto);
     isVirtual := default (isVirtual e) (UpdateEventDto.isVirtual dto);
     rsvpCount := rsvpCount e |}.

Definition updateEvent (eventId artist : string) (dto : UpdateEventDto.t)
  : M (Entity ArtistEvent) :=
  event ← getEvent eventId;
  if bool_decide (artistId event.2 ≠ artist) then throw ForbiddenException else
  let start := default (startTime event.2) (UpdateEventDto.startTime dto) in
  let end_ := from_option Some (endTime event.2) (UpdateEventDto.endTime dto) in
  if match end_ with Some e => e <=? start | None => false end
  then throw BadRequestException else
  eventRepo_save (event.1, Object_assign event.2 dto start end_).

Definition getFeed (now : Z) (followedArtistIds : list string)
    (pagination : PaginationDto.t) : M (PaginatedResult (Entity ArtistEvent)) :=
  let page := default 1 (PaginationDto.page pagination) in
  let limit := default 20 (PaginationDto.limit pagination) in
  if (length followedArtistIds =? 0)%nat
  then mret (new_PaginatedResult [] 0 page limit) else
  r ← eventRepo_findAndCount followedArtistIds now ((page - 1) * limit) limit;
  mret (new_PaginatedResult r.1 r.2 page limit).

Definition rsvp (now : Z) (uuid eventId userId : string) (dto : RsvpDto.t)
  : M (Entity EventRSVP) :=
  event ← getEvent eventId;
  if startTime event.2 <=? now then throw BadRequestException else
  existing ← rsvpRepo_findOne eventId userId;
  match existing with
  | Some _ => throw ConflictException
  | None =>
      transaction (
        let rsvp := manager_create eventId userId
                      (default true (RsvpDto.reminderEnabled dto)) in
        rsvp ← manager_save uuid rsvp;
        manager_update rsvp_count_plus_1 eventId;;
        mret rsvp)
  end.

Definition unRsvp (eventId userId : string) : M unit :=
  rsvp ← rsvpRepo_findOne eventId userId;
  match rsvp with
  | None => throw NotFoundException
  | Some rsvp =>
      transaction (
        manager_remove rsvp;;
        manager_update GREATEST_rsvp_count_minus_1_0 eventId)
  end.

Definition getEventsStartingSoon (now : Z) : M (list (Entity ArtistEvent)) :=
  let oneHourFromNow := now + 60 * 60 * 1000 in
  let buffer := now + 55 * 60 * 1000 in
  eventRepo_getMany buffer oneHourFromNow.

Definition getRsvpsForReminder (eventId : string) : M (list (Entity EventRSVP)) :=
  rsvpRepo_find eventId.

Definition markReminderSent (rsvpIds : list string) : M unit :=
  if (length rsvpIds =? 0)%nat then mret () else rsvpRepo_update rsvpIds.

(** ** EventsScheduler (events.scheduler.ts) *)

(** The body of the loop: one event, inside its [try]/[catch].  The value
    is the running [totalSent]. *)
Definition remindEvent (event : Entity ArtistEvent) (totalSent : Z) : M Z :=
  try_catch
    (rsvps ← getRsvpsForReminder event.1;
     if (length rsvps =? 0)%nat then mret totalSent else
     let userIds := (λ r : Entity EventRSVP, userId r.2) <$> rsvps in
     let rsvpIds := (λ r : Entity EventRSVP, r.1) <$> rsvps in
     notificationsService_sendEventReminders userIds event;;
     markReminderSent rsvpIds;;
     mret (totalSent + Z.of_nat (length userIds)))
    (λ err, mret totalSent).

Fixpoint remindEvents (upcomingEvents : list (Entity ArtistEvent))
    (totalSent : Z) : M Z :=
  match upcomingEvents with
  | [] => mret totalSent
  | event :: rest =>
      totalSent ← remindEvent event totalSent;
      remindEvents rest totalSent
  end.

(** The cron job, [@Cron(CronExpression.EVERY_5_MINUTES)]. *)
Definition sendEventReminders (now : Z) : M unit :=
  upcomingEvents ← getEventsStartingSoon now;
  if (length upcomingEvents =? 0)%nat then mret () else
  remindEvents upcomingEvents 0;;
  mret ().

End Service.

Definition EVERY_5_MINUTES : Z := 5 * 60 * 1000.

(** * Vocabulary of the properties *)

(** ** Rows, counters and sequences of ledger calls *)

(** An RSVP row of the user for the event. *)
Definition has_rsvp (eid uid : string) (w : World) : Prop :=
  ∃ k r, rsvps w !! k = Some r ∧ eventId r = eid ∧ userId r = uid.

(** The number of RSVP rows that reference the event. *)
Definition attendees (eid : string) (w : World) : Z :=
  Z.of_nat (size (rsvps_of eid (rsvps w))).

(** The event is there and its counter is the number of its RSVP rows. *)
Definition counter_ok (eid : string) (w : World) : Prop :=
  ∃ e, events w !! eid = Some e ∧ rsvpCount e = attendees eid w.

(** A call on the ledger, with the store failures it meets. *)
Inductive LedgerCall :=
| CreateRsvp (fails : Call → bool) (now : Z) (uuid eventId userId : string)
    (dto : RsvpDto.t)
| RemoveRsvp (fails : Call → bool) (eventId userId : string).

Definition run_call (w : World) (c : LedgerCall) : World :=
  match c with
  | CreateRsvp fails now uuid eid uid dto => (rsvp fails now uuid eid uid dto w).2
  | RemoveRsvp fails eid uid => (unRsvp fails eid uid w).2
  end.

Definition run_calls (cs : list LedgerCall) (w : World) : World :=
  foldl run_call w cs.

(** ** The calls of a sweep *)

(** The rows [getRsvpsForReminder] fetches for an event, their users and
    their keys. *)
Definition pending (eid : string) (w : World) : list (Entity EventRSVP) :=
  map_to_list (rsvps_pending eid (rsvps w)).

Definition userIds_of (rows : list (Entity EventRSVP)) : list string :=
  (λ r : Entity EventRSVP, userId r.2) <$> rows.

Definition rsvpIds_of (rows : list (Entity EventRSVP)) : list string :=
  (λ r : Entity EventRSVP, r.1) <$> rows.

(** The events a sweep at [now] selects. *)
Definition candidates (now : Z) (w : World) : list (Entity ArtistEvent) :=
  map_to_list
    (filter (λ kr, starts_between (now + 55 * 60 * 1000)
                     (now + 60 * 60 * 1000) kr.2) (events w)).

Section SweepCalls.

Variable fails : Call → bool.

(** The calls of one turn of the loop, given the rows the fetch returns. *)
Definition reminder_calls (event : Entity ArtistEvent)
    (rows : list (Entity EventRSVP)) : list Call :=
  RsvpRepo_find event.1 ::
  if fails (RsvpRepo_find event.1) || (length rows =? 0)%nat then [] else
  Notifications_sendEventReminders (userIds_of rows) event ::
  if fails (Notifications_sendEventReminders (userIds_of rows) event) then []
  else [RsvpRepo_update (rsvpIds_of rows)].

(** The turn reaches the end of its [try] block with rows marked. *)
Definition reminded (event : Entity ArtistEvent)
    (rows : list (Entity EventRSVP)) : bool :=
  negb (fails (RsvpRepo_find event.1))
  && negb (length rows =? 0)%nat
  && negb (fails (Notifications_sendEventReminders (userIds_of rows) event))
  && negb (fails (RsvpRepo_update (rsvpIds_of rows))).

(** A row is marked by the sweep over [evs] when the turn of its event
    went through. *)
Definition marked (evs : list (Entity ArtistEvent)) (w : World) (k : string)
  : bool :=
  existsb (λ ev, reminded ev (pending ev.1 w)
                 && bool_decide (k ∈ rsvpIds_of (pending ev.1 w))) evs.

End SweepCalls.

(** A dispatch for the event [id]; an update that names the row [k]. *)
Definition dispatches_for (id : string) (c : Call) : Prop :=
  match c with
  | Notifications_sendEventReminders _ ev => ev.1 = id
  | _ => False
  end.

Definition updates_row (k : string) (c : Call) : Prop :=
  match c with
  | RsvpRepo_update rsvpIds => k ∈ rsvpIds
  | _ => False
  end.

Global Instance dispatches_for_dec id c : Decision (dispatches_for id c).
Proof. destruct c; cbn; apply _. Defined.

Global Instance updates_row_dec k c : Decision (updates_row k c).
Proof. destruct c; cbn; apply _. Defined.

(** ** Stores that reject some calls *)

(** A store that rejects no call. *)
Definition reliable : Call → bool := λ _, false.

(** A store that rejects the counter update only. *)
Definition rejects_update : Call → bool :=
  λ c, match c with Manager_update _ _ => true | _ => false end.

(** A store that rejects the fetch of the pending rows of one event. *)
Definition rejects_fetch (id : string) : Call → bool :=
  λ c, match c with
       | RsvpRepo_find id' => bool_decide (id' = id)
       | _ => false
       end.

(** A notification channel that rejects every dispatch. *)
Definition rejects_dispatch : Call → bool :=
  λ c, match c with Notifications_sendEventReminders _ _ => true | _ => false end.

(** ** Sample data: one event 58 minutes ahead with two pending RSVPs and
    one RSVP without reminder, and one event 70 minutes ahead. *)

Definition minutes (n : Z) : Z := n * 60 * 1000.

Definition sample_event (artist : string) (start count : Z) : ArtistEvent :=
  {| artistId := artist; title := "Upcoming Show"; description := "desc";
     eventType := LIVE_STREAM; startTime := start; endTime := None;
     venue := None; streamUrl := None; ticketUrl := None; isVirtual := true;
     rsvpCount := count |}.

Definition sample_rsvp (eid uid : string) (enabled sent : bool) : EventRSVP :=
  {| eventId := eid; userId := uid;
     reminderEnabled := enabled; reminderSent := sent |}.

Definition sample_world : World :=
  {| events :=
       <["event-1" := sample_event "artist-1" (minutes 58) 3]>
         (<["event-2" := sample_event "artist-2" (minutes 70) 0]> ∅);
     rsvps :=
       <["rsvp-1" := sample_rsvp "event-1" "user-1" true false]>
         (<["rsvp-2" := sample_rsvp "event-1" "user-2" true false]>
            (<["rsvp-3" := sample_rsvp "event-1" "user-3" false false]> ∅));
     trace := [] |}.

(** Two events in the window of a sweep at 0, each with pending rows. *)
Definition two_events_world : World :=
  {| events :=
       <["event-1" := sample_event "artist-1" (minutes 58) 3]>
         (<["event-2" := sample_event "artist-2" (minutes 57) 1]> ∅);
     rsvps :=
       <["rsvp-1" := sample_rsvp "event-1" "user-1" true false]>
         (<["rsvp-2" := sample_rsvp "event-1" "user-2" true false]>
            (<["rsvp-3" := sample_rsvp "event-1" "user-3" false false]>
               (<["rsvp-4" := sample_rsvp "event-2" "user-2" true false]> ∅)));
     trace := [] |}.

Definition past_start_dto : UpdateEventDto.t :=
  {| UpdateEventDto.title := None; UpdateEventDto.description := None;
     UpdateEventDto.eventType := None;
     UpdateEventDto.startTime := Some (-1000);
     UpdateEventDto.endTime := None; UpdateEventDto.venue := None;
     UpdateEventDto.streamUrl := None; UpdateEventDto.ticketUrl := None;
     UpdateEventDto.isVirtual := None |}.

Definition default_RsvpDto : RsvpDto.t := {| RsvpDto.reminderEnabled := None |}.

Definition sample_calls : list LedgerCall :=
  [ CreateRsvp reliable 0 "rsvp-4" "event-1" "user-4" default_RsvpDto;
    CreateRsvp reliable 0 "rsvp-5" "event-1" "user-4" default_RsvpDto;
    RemoveRsvp reliable "event-1" "user-1";
    CreateRsvp rejects_update 0 "rsvp-6" "event-1" "user-6" default_RsvpDto;
    RemoveRsvp reliable "event-1" "user-2";
    RemoveRsvp reliable "event-1" "user-2" ].

(** * The rest of the service *)

(** ** The remaining repository calls

    [remove] of an event and the two listings.  They are accepted or
    rejected by a parameter of their own, [rejects]; the trace keeps to the
    calls of the ledger, the feed and the sweep. *)

Inductive RestCall :=
| EventRepo_remove (e : Entity ArtistEvent)
| EventRepo_findAndCount_artist (artistId : string) (skip take : Z)
| RsvpRepo_findAndCount (eventId : string) (skip take : Z).

(** [order: { createdAt: 'ASC' }].  The creation timestamp of a row is set
    by the store at the insert and never written again; the entity records
    leave it out, so the listing takes it as a function of the key. *)
Definition createdAt_ASC (createdAt : string → Z) (a b : Entity EventRSVP)
  : Prop :=
  createdAt a.1 ≤ createdAt b.1.

Global Instance createdAt_ASC_dec createdAt a b :
  Decision (createdAt_ASC createdAt a b).
Proof. unfold createdAt_ASC. apply _. Defined.

(** The rows [skip]/[take] keep of an ordered listing. *)
Definition skip_take {T} (skip_ take_ : Z) (rows : list T) : list T :=
  take (Z.to_nat take_) (drop (Z.to_nat skip_) rows).

Section ServiceRest.

Variable fails : Call → bool.
Variable rejects : RestCall → bool.
Variable createdAt : string → Z.

Definition call_rest {A} (c : RestCall) (run : M A) : M A := λ w,
  if rejects c then (Throw QueryFailedError, w) else run w.

(** [remove(event)]: the row goes, and with it the RSVP rows that
    reference it ([ON DELETE CASCADE]). *)
Definition eventRepo_remove (e : Entity ArtistEvent) : M unit :=
  call_rest (EventRepo_remove e)
    (λ w, (Ok (),
           {| events := delete e.1 (events w);
              rsvps := filter (λ kr, eventId kr.2 ≠ e.1) (rsvps w);
              trace := trace w |})).

(** [findAndCount({ where: { artistId }, order: { startTime: 'ASC' },
    skip, take })] *)
Definition eventRepo_findAndCount_artist (artist : string) (skip_ take_ : Z)
  : M (list (Entity ArtistEvent) * Z) :=
  call_rest (EventRepo_findAndCount_artist artist skip_ take_)
    (λ w,
       let rows :=
         merge_sort startTime_ASC
           (map_to_list (filter (λ kr, artistId kr.2 = artist) (events w))) in
       (Ok (skip_take skip_ take_ rows, Z.of_nat (length rows)), w)).


Definition getEventsByArtist (artist : string) (pagination : PaginationDto.t)
  : M (PaginatedResult (Entity ArtistEvent)) :=
  let page := default 1 (PaginationDto.page pagination) in
  let limit := default 20 (PaginationDto.limit pagination) in
  r ← eventRepo_findAndCount_artist artist ((page - 1) * limit) limit;
  mret (new_PaginatedResult r.1 r.2 page limit).

Definition deleteEvent (eventId artist : string) : M unit :=
  event ← getEvent fails eventId;
  if bool_decide (artistId event.2 ≠ artist) then throw ForbiddenException else
  eventRepo_remove event.


End ServiceRest.

(** ** ArtistGuard (guards/artist.guard.ts)

    [request.user] is absent ([null], [undefined]) or carries the subject
    and, for an artist, the artist id. *)

Module JwtUser.
Record t := { sub : string; artistId : option string }.
End JwtUser.

(** [!user?.artistId]: no user, no artist id or the empty string. *)
Definition canActivate (user : option JwtUser.t) : Result bool :=
  match user ≫= JwtUser.artistId with
  | Some (String _ _) => Ok true
  | _ => Throw ForbiddenException
  end.

(** ** Store invariants *)

(** Every RSVP row references a stored event: the foreign key. *)
Definition references_ok (w : World) : Prop :=
  ∀ k r, rsvps w !! k = Some r → is_Some (events w !! eventId r).

(** At most one RSVP row for an event and a user: the unique index. *)
Definition one_rsvp_per_user (w : World) : Prop :=
  ∀ k k' r r', rsvps w !! k = Some r → rsvps w !! k' = Some r' →
    eventId r = eventId r' → userId r = userId r' → k = k'.

(** Every counter is the number of RSVP rows of its event. *)
Definition counters_ok (w : World) : Prop :=
  ∀ eid e, events w !! eid = Some e → rsvpCount e = attendees eid w.

(** An event that has an end ends after it starts. *)
Definition ends_after_starts (w : World) : Prop :=
  ∀ eid e t, events w !! eid = Some e → endTime e = Some t → startTime e < t.

Definition consistent (w : World) : Prop :=
  references_ok w ∧ one_rsvp_per_user w ∧ counters_ok w ∧ ends_after_starts w.

(** A row table that differs from another only by reminders marked sent. *)
Definition marks_only (t t' : gmap string EventRSVP) : Prop :=
  ∀ k, match t !! k, t' !! k with
       | None, None => True
       | Some r, Some r' =>
           r' = r ∨ (r' = set_reminderSent true r
                     ∧ reminderEnabled r = true ∧ reminderSent r = false)
       | _, _ => False
       end.

(** Two row tables with the same keys and, under each key, the same event
    and user. *)
Definition same_attendance (t t' : gmap string EventRSVP) : Prop :=
  ∀ k, (λ r, (eventId r, userId r)) <$> t' !! k
       = (λ r, (eventId r, userId r)) <$> t !! k.

(** What a call of a sweep at [now] that starts in the world [w] can be:
    the selection, the fetch for a selected event, a dispatch to the users
    of the pending rows of a selected event, the update of those rows. *)
Definition sweep_call (now : Z) (w : World) (c : Call) : Prop :=
  match c with
  | EventRepo_getMany buffer oneHourFromNow =>
      buffer = now + 55 * 60 * 1000 ∧ oneHourFromNow = now + 60 * 60 * 1000
  | RsvpRepo_find id => ∃ e, (id, e) ∈ candidates now w
  | Notifications_sendEventReminders userIds ev =>
      ev ∈ candidates now w
      ∧ userIds = userIds_of (pending ev.1 w) ∧ userIds ≠ []
  | RsvpRepo_update rsvpIds =>
      ∃ ev, ev ∈ candidates now w
            ∧ rsvpIds = rsvpIds_of (pending ev.1 w) ∧ rsvpIds ≠ []
  | _ => False
  end.

(** A call that sends or marks. *)
Definition sends_or_marks (c : Call) : Prop :=
  match c with
  | Notifications_sendEventReminders _ _ | RsvpRepo_update _ => True
  | _ => False
  end.

(** A call of the service that may write, with the failures it meets. *)
Inductive ServiceCall :=
| CallCreateEvent (fails : Call → bool) (now : Z) (uuid artist : string)
    (dto : CreateEventDto.t)
| CallUpdateEvent (fails : Call → bool) (eventId artist : string)
    (dto : UpdateEventDto.t)
| CallDeleteEvent (fails : Call → bool) (rejects : RestCall → bool)
    (eventId artist : string)
| CallRsvp (fails : Call → bool) (now : Z) (uuid eventId userId : string)
    (dto : RsvpDto.t)
| CallUnRsvp (fails : Call → bool) (eventId userId : string)
| CallMarkReminderSent (fails : Call → bool) (rsvpIds : list string)
| CallSendEventReminders (fails : Call → bool) (now : Z).

Definition run_service_call (w : World) (c : ServiceCall) : World :=
  match c with
  | CallCreateEvent fails now uuid artist dto =>
      (createEvent fails now uuid artist dto w).2
  | CallUpdateEvent fails eid artist dto => (updateEvent fails eid artist dto w).2
  | CallDeleteEvent fails rejects eid artist =>
      (deleteEvent fails rejects eid artist w).2
  | CallRsvp fails now uuid eid uid dto => (rsvp fails now uuid eid uid dto w).2
  | CallUnRsvp fails eid uid => (unRsvp fails eid uid w).2
  | CallMarkReminderSent fails rsvpIds => (markReminderSent fails rsvpIds w).2
  | CallSendEventReminders fails now => (sendEventReminders fails now w).2
  end.

Definition run_service (cs : list ServiceCall) (w : World) : World :=
  foldl run_service_call w cs.

Definition empty_world : World := {| events := ∅; rsvps := ∅; trace := [] |}.

(** A store that accepts every one of the remaining calls. *)
Definition accepts : RestCall → bool := λ _, false.

(** The data of a page that was returned. *)
Definition result_data {T} (r : Result (PaginatedResult T)) : list T :=
  match r with
  | Ok p => data p
  | Throw _ => []
  end.

Definition page_dto (page limit : Z) : PaginationDto.t :=
  {| PaginationDto.page := Some page; PaginationDto.limit := Some limit |}.

(** ** Numbers

    The numbers of the language are the binary64 floating-point numbers;
    the operations on them are those of the specification of IEEE 754
    arithmetic in the standard library, with a mantissa of 53 bits and
    rounding to nearest, ties to even. *)
Definition Number : Type := SpecFloat.spec_float.

(** The number an integer denotes: the nearest binary64 number. *)
Definition Number_of_Z (z : Z) : Number :=
  SpecFloat.binary_normalize 53 1024 z 0 false.

(** [x / y] *)
Definition Number_div (x y : Number) : Number := SpecFloat.SFdiv 53 1024 x y.

(** [Math.ceil(x)], an integer for a finite [x]; [None] for [NaN] and the
    infinities. *)
Definition Math_ceil (x : Number) : option Z :=
  match x with
  | SpecFloat.S754_zero _ => Some 0
  | SpecFloat.S754_finite s m e =>
      let v := SpecFloat.cond_Zopp s (Z.pos m) in
      Some (if 0 <=? e then v * 2 ^ e else - ((- v) `div` 2 ^ (- e)))
  | _ => None
  end.

(** [Number.MAX_SAFE_INTEGER]: up to it every integer is a number, and so
    are its neighbours. *)
Definition MAX_SAFE_INTEGER : Z := 2 ^ 53 - 1.

(** The start times of the events of an artist. *)
Definition startTimes_of (artist : string) (w : World) : list Z :=
  (λ kr, startTime kr.2)
    <$> map_to_list (filter (λ kr, artistId kr.2 = artist) (events w)).

(** Strictly ascending start. *)
Definition startTime_lt (a b : Entity ArtistEvent) : Prop :=
  startTime a.2 < startTime b.2.

(** Three events of one artist, one of them past, and one of another. *)
Definition artist_events_world : World :=
  {| events :=
       <["event-1" := sample_event "artist-1" (minutes 58) 0]>
         (<["event-2" := sample_event "artist-2" (minutes 57) 0]>
            (<["event-3" := sample_event "artist-1" (minutes 10) 0]>
               (<["event-4" := sample_event "artist-1" (minutes (-5)) 0]> ∅)));
     rsvps := ∅;
     trace := [] |}.

(** An edit that sets four fields and leaves the other five alone. *)
Definition venue_dto : UpdateEventDto.t :=
  {| UpdateEventDto.title := Some "Moved"; UpdateEventDto.description := None;
     UpdateEventDto.eventType := None; UpdateEventDto.startTime := None;
     UpdateEventDto.endTime := Some (minutes 120);
     UpdateEventDto.venue := Some "Hall 2";
     UpdateEventDto.streamUrl := None;
     UpdateEventDto.ticketUrl := Some "https://tickets";
     UpdateEventDto.isVirtual := Some false |}.

(** Calls that build a store from nothing: an event, three RSVP attempts
    (the third a duplicate), a sweep, an edit and two cancellations (the
    first rolled back). *)
Definition sample_service_calls : list ServiceCall :=
  [ CallCreateEvent reliable 0 "event-1" "artist-1"
      {| CreateEventDto.title := "Show"; CreateEventDto.description := "desc";
         CreateEventDto.eventType := CONCERT;
         CreateEventDto.startTime := minutes 58;
         CreateEventDto.endTime := Some (minutes 120);
         CreateEventDto.venue := None; CreateEventDto.streamUrl := None;
         CreateEventDto.ticketUrl := None; CreateEventDto.isVirtual := None |};
    CallRsvp reliable 0 "rsvp-1" "event-1" "user-1" default_RsvpDto;
    CallRsvp reliable 0 "rsvp-2" "event-1" "user-2" default_RsvpDto;
    CallRsvp reliable 0 "rsvp-3" "event-1" "user-2" default_RsvpDto;
    CallSendEventReminders reliable 0;
    CallUpdateEvent reliable "event-1" "artist-1" past_start_dto;
    CallUnRsvp rejects_update "event-1" "user-1";
    CallUnRsvp reliable "event-1" "user-2" ].

(** * Properties *)

(** Unfolds the monad and the collaborators' calls. *)
Ltac unfold_M :=
  unfold mbind, M_bind, bind, mret, M_ret, ret, throw, try_catch,
    transaction, call in *.

(** ** Lookups *)

Lemma getEvent_found fails eid w e :
  fails (EventRepo_findOne eid) = false →
  events w !! eid = Some e →
  getEvent fails eid w = (Ok (eid, e), log_call (EventRepo_findOne eid) w).
Proof.
  intros Hf He. unfold getEvent, eventRepo_findOne. unfold_M.
  rewrite Hf. cbn. rewrite He. reflexivity.
Qed.

Lemma getEvent_missing fails eid w :
  fails (EventRepo_findOne eid) = false →
  events w !! eid = None →
  getEvent fails eid w
  = (Throw NotFoundException, log_call (EventRepo_findOne eid) w).
Proof.
  intros Hf He. unfold getEvent, eventRepo_findOne. unfold_M.
  rewrite Hf. cbn. rewrite He. reflexivity.
Qed.

Lemma getEvent_rejected fails eid w :
  fails (EventRepo_findOne eid) = true →
  getEvent fails eid w
  = (Throw QueryFailedError, log_call (EventRepo_findOne eid) w).
Proof.
  intros Hf. unfold getEvent, eventRepo_findOne. unfold_M.
  rewrite Hf. reflexivity.
Qed.

(** What [getEvent] returns is a row of the table, and it writes nothing. *)
Lemma getEvent_inv fails eid w res w' :
  getEvent fails eid w = (res, w') →
  events w' = events w ∧ rsvps w' = rsvps w ∧
  ∀ ev, res = Ok ev → ev.1 = eid ∧ events w !! eid = Some ev.2.
Proof.
  destruct (fails (EventRepo_findOne eid)) eqn:Hf.
  - rewrite getEvent_rejected by done. intros [= <- <-]. done.
  - destruct (events w !! eid) as [e|] eqn:He.
    + rewrite (getEvent_found _ _ _ e) by done. intros [= <- <-].
      split_and!; [done..|]. by intros ? [= <-].
    + rewrite getEvent_missing by done. intros [= <- <-]. done.
Qed.

Lemma head_map_to_list_Some {A} (m : gmap string A) kr :
  head (map_to_list m) = Some kr → m !! kr.1 = Some kr.2.
Proof.
  intros H. apply head_Some_elem_of in H. destruct kr as [k r].
  by apply elem_of_map_to_list in H.
Qed.

Lemma head_map_to_list_None {A} (m : gmap string A) :
  head (map_to_list m) = None ↔ m = ∅.
Proof. rewrite head_None. apply map_to_list_empty_iff. Qed.

(** ** Feed *)

(** C9: with no followed artist the feed is the empty page with total 0,
    for every pagination argument, whatever the store would answer; the
    world that comes back is the one that went in, so its trace has no new
    call: the event store is not queried. *)
Theorem getFeed_no_followed_artists fails now pagination w :
  ∃ r, getFeed fails now [] pagination w = (Ok r, w)
       ∧ data r = [] ∧ total r = 0
       ∧ page r = default 1 (PaginationDto.page pagination)
       ∧ limit r = default 20 (PaginationDto.limit pagination)
       ∧ trace (getFeed fails now [] pagination w).2 = trace w.
Proof.
  eexists. unfold getFeed. cbn. repeat split; reflexivity.
Qed.

(** With a followed artist the event store is queried, exactly once. *)
Lemma getFeed_queries_store fails now a l pagination w :
  trace (getFeed fails now (a :: l) pagination w).2
  = trace w ++
    [EventRepo_findAndCount (a :: l) now
       ((default 1 (PaginationDto.page pagination) - 1)
        * default 20 (PaginationDto.limit pagination))
       (default 20 (PaginationDto.limit pagination))].
Proof.
  unfold getFeed, eventRepo_findAndCount. cbn. unfold_M.
  by destruct (fails _).
Qed.

(** The page count of the test suite. *)
Lemma totalPages_examples :
  totalPages (new_PaginatedResult (T:=string) [] 25 2 10) = Some 3
  ∧ totalPages (new_PaginatedResult (T:=string) [] 0 1 20) = Some 0
  ∧ totalPages (new_PaginatedResult (T:=string) [] 20 1 20) = Some 1.
Proof. by vm_compute. Qed.

(** ** The reminder window *)

Lemma getEventsStartingSoon_run fails now w :
  getEventsStartingSoon fails now w
  = let c := EventRepo_getMany (now + 55 * 60 * 1000) (now + 60 * 60 * 1000) in
    if fails c then (Throw QueryFailedError, log_call c w)
    else (Ok (map_to_list
                (filter (λ kr, starts_between (now + 55 * 60 * 1000)
                                 (now + 60 * 60 * 1000) kr.2) (events w))),
          log_call c w).
Proof. reflexivity. Qed.

Lemma getEventsStartingSoon_elem fails now w l ev :
  (getEventsStartingSoon fails now w).1 = Ok l →
  ev ∈ l ↔ events w !! ev.1 = Some ev.2
           ∧ now + 55 * 60 * 1000 < startTime ev.2 ≤ now + 60 * 60 * 1000.
Proof.
  rewrite getEventsStartingSoon_run. cbn. destruct (fails _); [done|].
  intros [= <-]. destruct ev as [k e].
  rewrite elem_of_map_to_list, map_lookup_filter_Some. done.
Qed.

(** C5: when the store answers, [getEventsStartingSoon] returns, each once,
    exactly the events that start after [now + 55 min] and no later than
    [now + 60 min]; an event 58 minutes ahead is among them, an event 50 or
    70 minutes ahead is not. *)
Theorem getEventsStartingSoon_window fails now w :
  fails (EventRepo_getMany (now + 55 * 60 * 1000) (now + 60 * 60 * 1000))
  = false →
  ∃ l, (getEventsStartingSoon fails now w).1 = Ok l
    ∧ NoDup l
    ∧ (∀ id e, (id, e) ∈ l ↔
         events w !! id = Some e
         ∧ now + 55 * 60 * 1000 < startTime e ≤ now + 60 * 60 * 1000)
    ∧ (∀ id e, events w !! id = Some e →
         startTime e = now + 58 * 60 * 1000 → (id, e) ∈ l)
    ∧ (∀ id e, startTime e = now + 50 * 60 * 1000
               ∨ startTime e = now + 70 * 60 * 1000 → (id, e) ∉ l).
Proof.
  intros Hf.
  assert (Hrun := getEventsStartingSoon_run fails now w).
  cbn zeta in Hrun. rewrite Hf in Hrun.
  eexists. split; [by rewrite Hrun|].
  assert (Hl : (getEventsStartingSoon fails now w).1 = Ok
    (map_to_list (filter (λ kr, starts_between (now + 55 * 60 * 1000)
       (now + 60 * 60 * 1000) kr.2) (events w)))) by (by rewrite Hrun).
  split; [apply NoDup_map_to_list|].
  split; [intros id e; apply (getEventsStartingSoon_elem _ _ _ _ (id, e) Hl)|].
  split.
  - intros id e He Hs.
    apply (getEventsStartingSoon_elem _ _ _ _ (id, e) Hl). cbn. split; [done|lia].
  - intros id e Hs Hin.
    apply (getEventsStartingSoon_elem _ _ _ _ (id, e) Hl) in Hin. cbn in Hin. lia.
Qed.

Lemma getEventsStartingSoon_window_witness :
  ∃ l, (getEventsStartingSoon reliable 0 sample_world).1 = Ok l
    ∧ NoDup l
    ∧ (∀ id e, (id, e) ∈ l ↔
         events sample_world !! id = Some e
         ∧ 0 + 55 * 60 * 1000 < startTime e ≤ 0 + 60 * 60 * 1000)
    ∧ (∀ id e, events sample_world !! id = Some e →
         startTime e = 0 + 58 * 60 * 1000 → (id, e) ∈ l)
    ∧ (∀ id e, startTime e = 0 + 50 * 60 * 1000
               ∨ startTime e = 0 + 70 * 60 * 1000 → (id, e) ∉ l).
Proof.
  apply (getEventsStartingSoon_window reliable 0 sample_world). reflexivity.
Defined.

(** The sample sweep selects the event 58 minutes ahead and only it. *)
Example getEventsStartingSoon_sample :
  (getEventsStartingSoon reliable 0 sample_world).1
  = Ok [("event-1", sample_event "artist-1" (minutes 58) 3)].
Proof. by vm_compute. Qed.

(** C8: two sweeps five minutes apart, at [now] and at
    [now + EVERY_5_MINUTES].  Their windows [(now + 55 min, now + 60 min]]
    and [(now + 60 min, now + 65 min]] share no instant and together make
    up [(now + 55 min, now + 65 min]]: no start instant is selected by both
    sweeps, and an event that both sweeps find in the table is selected by
    one of them exactly when it starts in [(now + 55 min, now + 65 min]]. *)
Theorem consecutive_sweeps_partition fails now w1 w2 l1 l2 :
  (getEventsStartingSoon fails now w1).1 = Ok l1 →
  (getEventsStartingSoon fails (now + EVERY_5_MINUTES) w2).1 = Ok l2 →
  (∀ t, ¬ (now + 55 * 60 * 1000 < t ≤ now + 60 * 60 * 1000
           ∧ now + EVERY_5_MINUTES + 55 * 60 * 1000 < t
             ≤ now + EVERY_5_MINUTES + 60 * 60 * 1000))
  ∧ (∀ t, now + 55 * 60 * 1000 < t ≤ now + 60 * 60 * 1000
          ∨ now + EVERY_5_MINUTES + 55 * 60 * 1000 < t
            ≤ now + EVERY_5_MINUTES + 60 * 60 * 1000
          ↔ now + 55 * 60 * 1000 < t ≤ now + 65 * 60 * 1000)
  ∧ (∀ ev1 ev2, ev1 ∈ l1 → ev2 ∈ l2 → startTime ev1.2 ≠ startTime ev2.2)
  ∧ (∀ id e, events w1 !! id = Some e → events w2 !! id = Some e →
       ((id, e) ∈ l1 ∨ (id, e) ∈ l2
        ↔ now + 55 * 60 * 1000 < startTime e ≤ now + 65 * 60 * 1000)).
Proof.
  intros H1 H2. unfold EVERY_5_MINUTES in *.
  split; [intros t; lia|]. split; [intros t; lia|]. split.
  - intros ev1 ev2 Hin1 Hin2.
    apply (getEventsStartingSoon_elem _ _ _ _ _ H1) in Hin1.
    apply (getEventsStartingSoon_elem _ _ _ _ _ H2) in Hin2. lia.
  - intros id e He1 He2.
    rewrite (getEventsStartingSoon_elem _ _ _ _ (id, e) H1).
    rewrite (getEventsStartingSoon_elem _ _ _ _ (id, e) H2). cbn.
    split; [lia|]. intros Ht.
    destruct (decide (startTime e ≤ now + 60 * 60 * 1000)).
    + left. split; [done|lia].
    + right. split; [done|lia].
Qed.

Lemma consecutive_sweeps_partition_witness :
  (getEventsStartingSoon reliable 0 sample_world).1
  = Ok [("event-1", sample_event "artist-1" (minutes 58) 3)]
  ∧ (getEventsStartingSoon reliable (0 + EVERY_5_MINUTES) sample_world).1 = Ok []
  ∧ ∀ id e, events sample_world !! id = Some e →
      events sample_world !! id = Some e →
      ((id, e) ∈ [("event-1", sample_event "artist-1" (minutes 58) 3)]
       ∨ (id, e) ∈ []
       ↔ 0 + 55 * 60 * 1000 < startTime e ≤ 0 + 65 * 60 * 1000).
Proof.
  split; [by vm_compute|]. split; [by vm_compute|].
  apply (consecutive_sweeps_partition reliable 0 sample_world sample_world);
    by vm_compute.
Defined.

(** ** Editing an event *)

Lemma createEvent_past_start fails now uuid artist dto w :
  CreateEventDto.startTime dto ≤ now →
  createEvent fails now uuid artist dto w = (Throw BadRequestException, w).
Proof.
  intros H. unfold createEvent.
  destruct (Z.leb_spec (CreateEventDto.startTime dto) now); [done|lia].
Qed.

(** The two clocks-free checks of [updateEvent], once the event is loaded. *)
Lemma updateEvent_loaded fails eid artist dto w e :
  fails (EventRepo_findOne eid) = false →
  events w !! eid = Some e →
  updateEvent fails eid artist dto w
  = let w1 := log_call (EventRepo_findOne eid) w in
    let start := default (startTime e) (UpdateEventDto.startTime dto) in
    let end_ := from_option Some (endTime e) (UpdateEventDto.endTime dto) in
    if bool_decide (artistId e ≠ artist) then (Throw ForbiddenException, w1)
    else if match end_ with Some t => t <=? start | None => false end
    then (Throw BadRequestException, w1)
    else eventRepo_save fails (eid, Object_assign e dto start end_) w1.
Proof.
  intros Hf He. unfold updateEvent. unfold_M.
  rewrite (getEvent_found _ _ _ e) by done. cbn.
  destruct (bool_decide _); [done|].
  destruct (match from_option Some (endTime e) (UpdateEventDto.endTime dto)
            with Some t => _ | None => _ end); done.
Qed.

(** C10: [updateEvent] answers INVALID_STATE only to the owner of an
    existing event and only when the effective end (the DTO's, else the
    stored one) is not after the effective start (the DTO's, else the stored
    one).  With a store that answers and the owner calling, it is
    INVALID_STATE exactly in that case and otherwise the edited event is
    saved; the clock is never read, so a start at or before [now] is
    accepted whenever the order holds.  [createEvent] rejects such a
    start. *)
Theorem updateEvent_checks_order_only fails eid artist dto w e :
  (∀ c, fails c = false) →
  events w !! eid = Some e →
  artistId e = artist →
  let start := default (startTime e) (UpdateEventDto.startTime dto) in
  let end_ := from_option Some (endTime e) (UpdateEventDto.endTime dto) in
  let res := (updateEvent fails eid artist dto w).1 in
  let w' := (updateEvent fails eid artist dto w).2 in
  (∀ fails' artist' w0,
     (updateEvent fails' eid artist' dto w0).1 = Throw INVALID_STATE →
     ∃ e0 t, events w0 !! eid = Some e0 ∧ artistId e0 = artist'
       ∧ from_option Some (endTime e0) (UpdateEventDto.endTime dto) = Some t
       ∧ t ≤ default (startTime e0) (UpdateEventDto.startTime dto))
  ∧ (res = Throw INVALID_STATE ↔ ∃ t, end_ = Some t ∧ t ≤ start)
  ∧ ((∀ t, end_ = Some t → start < t) →
     res = Ok (eid, Object_assign e dto start end_)
     ∧ events w' = <[eid := Object_assign e dto start end_]> (events w)
     ∧ rsvps w' = rsvps w)
  ∧ (∀ now s, UpdateEventDto.startTime dto = Some s → s ≤ now →
     (∀ t, end_ = Some t → s < t) →
     ∃ e', res = Ok (eid, e') ∧ startTime e' = s
           ∧ events w' !! eid = Some e')
  ∧ (∀ now uuid cdto w0, CreateEventDto.startTime cdto ≤ now →
     createEvent fails now uuid artist cdto w0 = (Throw INVALID_STATE, w0)).
Proof.
  intros Hrel He Ha start end_ res w'.
  assert (Hrun := updateEvent_loaded fails eid artist dto w e (Hrel _) He).
  cbn zeta in Hrun. fold start end_ in Hrun.
  rewrite bool_decide_eq_false_2 in Hrun by (intros ?; congruence).
  unfold eventRepo_save in Hrun. unfold_M. rewrite Hrel in Hrun.
  assert (Hok : (∀ t, end_ = Some t → start < t) →
     res = Ok (eid, Object_assign e dto start end_)
     ∧ events w' = <[eid := Object_assign e dto start end_]> (events w)
     ∧ rsvps w' = rsvps w).
  { intros Hord. subst res w'. rewrite Hrun.
    destruct end_ as [t|]; [|done].
    destruct (Z.leb_spec t start); [|done]. specialize (Hord t eq_refl). lia. }
  split_and!.
  - clear. intros fails' artist' w0 Hres.
    destruct (fails' (EventRepo_findOne eid)) eqn:Hf.
    { unfold updateEvent in Hres. unfold_M.
      by rewrite getEvent_rejected in Hres. }
    destruct (events w0 !! eid) as [e0|] eqn:He0.
    2:{ unfold updateEvent in Hres. unfold_M.
        by rewrite getEvent_missing in Hres. }
    rewrite (updateEvent_loaded _ _ _ _ _ e0) in Hres by done. cbn zeta in Hres.
    case_bool_decide as Hown; [done|].
    destruct (from_option Some (endTime e0) (UpdateEventDto.endTime dto))
      as [t|] eqn:Hend.
    + destruct (Z.leb_spec t (default (startTime e0) (UpdateEventDto.startTime dto))).
      * exists e0, t.
        split_and!; try done; by destruct (decide (artistId e0 = artist')).
      * unfold eventRepo_save in Hres. unfold_M. by destruct (fails' _).
    + unfold eventRepo_save in Hres. unfold_M. by destruct (fails' _).
  - subst res. rewrite Hrun. split.
    + destruct end_ as [t|]; [|done].
      destruct (Z.leb_spec t start); [|done]. intros _. by exists t.
    + intros (t & -> & Hle). by destruct (Z.leb_spec t start); [|lia].
  - exact Hok.
  - intros now s Hs Hnow Hord. subst start. rewrite Hs in *. cbn in *.
    destruct (Hok Hord) as (Hres & Hev & _).
    eexists. split; [exact Hres|]. split; [done|].
    rewrite Hev. apply lookup_insert_eq.
  - intros. by apply createEvent_past_start.
Qed.

Lemma updateEvent_checks_order_only_witness :
  events sample_world !! "event-1"
  = Some (sample_event "artist-1" (minutes 58) 3)
  ∧ ∃ e', (updateEvent reliable "event-1" "artist-1" past_start_dto
             sample_world).1 = Ok ("event-1", e')
          ∧ startTime e' = -1000
          ∧ events (updateEvent reliable "event-1" "artist-1" past_start_dto
                      sample_world).2 !! "event-1" = Some e'.
Proof.
  split; [by vm_compute|].
  destruct (updateEvent_checks_order_only reliable "event-1" "artist-1"
              past_start_dto sample_world
              (sample_event "artist-1" (minutes 58) 3))
    as (_ & _ & _ & H & _); [done|by vm_compute|done|].
  apply (H 0 (-1000)); [done|lia|done].
Defined.

(** ** The attendance ledger *)

(** The steps of [rsvp] once both lookups are answered. *)
Lemma rsvp_run fails now uuid eid uid dto w :
  fails (EventRepo_findOne eid) = false →
  fails (RsvpRepo_findOne eid uid) = false →
  rsvp fails now uuid eid uid dto w
  = let w1 := log_call (EventRepo_findOne eid) w in
    let w2 := log_call (RsvpRepo_findOne eid uid) w1 in
    match events w !! eid with
    | None => (Throw NotFoundException, w1)
    | Some e =>
        if startTime e <=? now then (Throw BadRequestException, w1) else
        match head (map_to_list (rsvps_where eid uid (rsvps w))) with
        | Some _ => (Throw ConflictException, w2)
        | None =>
            transaction
              (rsvp ← manager_save fails uuid
                        (manager_create eid uid
                           (default true (RsvpDto.reminderEnabled dto)));
               manager_update fails rsvp_count_plus_1 eid;;
               mret rsvp) w2
        end
    end.
Proof.
  intros Hf1 Hf2. unfold rsvp. unfold_M.
  destruct (events w !! eid) as [e|] eqn:He.
  - rewrite (getEvent_found _ _ _ e) by done. cbn.
    destruct (startTime e <=? now); [done|].
    unfold rsvpRepo_findOne. unfold_M. rewrite Hf2. cbn.
    destruct (head _); done.
  - rewrite getEvent_missing by done. done.
Qed.

(** The atomic unit of [rsvp]: the row and the increment, or nothing. *)
Lemma rsvp_transaction fails uuid r eid w :
  eventId r = eid →
  let tx := transaction
              (rsvp ← manager_save fails uuid r;
               manager_update fails rsvp_count_plus_1 eid;;
               mret rsvp) w in
  (∃ x, tx.1 = Throw x ∧ events tx.2 = events w ∧ rsvps tx.2 = rsvps w)
  ∨ (∃ e, tx.1 = Ok (uuid, r)
        ∧ fails (Manager_save (uuid, r)) = false
        ∧ fails (Manager_update rsvp_count_plus_1 eid) = false
        ∧ rsvps w !! uuid = None
        ∧ rsvps_where (eventId r) (userId r) (rsvps w) = ∅
        ∧ events w !! eid = Some e
        ∧ rsvps tx.2 = <[uuid := r]> (rsvps w)
        ∧ events tx.2 = <[eid := set_rsvpCount (rsvpCount e + 1) e]> (events w)).
Proof.
  intros <-. unfold manager_save, manager_update. unfold_M. cbn.
  destruct (fails (Manager_save _)) eqn:Hf1; cbn; [left; eauto|].
  destruct (rsvps w !! uuid) eqn:Hpk; cbn; [left; eauto|].
  destruct (head _) eqn:Huq; cbn; [left; eauto|].
  destruct (events w !! eventId r) as [e|] eqn:He; cbn; [|left; eauto].
  destruct (fails (Manager_update _ _)) eqn:Hf2; cbn; [left; eauto|].
  right. exists e. split_and!; try done.
  - by apply head_map_to_list_None.
  - apply map_eq. intros k. rewrite lookup_alter, lookup_insert.
    case_decide; subst; by rewrite ?He.
Qed.

Lemma rsvps_where_empty eid uid w :
  rsvps_where eid uid (rsvps w) = ∅ ↔ ¬ has_rsvp eid uid w.
Proof.
  unfold rsvps_where, has_rsvp. rewrite map_empty. split.
  - intros H (k & r & Hk & He & Hu). specialize (H k).
    apply map_lookup_filter_None in H as [H|H]; [congruence|].
    by apply (H r).
  - intros H k. apply map_lookup_filter_None. right. intros r Hk [He Hu].
    apply H. by exists k, r.
Qed.

Lemma rsvps_where_head eid uid w :
  match head (map_to_list (rsvps_where eid uid (rsvps w))) with
  | Some kr => rsvps w !! kr.1 = Some kr.2
               ∧ eventId kr.2 = eid ∧ userId kr.2 = uid
  | None => ¬ has_rsvp eid uid w
  end.
Proof.
  destruct (head _) as [kr|] eqn:H.
  - apply head_map_to_list_Some in H. unfold rsvps_where in H.
    apply map_lookup_filter_Some in H. naive_solver.
  - apply head_map_to_list_None in H. by apply rsvps_where_empty.
Qed.

(** Every outcome of [rsvp], whatever the store rejects: an exception and
    both tables as they were, or the new row and the increment. *)
Lemma rsvp_cases fails now uuid eid uid dto w :
  let out := rsvp fails now uuid eid uid dto w in
  let r := manager_create eid uid (default true (RsvpDto.reminderEnabled dto)) in
  (∃ x, out.1 = Throw x ∧ events out.2 = events w ∧ rsvps out.2 = rsvps w)
  ∨ (∃ e, out.1 = Ok (uuid, r)
        ∧ events w !! eid = Some e ∧ now < startTime e
        ∧ ¬ has_rsvp eid uid w
        ∧ rsvps w !! uuid = None
        ∧ rsvps out.2 = <[uuid := r]> (rsvps w)
        ∧ events out.2 = <[eid := set_rsvpCount (rsvpCount e + 1) e]> (events w)).
Proof.
  intros out r. subst out.
  destruct (fails (EventRepo_findOne eid)) eqn:Hf1.
  { left. unfold rsvp. unfold_M. rewrite getEvent_rejected by done. eauto. }
  destruct (fails (RsvpRepo_findOne eid uid)) eqn:Hf2.
  { left. unfold rsvp. unfold_M.
    destruct (events w !! eid) as [e|] eqn:He.
    - rewrite (getEvent_found _ _ _ e) by done. cbn.
      destruct (startTime e <=? now); [eauto|].
      unfold rsvpRepo_findOne. unfold_M. rewrite Hf2. eauto.
    - rewrite getEvent_missing by done. eauto. }
  rewrite rsvp_run by done. cbn zeta.
  destruct (events w !! eid) as [e|] eqn:He; [|left; eauto].
  destruct (Z.leb_spec (startTime e) now); [left; eauto|].
  pose proof (rsvps_where_head eid uid w) as Hhd.
  destruct (head _); [left; eauto|].
  fold r.
  destruct (rsvp_transaction fails uuid r eid
              (log_call (RsvpRepo_findOne eid uid)
                 (log_call (EventRepo_findOne eid) w)) eq_refl)
    as [(x & Hx & Hev & Hrs)|(e' & Hok & _ & _ & Hpk & _ & He' & Hrs & Hev)].
  - left. exists x. done.
  - right. exists e. cbn in He'. assert (e' = e) as -> by congruence.
    split_and!; done.
Qed.

(** C2: the preconditions of [rsvp], checked in this order when the two
    lookups are answered.  No event with that id: NOT_FOUND.  The event
    exists and starts at or before [now], the clock of the call:
    INVALID_STATE.  Both hold and the user already has an RSVP row for the
    event: ALREADY_EXISTS.  With such a row the call never succeeds, and a
    call that succeeds met all three preconditions. *)
Theorem rsvp_preconditions fails now uuid eid uid dto w :
  fails (EventRepo_findOne eid) = false →
  fails (RsvpRepo_findOne eid uid) = false →
  let res := (rsvp fails now uuid eid uid dto w).1 in
  (events w !! eid = None → res = Throw NOT_FOUND)
  ∧ (∀ e, events w !! eid = Some e → startTime e ≤ now →
       res = Throw INVALID_STATE)
  ∧ (∀ e, events w !! eid = Some e → now < startTime e →
       has_rsvp eid uid w → res = Throw ALREADY_EXISTS)
  ∧ (has_rsvp eid uid w → ∃ x, res = Throw x)
  ∧ (∀ r, res = Ok r →
       ∃ e, events w !! eid = Some e ∧ now < startTime e
            ∧ ¬ has_rsvp eid uid w).
Proof.
  intros Hf1 Hf2 res.
  assert (Hrun := rsvp_run fails now uuid eid uid dto w Hf1 Hf2).
  cbn zeta in Hrun.
  pose proof (rsvps_where_head eid uid w) as Hhd.
  split_and!.
  - intros He. subst res. by rewrite Hrun, He.
  - intros e He Hs. subst res. rewrite Hrun, He.
    by destruct (Z.leb_spec (startTime e) now); [|lia].
  - intros e He Hs Hex. subst res. rewrite Hrun, He.
    destruct (Z.leb_spec (startTime e) now); [lia|].
    by destruct (head _).
  - intros Hex. subst res.
    destruct (rsvp_cases fails now uuid eid uid dto w)
      as [(x & Hx & _)|(e & _ & _ & _ & Hno & _)]; [eauto|done].
  - intros r Hr. subst res.
    destruct (rsvp_cases fails now uuid eid uid dto w)
      as [(x & Hx & _)|(e & _ & He & Hs & Hno & _)]; [congruence|eauto].
Qed.

Lemma rsvp_preconditions_witness :
  (rsvp reliable 0 "rsvp-4" "event-0" "user-1" default_RsvpDto sample_world).1
  = Throw NOT_FOUND
  ∧ (rsvp reliable (minutes 58) "rsvp-4" "event-1" "user-4" default_RsvpDto
       sample_world).1 = Throw INVALID_STATE
  ∧ (rsvp reliable 0 "rsvp-4" "event-1" "user-1" default_RsvpDto
       sample_world).1 = Throw ALREADY_EXISTS.
Proof.
  split_and!.
  - destruct (rsvp_preconditions reliable 0 "rsvp-4" "event-0" "user-1"
                default_RsvpDto sample_world eq_refl eq_refl) as (H & _).
    by apply H.
  - destruct (rsvp_preconditions reliable (minutes 58) "rsvp-4" "event-1"
                "user-4" default_RsvpDto sample_world eq_refl eq_refl)
      as (_ & H & _).
    apply (H (sample_event "artist-1" (minutes 58) 3)); [done|by vm_compute].
  - destruct (rsvp_preconditions reliable 0 "rsvp-4" "event-1" "user-1"
                default_RsvpDto sample_world eq_refl eq_refl)
      as (_ & _ & H & _).
    apply (H (sample_event "artist-1" (minutes 58) 3)); [done|done|].
    exists "rsvp-1", (sample_rsvp "event-1" "user-1" true false). done.
Defined.

(** C3: [rsvp] succeeds exactly when the event is stored and starts after
    [now], the user has no RSVP row for it, and the two lookups, the insert
    of the row under a key not in use and the increment are all accepted.
    A successful [rsvp] changes the tables by exactly one new row, for this
    event and user, with [reminderEnabled] the flag of the DTO or [true]
    without one and [reminderSent = false], under a key not in use before,
    and by the counter of the event raised by one; a call that throws,
    before or inside the transaction, leaves both tables as they were. *)
Theorem rsvp_atomic_effect fails now uuid eid uid dto w :
  let out := rsvp fails now uuid eid uid dto w in
  let enabled := default true (RsvpDto.reminderEnabled dto) in
  ((∃ r, out.1 = Ok r) ↔
     (∃ e, events w !! eid = Some e ∧ now < startTime e)
     ∧ ¬ has_rsvp eid uid w
     ∧ rsvps w !! uuid = None
     ∧ fails (EventRepo_findOne eid) = false
     ∧ fails (RsvpRepo_findOne eid uid) = false
     ∧ fails (Manager_save (uuid, manager_create eid uid enabled)) = false
     ∧ fails (Manager_update rsvp_count_plus_1 eid) = false)
  ∧ match out.1 with
    | Ok r =>
        eventId r.2 = eid ∧ userId r.2 = uid
        ∧ reminderEnabled r.2 = enabled
        ∧ reminderSent r.2 = false
        ∧ rsvps w !! r.1 = None
        ∧ rsvps out.2 = <[r.1 := r.2]> (rsvps w)
        ∧ ∃ e, events w !! eid = Some e
               ∧ rsvpCount <$> events out.2 !! eid = Some (rsvpCount e + 1)
               ∧ events out.2
                 = <[eid := set_rsvpCount (rsvpCount e + 1) e]> (events w)
    | Throw _ => rsvps out.2 = rsvps w ∧ events out.2 = events w
    end.
Proof.
  intros out enabled. split.
  - subst out. split.
    + intros [r Hr].
      destruct (fails (EventRepo_findOne eid)) eqn:Hf1.
      { unfold rsvp in Hr. revert Hr. unfold_M.
        by rewrite getEvent_rejected. }
      destruct (fails (RsvpRepo_findOne eid uid)) eqn:Hf2.
      { unfold rsvp in Hr. revert Hr. unfold_M.
        destruct (events w !! eid) as [e|] eqn:He.
        - rewrite (getEvent_found _ _ _ e) by done. cbn.
          destruct (startTime e <=? now); [done|].
          unfold rsvpRepo_findOne. unfold_M. by rewrite Hf2.
        - by rewrite getEvent_missing. }
      rewrite rsvp_run in Hr by done. cbn zeta in Hr.
      destruct (events w !! eid) as [e|] eqn:He; [|done].
      destruct (Z.leb_spec (startTime e) now); [done|].
      pose proof (rsvps_where_head eid uid w) as Hhd.
      destruct (head _); [done|].
      destruct (rsvp_transaction fails uuid (manager_create eid uid enabled) eid
                  (log_call (RsvpRepo_findOne eid uid)
                     (log_call (EventRepo_findOne eid) w)) eq_refl)
        as [(x & Hx & _)|(e' & _ & Hs & Hu & Hpk & _)].
      { subst enabled. cbn zeta in Hx. congruence. }
      split_and!; eauto.
    + intros ((e & He & Hst) & Hno & Hpk & Hf1 & Hf2 & Hs & Hu).
      rewrite rsvp_run by done. cbn zeta. rewrite He.
      destruct (Z.leb_spec (startTime e) now); [lia|].
      pose proof (rsvps_where_head eid uid w) as Hhd.
      destruct (head _) as [kr|] eqn:Hh.
      { destruct Hno. exists kr.1, kr.2. done. }
      fold enabled. unfold manager_save, manager_update. unfold_M. cbn.
      rewrite Hs. cbn. rewrite Hpk. cbn.
      replace (userId (manager_create eid uid enabled)) with uid by done.
      replace (eventId (manager_create eid uid enabled)) with eid by done.
      rewrite Hh. cbn. rewrite He. cbn. rewrite Hu. cbn. eauto.
  - subst out enabled.
    destruct (rsvp_cases fails now uuid eid uid dto w)
      as [(x & -> & Hev & Hrs)|(e & -> & He & _ & _ & Hpk & Hrs & Hev)].
    + done.
    + cbn. split_and!; try done. exists e. split_and!; try done.
      by rewrite Hev, lookup_insert_eq.
Qed.

Lemma rsvp_atomic_effect_witness :
  let out := rsvp reliable 0 "rsvp-4" "event-1" "user-4" default_RsvpDto
               sample_world in
  (∃ r, out.1 = Ok r
        ∧ r.2 = sample_rsvp "event-1" "user-4" true false
        ∧ rsvps out.2 = <[r.1 := r.2]> (rsvps sample_world))
  ∧ rsvpCount <$> events sample_world !! "event-1" = Some 3
  ∧ rsvpCount <$> events out.2 !! "event-1" = Some 4.
Proof.
  intros out.
  destruct (rsvp_atomic_effect reliable 0 "rsvp-4" "event-1" "user-4"
              default_RsvpDto sample_world) as [[_ Hok] Heff].
  fold out in Hok, Heff.
  destruct Hok as [r Hr].
  { split; [exists (sample_event "artist-1" (minutes 58) 3);
            split; [reflexivity|by vm_compute]|].
    split.
    { pose proof (rsvps_where_head "event-1" "user-4" sample_world) as Hhd.
      destruct (head _) eqn:Hh; [by vm_compute in Hh|exact Hhd]. }
    split; [reflexivity|]. split; [reflexivity|]. split; [reflexivity|].
    split; reflexivity. }
  rewrite Hr in Heff.
  destruct Heff as (He & Hu & Hen & Hse & _ & Hrs & e & Hev & Hcnt & _).
  split.
  - exists r. split; [exact Hr|]. split; [|exact Hrs].
    clear Hrs Hr. destruct r as [k [eid' uid' en se]].
    cbn in He, Hu, Hen, Hse. cbn. unfold sample_rsvp. congruence.
  - assert (Hsome : events sample_world !! "event-1"
                    = Some (sample_event "artist-1" (minutes 58) 3))
      by reflexivity.
    rewrite Hsome in Hev. injection Hev as <-.
    split; [reflexivity|exact Hcnt].
Defined.

(** The row is inserted, the increment is rejected, and the transaction
    takes the row back. *)
Example rsvp_rolled_back :
  let out := rsvp rejects_update 0 "rsvp-4" "event-1" "user-4" default_RsvpDto
               sample_world in
  out.1 = Throw TRANSIENT_STORE_FAILURE
  ∧ rsvps out.2 = rsvps sample_world ∧ events out.2 = events sample_world
  ∧ trace out.2
    = [EventRepo_findOne "event-1"; RsvpRepo_findOne "event-1" "user-4";
       Manager_save ("rsvp-4", sample_rsvp "event-1" "user-4" true false);
       Manager_update rsvp_count_plus_1 "event-1"].
Proof.
  intros out.
  assert (Hres : out.1 = Throw QueryFailedError) by (by vm_compute).
  split; [done|].
  destruct (rsvp_cases rejects_update 0 "rsvp-4" "event-1" "user-4"
              default_RsvpDto sample_world)
    as [(x & _ & Hev & Hrs)|(e & Hok & _)].
  - split_and!; [done..|]. by vm_compute.
  - fold out in Hok. congruence.
Qed.

Example rsvp_succeeds :
  let out := rsvp reliable 0 "rsvp-4" "event-1" "user-4" default_RsvpDto
               sample_world in
  out.1 = Ok ("rsvp-4", sample_rsvp "event-1" "user-4" true false)
  ∧ rsvps out.2 !! "rsvp-4" = Some (sample_rsvp "event-1" "user-4" true false)
  ∧ size (rsvps out.2) = 4%nat
  ∧ events out.2 !! "event-1" = Some (sample_event "artist-1" (minutes 58) 4).
Proof. by vm_compute. Qed.

(** The atomic unit of [unRsvp]: the delete and the clamped decrement, or
    nothing. *)
Lemma unRsvp_transaction fails r eid w :
  let tx := transaction
              (manager_remove fails r;;
               manager_update fails GREATEST_rsvp_count_minus_1_0 eid) w in
  if fails (Manager_remove r)
     || fails (Manager_update GREATEST_rsvp_count_minus_1_0 eid)
  then tx.1 = Throw QueryFailedError
       ∧ rsvps tx.2 = rsvps w ∧ events tx.2 = events w
  else tx.1 = Ok ()
       ∧ rsvps tx.2 = delete r.1 (rsvps w)
       ∧ events tx.2
         = alter (λ e, set_rsvpCount (Z.max (rsvpCount e - 1) 0) e) eid
             (events w).
Proof.
  unfold manager_remove, manager_update. unfold_M. cbn.
  destruct (fails (Manager_remove r)); cbn; [done|].
  destruct (fails (Manager_update _ _)); cbn; done.
Qed.

Lemma unRsvp_run fails eid uid w :
  fails (RsvpRepo_findOne eid uid) = false →
  unRsvp fails eid uid w
  = let w1 := log_call (RsvpRepo_findOne eid uid) w in
    match head (map_to_list (rsvps_where eid uid (rsvps w))) with
    | None => (Throw NotFoundException, w1)
    | Some r =>
        transaction
          (manager_remove fails r;;
           manager_update fails GREATEST_rsvp_count_minus_1_0 eid) w1
    end.
Proof.
  intros Hf. unfold unRsvp, rsvpRepo_findOne. unfold_M. rewrite Hf. cbn.
  by destruct (head _).
Qed.

(** Every outcome of [unRsvp], whatever the store rejects. *)
Lemma unRsvp_cases fails eid uid w :
  let out := unRsvp fails eid uid w in
  (∃ x, out.1 = Throw x ∧ events out.2 = events w ∧ rsvps out.2 = rsvps w)
  ∨ (∃ k r, out.1 = Ok ()
        ∧ rsvps w !! k = Some r ∧ eventId r = eid ∧ userId r = uid
        ∧ rsvps out.2 = delete k (rsvps w)
        ∧ events out.2
          = alter (λ e, set_rsvpCount (Z.max (rsvpCount e - 1) 0) e) eid
              (events w)).
Proof.
  intros out. subst out.
  destruct (fails (RsvpRepo_findOne eid uid)) eqn:Hf.
  { left. unfold unRsvp, rsvpRepo_findOne. unfold_M. rewrite Hf. eauto. }
  rewrite unRsvp_run by done. cbn zeta.
  pose proof (rsvps_where_head eid uid w) as Hhd.
  destruct (head _) as [[k r]|]; [|left; eauto].
  destruct Hhd as (Hk & He & Hu).
  pose proof (unRsvp_transaction fails (k, r) eid
                (log_call (RsvpRepo_findOne eid uid) w)) as Htx.
  cbn zeta in Htx.
  destruct (fails (Manager_remove (k, r)) || fails (Manager_update _ eid)).
  - left. exists QueryFailedError. by destruct Htx as (? & ? & ?).
  - right. exists k, r. by destruct Htx as (? & ? & ?).
Qed.

(** C4: when the lookup is answered, [unRsvp] answers NOT_FOUND exactly
    when the user has no RSVP row for the event.  Otherwise it takes one
    such row and, in one transaction, deletes it and lowers the counter of
    the event by one, never below zero (a counter at zero stays at zero);
    when the store rejects the delete or the update, neither is applied. *)
Theorem unRsvp_spec fails eid uid w :
  fails (RsvpRepo_findOne eid uid) = false →
  let out := unRsvp fails eid uid w in
  (out.1 = Throw NOT_FOUND ↔ ¬ has_rsvp eid uid w)
  ∧ (has_rsvp eid uid w →
     ∃ k r, rsvps w !! k = Some r ∧ eventId r = eid ∧ userId r = uid ∧
       if fails (Manager_remove (k, r))
          || fails (Manager_update GREATEST_rsvp_count_minus_1_0 eid)
       then out.1 = Throw TRANSIENT_STORE_FAILURE
            ∧ rsvps out.2 = rsvps w ∧ events out.2 = events w
       else out.1 = Ok ()
            ∧ rsvps out.2 = delete k (rsvps w)
            ∧ events out.2
              = alter (λ e, set_rsvpCount (Z.max (rsvpCount e - 1) 0) e) eid
                  (events w)
            ∧ (∀ e, events w !! eid = Some e →
                 ∃ e', events out.2 !! eid = Some e'
                   ∧ rsvpCount e' = Z.max (rsvpCount e - 1) 0
                   ∧ 0 ≤ rsvpCount e'
                   ∧ (rsvpCount e = 0 → rsvpCount e' = 0))).
Proof.
  intros Hf out. subst out. rewrite unRsvp_run by done. cbn zeta.
  pose proof (rsvps_where_head eid uid w) as Hhd.
  destruct (head _) as [[k r]|].
  - destruct Hhd as (Hk & He & Hu).
    assert (Hex : has_rsvp eid uid w) by (by exists k, r).
    pose proof (unRsvp_transaction fails (k, r) eid
                  (log_call (RsvpRepo_findOne eid uid) w)) as Htx.
    cbn zeta in Htx. split.
    + split; [|done]. intros Hnf.
      destruct (fails (Manager_remove (k, r)) || fails (Manager_update _ eid));
        destruct Htx as (Hres & _); rewrite Hres in Hnf; discriminate.
    + intros _. exists k, r. split_and!; try done.
      destruct (fails (Manager_remove (k, r)) || fails (Manager_update _ eid));
        [done|].
      destruct Htx as (Hres & Hrs & Hev).
      split_and!; try done. intros e Hev0. rewrite Hev, lookup_alter_eq.
      cbn [log_call events]. rewrite Hev0. cbn. eexists. split; [done|]. cbn. lia.
  - split; [done|]. intros Hex. done.
Qed.

Lemma unRsvp_spec_witness :
  (unRsvp reliable "event-1" "user-9" sample_world).1 = Throw NOT_FOUND
  ∧ ∃ k r, rsvps sample_world !! k = Some r
      ∧ eventId r = "event-1" ∧ userId r = "user-3"
      ∧ (unRsvp reliable "event-1" "user-3" sample_world).1 = Ok ()
      ∧ rsvps (unRsvp reliable "event-1" "user-3" sample_world).2
        = delete k (rsvps sample_world).
Proof.
  split.
  - destruct (unRsvp_spec reliable "event-1" "user-9" sample_world eq_refl)
      as (H & _).
    apply H. rewrite <- rsvps_where_empty, <- head_map_to_list_None.
    by vm_compute.
  - destruct (unRsvp_spec reliable "event-1" "user-3" sample_world eq_refl)
      as (_ & H).
    destruct H as (k & r & Hk & He & Hu & Hres & Hrs & _).
    { exists "rsvp-3", (sample_rsvp "event-1" "user-3" false false).
      split_and!; reflexivity. }
    exists k, r. exact (conj Hk (conj He (conj Hu (conj Hres Hrs)))).
Defined.

(** The decrement of the sample: three attendees, the third leaves. *)
Example unRsvp_sample :
  let out := unRsvp reliable "event-1" "user-3" sample_world in
  out.1 = Ok ()
  ∧ rsvps out.2 !! "rsvp-3" = None
  ∧ size (rsvps out.2) = 2%nat
  ∧ events out.2 !! "event-1" = Some (sample_event "artist-1" (minutes 58) 2).
Proof. by vm_compute. Qed.

(** ** The counter invariant *)

Lemma rsvps_of_insert eid k r (t : gmap string EventRSVP) :
  t !! k = None →
  size (rsvps_of eid (<[k := r]> t))
  = if decide (eventId r = eid) then S (size (rsvps_of eid t))
    else size (rsvps_of eid t).
Proof.
  intros Hk. unfold rsvps_of. case_decide as He.
  - rewrite map_filter_insert_True by done.
    apply map_size_insert_None, map_lookup_filter_None. by left.
  - rewrite map_filter_insert_not' by (done || congruence). done.
Qed.

Lemma rsvps_of_delete eid k r (t : gmap string EventRSVP) :
  t !! k = Some r →
  size (rsvps_of eid (delete k t))
  = if decide (eventId r = eid) then pred (size (rsvps_of eid t))
    else size (rsvps_of eid t).
Proof.
  intros Hk. unfold rsvps_of. rewrite map_filter_delete. case_decide as He.
  - apply map_size_delete_Some. exists r. by apply map_lookup_filter_Some.
  - apply map_size_delete_None, map_lookup_filter_None. right.
    intros r' Hr'. cbn. congruence.
Qed.

Lemma rsvps_of_positive eid k r (t : gmap string EventRSVP) :
  t !! k = Some r → eventId r = eid → (0 < size (rsvps_of eid t))%nat.
Proof.
  intros Hk He.
  assert (size (rsvps_of eid t) ≠ 0%nat); [|lia].
  apply (map_size_ne_0_lookup_2 _ k). exists r.
  by apply map_lookup_filter_Some.
Qed.

Lemma rsvp_counter_ok fails now uuid eid' uid dto eid w :
  counter_ok eid w → counter_ok eid (rsvp fails now uuid eid' uid dto w).2.
Proof.
  intros (e & He & Hc). unfold counter_ok, attendees in *.
  destruct (rsvp_cases fails now uuid eid' uid dto w)
    as [(x & _ & -> & ->)|(e' & _ & He' & _ & _ & Hpk & -> & ->)]; [eauto|].
  rewrite rsvps_of_insert by done. cbn [eventId manager_create].
  rewrite lookup_insert. case_decide as Heq.
  - subst eid'. assert (e' = e) as -> by congruence.
    eexists. split; [done|]. cbn. lia.
  - exists e. done.
Qed.

Lemma unRsvp_counter_ok fails eid' uid eid w :
  counter_ok eid w → counter_ok eid (unRsvp fails eid' uid w).2.
Proof.
  intros (e & He & Hc). unfold counter_ok, attendees in *.
  destruct (unRsvp_cases fails eid' uid w)
    as [(x & _ & -> & ->)|(k & r & _ & Hk & Hr & _ & -> & ->)]; [eauto|].
  rewrite (rsvps_of_delete _ _ r) by done. rewrite lookup_alter.
  rewrite Hr. case_decide as Heq.
  - rewrite Heq, He. cbn. eexists. split; [done|]. cbn.
    assert (Hr' : eventId r = eid) by congruence.
    pose proof (rsvps_of_positive eid k r (rsvps w) Hk Hr'). lia.
  - exists e. done.
Qed.

Lemma run_calls_counter_ok cs eid w :
  counter_ok eid w → counter_ok eid (run_calls cs w).
Proof.
  unfold run_calls. revert w.
  induction cs as [|c cs IH]; intros w Hw; [done|].
  cbn. apply IH. destruct c; cbn.
  - by apply rsvp_counter_ok.
  - by apply unRsvp_counter_ok.
Qed.

(** C1: take an event whose [rsvpCount] is the number of RSVP rows that
    reference it.  After any sequence of [rsvp] and [unRsvp] calls, for any
    events and users and whatever the store rejects on the way, the event
    is still there, its [rsvpCount] is again the number of RSVP rows that
    reference it, and it is not negative. *)
Theorem rsvpCount_tracks_rsvps cs eid e w :
  events w !! eid = Some e →
  rsvpCount e = attendees eid w →
  ∃ e', events (run_calls cs w) !! eid = Some e'
        ∧ rsvpCount e' = attendees eid (run_calls cs w)
        ∧ 0 ≤ rsvpCount e'.
Proof.
  intros He Hc.
  destruct (run_calls_counter_ok cs eid w) as (e' & He' & Hc').
  { by exists e. }
  exists e'. split_and!; [done..|]. rewrite Hc'. unfold attendees. lia.
Qed.

Lemma rsvpCount_tracks_rsvps_witness :
  events sample_world !! "event-1" = Some (sample_event "artist-1" (minutes 58) 3)
  ∧ attendees "event-1" sample_world = 3
  ∧ ∃ e', events (run_calls sample_calls sample_world) !! "event-1" = Some e'
          ∧ rsvpCount e'
            = attendees "event-1" (run_calls sample_calls sample_world)
          ∧ 0 ≤ rsvpCount e'.
Proof.
  split; [by vm_compute|]. split; [by vm_compute|].
  apply (rsvpCount_tracks_rsvps sample_calls "event-1"
           (sample_event "artist-1" (minutes 58) 3) sample_world);
    by vm_compute.
Defined.

Example run_calls_sample :
  rsvpCount <$> events (run_calls sample_calls sample_world) !! "event-1"
  = Some 2
  ∧ attendees "event-1" (run_calls sample_calls sample_world) = 2.
Proof. by vm_compute. Qed.

(** ** The reminder sweep *)

Lemma elem_of_pending eid w k r :
  (k, r) ∈ pending eid w ↔
  rsvps w !! k = Some r ∧ eventId r = eid
  ∧ reminderEnabled r = true ∧ reminderSent r = false.
Proof.
  unfold pending, rsvps_pending.
  rewrite elem_of_map_to_list, map_lookup_filter_Some. cbn. tauto.
Qed.

Lemma elem_of_rsvpIds_of eid w k :
  k ∈ rsvpIds_of (pending eid w) ↔
  ∃ r, rsvps w !! k = Some r ∧ eventId r = eid
       ∧ reminderEnabled r = true ∧ reminderSent r = false.
Proof.
  unfold rsvpIds_of. rewrite list_elem_of_fmap. split.
  - intros ([k' r] & -> & Hin). exists r. by apply elem_of_pending.
  - intros (r & H). exists (k, r). split; [done|]. by apply elem_of_pending.
Qed.

Lemma lookup_mark_sent ids (t : gmap string EventRSVP) k :
  mark_sent ids t !! k
  = (λ r, if bool_decide (k ∈ ids) then set_reminderSent true r else r)
    <$> t !! k.
Proof. unfold mark_sent. rewrite map_lookup_imap. by destruct (t !! k). Qed.

(** Marking the rows of one event leaves the pending rows of another event
    as they are. *)
Lemma pending_mark_sent_other eid eid' w :
  eid' ≠ eid →
  rsvps_pending eid' (mark_sent (rsvpIds_of (pending eid w)) (rsvps w))
  = rsvps_pending eid' (rsvps w).
Proof.
  intros Hne. unfold rsvps_pending. apply map_filter_strong_ext_1.
  intros k r. rewrite lookup_mark_sent. cbn. split.
  - intros (HP & Hk). destruct (rsvps w !! k) as [r0|] eqn:Hr0; [|done].
    cbn in Hk. case_bool_decide as Hin.
    + apply elem_of_rsvpIds_of in Hin as (r1 & Hr1 & He1 & _).
      assert (r1 = r0) as -> by congruence.
      injection Hk as <-. cbn in HP. destruct HP as (HP & _). congruence.
    + by injection Hk as <-.
  - intros (HP & Hk). rewrite Hk. cbn. case_bool_decide as Hin.
    + apply elem_of_rsvpIds_of in Hin as (r1 & Hr1 & He1 & _).
      assert (r1 = r) as -> by congruence. destruct HP as (HP & _). congruence.
    + done.
Qed.

Lemma remindEvent_run fails event totalSent w :
  let rows := pending event.1 w in
  let out := remindEvent fails event totalSent w in
  out.1 = Ok (if reminded fails event rows
              then totalSent + Z.of_nat (length (userIds_of rows))
              else totalSent)
  ∧ events out.2 = events w
  ∧ rsvps out.2 = (if reminded fails event rows
                   then mark_sent (rsvpIds_of rows) (rsvps w) else rsvps w)
  ∧ trace out.2 = trace w ++ reminder_calls fails event rows.
Proof.
  intros rows out. subst out.
  unfold remindEvent, getRsvpsForReminder, rsvpRepo_find,
    notificationsService_sendEventReminders, markReminderSent, rsvpRepo_update,
    reminded, reminder_calls.
  unfold_M. cbn. fold (pending event.1 w). fold rows.
  destruct (fails (RsvpRepo_find event.1)); cbn; [done|].
  fold (userIds_of rows). fold (rsvpIds_of rows).
  destruct rows as [|row rows']; cbn; [done|].
  destruct (fails (Notifications_sendEventReminders _ _)); cbn;
    [by rewrite <- app_assoc|].
  destruct (fails (RsvpRepo_update _)); cbn; by rewrite <- !app_assoc.
Qed.

Lemma remindEvents_run fails evs : ∀ totalSent w,
  NoDup evs.*1 →
  let out := remindEvents fails evs totalSent w in
  (∃ n, out.1 = Ok n)
  ∧ events out.2 = events w
  ∧ (∀ k, rsvps out.2 !! k
          = (λ r, if marked fails evs w k then set_reminderSent true r else r)
            <$> rsvps w !! k)
  ∧ trace out.2
    = trace w ++ mjoin ((λ ev, reminder_calls fails ev (pending ev.1 w)) <$> evs).
Proof.
  induction evs as [|ev evs IH]; intros totalSent w Hnd out; subst out.
  { cbn. split_and!; eauto.
    - intros k. by destruct (rsvps w !! k).
    - by rewrite app_nil_r. }
  cbn in Hnd. apply NoDup_cons in Hnd as [Hnotin Hnd].
  destruct (remindEvent_run fails ev totalSent w) as (Hres & Hev & Hrs & Htr).
  cbn [remindEvents]. unfold mbind, M_bind, bind.
  destruct (remindEvent fails ev totalSent w) as [res w1] eqn:Hrun.
  cbn in Hres, Hev, Hrs, Htr. subst res.
  destruct (IH (if reminded fails ev (pending ev.1 w)
                then totalSent + Z.of_nat (length (userIds_of (pending ev.1 w)))
                else totalSent) w1 Hnd)
    as (Hres' & Hev' & Hrs' & Htr').
  (* the pending rows of the later events are those of the start *)
  assert (Hsame : ∀ ev', ev' ∈ evs → pending ev'.1 w1 = pending ev'.1 w).
  { intros ev' Hin. unfold pending. rewrite Hrs.
    destruct (reminded fails ev (pending ev.1 w)); [|done].
    rewrite pending_mark_sent_other; [done|].
    intros Heq. apply Hnotin. rewrite <- Heq. by apply list_elem_of_fmap_2. }
  split_and!.
  - done.
  - congruence.
  - intros k. rewrite Hrs'. cbn [marked existsb].
    assert (marked fails evs w1 k = marked fails evs w k) as ->.
    { unfold marked. clear -Hsame. induction evs as [|ev' evs IH]; [done|].
      cbn [existsb]. rewrite Hsame by left. f_equal. apply IH.
      intros ev'' Hin. apply Hsame. by right. }
    rewrite Hrs. destruct (reminded fails ev (pending ev.1 w)); cbn.
    + rewrite lookup_mark_sent. destruct (rsvps w !! k) as [r|]; [|done]. cbn.
      destruct (bool_decide _); cbn; [|done].
      by destruct (marked fails evs w k).
    + done.
  - rewrite Htr', Htr, fmap_cons. cbn [mjoin list_join].
    rewrite <- app_assoc. do 3 f_equal.
    apply Forall_fmap_ext_1, Forall_forall. intros ev' Hin.
    by rewrite Hsame.
Qed.

Lemma elem_of_candidates now w id e :
  (id, e) ∈ candidates now w ↔
  events w !! id = Some e
  ∧ now + 55 * 60 * 1000 < startTime e ≤ now + 60 * 60 * 1000.
Proof.
  unfold candidates. by rewrite elem_of_map_to_list, map_lookup_filter_Some.
Qed.

Lemma candidates_same_id now w ev ev' :
  ev ∈ candidates now w → ev' ∈ candidates now w → ev.1 = ev'.1 → ev = ev'.
Proof.
  destruct ev as [k e], ev' as [k' e']. cbn.
  rewrite !elem_of_candidates. intros [H _] [H' _] <-. congruence.
Qed.

Lemma filter_join_nil {A B} (P : B → Prop) `{!∀ x, Decision (P x)}
    (f : A → list B) (l : list A) :
  (∀ y, y ∈ l → filter P (f y) = []) → filter P (mjoin (f <$> l)) = [].
Proof.
  induction l as [|a l IH]; intros Hall; [done|].
  rewrite fmap_cons.
  change (mjoin (f a :: (f <$> l))) with (f a ++ mjoin (f <$> l)).
  rewrite filter_app.
  rewrite (Hall a) by left. rewrite IH; [done|].
  intros y Hy. apply Hall. by right.
Qed.

Lemma filter_join_single {A B} (P : B → Prop) `{!∀ x, Decision (P x)}
    (f : A → list B) (l : list A) (x : A) :
  NoDup l → x ∈ l →
  (∀ y, y ∈ l → y ≠ x → filter P (f y) = []) →
  filter P (mjoin (f <$> l)) = filter P (f x).
Proof.
  induction l as [|a l IH]; intros Hnd Hin Hothers.
  { by apply elem_of_nil in Hin. }
  apply NoDup_cons in Hnd as [Ha Hnd].
  rewrite fmap_cons.
  change (mjoin (f a :: (f <$> l))) with (f a ++ mjoin (f <$> l)).
  rewrite filter_app.
  apply elem_of_cons in Hin as [Hx|Hin].
  - subst a. rewrite filter_join_nil; [by rewrite app_nil_r|].
    intros y Hy. apply Hothers; [by right|]. intros ->. done.
  - rewrite (Hothers a); [|by left|by intros ->].
    rewrite IH; [done..|]. intros y Hy. apply Hothers. by right.
Qed.

Lemma filter_dispatches_for fails id ev rows :
  filter (dispatches_for id) (reminder_calls fails ev rows)
  = if decide (ev.1 = id)
    then if fails (RsvpRepo_find ev.1) || (length rows =? 0)%nat then []
         else [Notifications_sendEventReminders (userIds_of rows) ev]
    else [].
Proof.
  unfold reminder_calls. rewrite filter_cons_False by (cbn; tauto).
  destruct (_ || _); [by case_decide|].
  case_decide as Hid.
  - rewrite filter_cons_True by done.
    destruct (fails (Notifications_sendEventReminders _ _)); [done|].
    by rewrite filter_cons_False by (cbn; tauto).
  - rewrite filter_cons_False by done.
    destruct (fails (Notifications_sendEventReminders _ _)); [done|].
    by rewrite filter_cons_False by (cbn; tauto).
Qed.

Lemma filter_updates_row fails k ev rows :
  filter (updates_row k) (reminder_calls fails ev rows)
  = if decide (k ∈ rsvpIds_of rows)
    then if fails (RsvpRepo_find ev.1) || (length rows =? 0)%nat
            || fails (Notifications_sendEventReminders (userIds_of rows) ev)
         then [] else [RsvpRepo_update (rsvpIds_of rows)]
    else [].
Proof.
  unfold reminder_calls. rewrite filter_cons_False by (cbn; tauto).
  destruct (_ || _); cbn [orb]; [by case_decide|].
  rewrite filter_cons_False by (cbn; tauto).
  destruct (fails (Notifications_sendEventReminders _ _)); [by case_decide|].
  case_decide as Hk.
  - by rewrite filter_cons_True by done.
  - by rewrite filter_cons_False by done.
Qed.

Lemma marked_true fails evs w k :
  marked fails evs w k = true ↔
  ∃ ev, ev ∈ evs ∧ reminded fails ev (pending ev.1 w) = true
        ∧ k ∈ rsvpIds_of (pending ev.1 w).
Proof.
  unfold marked. rewrite existsb_exists. split.
  - intros (ev & Hin & H). apply andb_true_iff in H as [Hr Hk].
    exists ev. rewrite list_elem_of_In. by apply bool_decide_eq_true in Hk.
  - intros (ev & Hin & Hr & Hk). exists ev. rewrite <- list_elem_of_In.
    split; [done|]. apply andb_true_iff. split; [done|].
    by apply bool_decide_eq_true.
Qed.

(** The whole sweep, when the selection query is answered. *)
Lemma sendEventReminders_run fails now w :
  fails (EventRepo_getMany (now + 55 * 60 * 1000) (now + 60 * 60 * 1000))
  = false →
  let evs := candidates now w in
  let out := sendEventReminders fails now w in
  out.1 = Ok ()
  ∧ events out.2 = events w
  ∧ (∀ k, rsvps out.2 !! k
          = (λ r, if marked fails evs w k then set_reminderSent true r else r)
            <$> rsvps w !! k)
  ∧ trace out.2
    = trace w ++
      EventRepo_getMany (now + 55 * 60 * 1000) (now + 60 * 60 * 1000)
      :: mjoin ((λ ev, reminder_calls fails ev (pending ev.1 w)) <$> evs).
Proof.
  intros Hf evs out. subst out.
  unfold sendEventReminders. unfold mbind, M_bind, bind.
  rewrite getEventsStartingSoon_run. cbn zeta. rewrite Hf.
  fold (candidates now w). fold evs.
  destruct evs as [|ev evs'] eqn:Hevs.
  { cbn. split_and!; try done. intros k. by destruct (rsvps w !! k). }
  cbn [length Nat.eqb].
  pose proof (remindEvents_run fails (ev :: evs') 0
                (log_call (EventRepo_getMany (now + 55 * 60 * 1000)
                             (now + 60 * 60 * 1000)) w)) as Hrun.
  cbn zeta in Hrun. destruct Hrun as ((n & Hres) & Hev & Hrs & Htr).
  { rewrite <- Hevs. apply NoDup_fst_map_to_list. }
  destruct (remindEvents fails (ev :: evs') 0 _) as [res w'].
  cbn [fst snd] in Hres, Hev, Hrs, Htr. subst res.
  cbn [fst snd mret M_ret ret].
  split_and!; try done.
  rewrite Htr. cbn [trace log_call]. by rewrite <- app_assoc.
Qed.

(** The dispatch calls of a sweep for one selected event, and the update
    calls that name one of its fetched rows. *)
Lemma sweep_calls_of_event fails now w id e :
  events w !! id = Some e →
  now + 55 * 60 * 1000 < startTime e ≤ now + 60 * 60 * 1000 →
  let rows := pending id w in
  let calls :=
    EventRepo_getMany (now + 55 * 60 * 1000) (now + 60 * 60 * 1000)
    :: mjoin ((λ ev, reminder_calls fails ev (pending ev.1 w))
              <$> candidates now w) in
  filter (dispatches_for id) calls
  = (if fails (RsvpRepo_find id) || (length rows =? 0)%nat then []
     else [Notifications_sendEventReminders (userIds_of rows) (id, e)])
  ∧ ∀ k, k ∈ rsvpIds_of rows →
      filter (updates_row k) calls
      = if fails (RsvpRepo_find id) || (length rows =? 0)%nat
           || fails (Notifications_sendEventReminders (userIds_of rows) (id, e))
        then [] else [RsvpRepo_update (rsvpIds_of rows)].
Proof.
  intros He Hwin rows calls. subst calls.
  assert (Hin : (id, e) ∈ candidates now w) by (by apply elem_of_candidates).
  assert (Hnd : NoDup (candidates now w)) by apply NoDup_map_to_list.
  assert (Hother : ∀ y, y ∈ candidates now w → y ≠ (id, e) → y.1 ≠ id).
  { intros y Hy Hne Hid. apply Hne. by apply (candidates_same_id now w). }
  split.
  - rewrite filter_cons_False by (cbn; tauto).
    rewrite (filter_join_single _ _ _ (id, e)); [|done|done|].
    + rewrite filter_dispatches_for. cbn [fst]. by rewrite decide_True.
    + intros y Hy Hne. rewrite filter_dispatches_for.
      rewrite decide_False; [done|]. by apply Hother.
  - intros k Hk. rewrite filter_cons_False by (cbn; tauto).
    rewrite (filter_join_single _ _ _ (id, e)); [|done|done|].
    + rewrite filter_updates_row. cbn [fst]. by rewrite decide_True.
    + intros y Hy Hne. rewrite filter_updates_row.
      rewrite decide_False; [done|]. intros Hk'.
      apply elem_of_rsvpIds_of in Hk as (r & Hr & Hid & _).
      apply elem_of_rsvpIds_of in Hk' as (r' & Hr' & Hid' & _).
      apply (Hother y Hy Hne). congruence.
Qed.

(** The rows of a selected event after the sweep. *)
Lemma sweep_marks_event fails now w id e k r :
  events w !! id = Some e →
  now + 55 * 60 * 1000 < startTime e ≤ now + 60 * 60 * 1000 →
  rsvps w !! k = Some r → eventId r = id →
  marked fails (candidates now w) w k
  = reminded fails (id, e) (pending id w)
    && bool_decide (reminderEnabled r = true ∧ reminderSent r = false).
Proof.
  intros He Hwin Hr Hid.
  assert (Hin : (id, e) ∈ candidates now w) by (by apply elem_of_candidates).
  apply eq_true_iff_eq. rewrite marked_true, andb_true_iff, bool_decide_eq_true.
  split.
  - intros (ev & Hev & Hrem & Hk).
    apply elem_of_rsvpIds_of in Hk as (r' & Hr' & Hid' & Hen & Hse).
    assert (r' = r) as -> by congruence.
    assert (ev = (id, e)) as ->.
    { apply (candidates_same_id now w); [done..|]. cbn. congruence. }
    done.
  - intros (Hrem & Hen & Hse). exists (id, e). split_and!; [done..|].
    apply elem_of_rsvpIds_of. by exists r.
Qed.

(** C6: one sweep, an event it selects.  The rows fetched for the event
    are its RSVP rows with [reminderEnabled = true] and
    [reminderSent = false], each once.  Among the calls of the sweep there is at most
    one dispatch for the event: none when the fetch is rejected or returns
    no row, else one, with the users of the fetched rows and the event.
    When that dispatch is made and succeeds, each fetched row is named by
    one update, the batch of all fetched keys, and when the store accepts
    it the fetched rows of the event have [reminderSent = true] and its
    other rows are as before.  In the whole table a row is as before or was
    a row with [reminderEnabled = true] and [reminderSent = false] that now
    has [reminderSent = true]: a row with [reminderEnabled = false] never
    changes. *)
Theorem sweep_dispatches_pending_once fails now w id e :
  fails (EventRepo_getMany (now + 55 * 60 * 1000) (now + 60 * 60 * 1000))
  = false →
  events w !! id = Some e →
  now + 55 * 60 * 1000 < startTime e ≤ now + 60 * 60 * 1000 →
  let out := sendEventReminders fails now w in
  let rows := pending id w in
  let dispatch := Notifications_sendEventReminders (userIds_of rows) (id, e) in
  let update := RsvpRepo_update (rsvpIds_of rows) in
  (∀ k r, (k, r) ∈ rows ↔
     rsvps w !! k = Some r ∧ eventId r = id
     ∧ reminderEnabled r = true ∧ reminderSent r = false)
  ∧ NoDup rows
  ∧ ∃ calls, trace out.2 = trace w ++ calls
    ∧ filter (dispatches_for id) calls
      = (if fails (RsvpRepo_find id) || (length rows =? 0)%nat then []
         else [dispatch])
    ∧ (rows = [] → filter (dispatches_for id) calls = [])
    ∧ (dispatch ∈ calls → fails dispatch = false →
       (∀ k, k ∈ rsvpIds_of rows → filter (updates_row k) calls = [update])
       ∧ (fails update = false →
          ∀ k r, rsvps w !! k = Some r → eventId r = id →
            rsvps out.2 !! k
            = Some (if bool_decide (reminderEnabled r = true
                                    ∧ reminderSent r = false)
                    then set_reminderSent true r else r)))
    ∧ (∀ k, rsvps out.2 !! k = rsvps w !! k
            ∨ ∃ r, rsvps w !! k = Some r
                 ∧ reminderEnabled r = true ∧ reminderSent r = false
                 ∧ rsvps out.2 !! k = Some (set_reminderSent true r)).
Proof.
  intros Hf He Hwin out rows dispatch update.
  destruct (sendEventReminders_run fails now w Hf) as (_ & _ & Hrs & Htr).
  destruct (sweep_calls_of_event fails now w id e He Hwin) as (Hdis & Hupd).
  fold out in Hrs, Htr. fold rows dispatch in Hdis. fold rows dispatch update in Hupd.
  split; [intros k r; apply elem_of_pending|].
  split; [apply NoDup_map_to_list|].
  eexists. split; [exact Htr|]. split; [exact Hdis|]. split_and!.
  - intros Hnil. rewrite Hdis, Hnil. cbn. by rewrite orb_true_r.
  - intros Hcall Hdok.
    assert (Hmade : fails (RsvpRepo_find id) || (length rows =? 0)%nat = false).
    { destruct (_ || _) eqn:Hc; [|done].
      assert (Hin : dispatch ∈ filter (dispatches_for id)
                (EventRepo_getMany (now + 55 * 60 * 1000) (now + 60 * 60 * 1000)
                 :: mjoin ((λ ev, reminder_calls fails ev (pending ev.1 w))
                           <$> candidates now w))).
      { apply list_elem_of_filter. split; [reflexivity|done]. }
      rewrite Hdis in Hin. by apply elem_of_nil in Hin. }
    split.
    + intros k Hk. rewrite (Hupd k Hk), Hmade, Hdok. done.
    + intros Huok k r Hr Hid. rewrite Hrs, Hr. cbn. f_equal.
      rewrite (sweep_marks_event fails now w id e k r) by done.
      apply orb_false_iff in Hmade as [Hfind Hlen].
      unfold reminded. cbn [fst]. fold rows dispatch update.
      rewrite Hfind, Hlen, Hdok, Huok. done.
  - intros k. rewrite Hrs. destruct (rsvps w !! k) as [r|] eqn:Hr; [|by left].
    cbn. destruct (marked _ _ _ _) eqn:Hm; [|by left].
    right. exists r. apply marked_true in Hm as (ev & _ & _ & Hk).
    apply elem_of_rsvpIds_of in Hk as (r' & Hr' & _ & Hen & Hse).
    assert (r' = r) as -> by congruence. done.
Qed.

Lemma sweep_dispatches_pending_once_witness :
  let out := sendEventReminders reliable 0 sample_world in
  ∃ calls, trace out.2 = trace sample_world ++ calls
    ∧ filter (dispatches_for "event-1") calls
      = [Notifications_sendEventReminders ["user-1"; "user-2"]
           ("event-1", sample_event "artist-1" (minutes 58) 3)]
    ∧ rsvps out.2 !! "rsvp-1"
      = Some (sample_rsvp "event-1" "user-1" true true)
    ∧ rsvps out.2 !! "rsvp-3"
      = Some (sample_rsvp "event-1" "user-3" false false).
Proof.
  intros out.
  destruct (sweep_dispatches_pending_once reliable 0 sample_world "event-1"
              (sample_event "artist-1" (minutes 58) 3))
    as (_ & _ & calls & Htr & Hdis & _ & Hrows & _).
  { reflexivity. }
  { reflexivity. }
  { unfold minutes. cbn. lia. }
  exists calls. split; [exact Htr|]. split; [rewrite Hdis; by vm_compute|].
  assert (Hin : Notifications_sendEventReminders
                  (userIds_of (pending "event-1" sample_world))
                  ("event-1", sample_event "artist-1" (minutes 58) 3)
                ∈ filter (dispatches_for "event-1") calls).
  { rewrite Hdis. left. }
  apply list_elem_of_filter in Hin as [_ Hin].
  destruct (Hrows Hin eq_refl) as (_ & Hmarked).
  specialize (Hmarked eq_refl). split.
  - by apply (Hmarked "rsvp-1" (sample_rsvp "event-1" "user-1" true false)).
  - by apply (Hmarked "rsvp-3" (sample_rsvp "event-1" "user-3" false false)).
Defined.

(** The sample sweep: two users are dispatched to, their two rows are
    marked, the row without reminder is as before. *)
Example sendEventReminders_sample :
  let out := sendEventReminders reliable 0 sample_world in
  out.1 = Ok ()
  ∧ trace out.2
    = [EventRepo_getMany (minutes 55) (minutes 60); RsvpRepo_find "event-1";
       Notifications_sendEventReminders ["user-1"; "user-2"]
         ("event-1", sample_event "artist-1" (minutes 58) 3);
       RsvpRepo_update ["rsvp-1"; "rsvp-2"]]
  ∧ map_to_list (rsvps out.2)
    = [("rsvp-3", sample_rsvp "event-1" "user-3" false false);
       ("rsvp-1", sample_rsvp "event-1" "user-1" true true);
       ("rsvp-2", sample_rsvp "event-1" "user-2" true true)].
Proof. by vm_compute. Qed.

(** C7: one sweep, an event it selects, and no more than this event's own
    three steps accepted: its fetch, its dispatch and its update.  Whatever
    is rejected for the other selected events, before or after it, the
    sweep ends normally, the event's pending users are dispatched to, once,
    its batch update is made, and its fetched rows have
    [reminderSent = true]. *)
Theorem sweep_isolates_failures fails now w id e :
  fails (EventRepo_getMany (now + 55 * 60 * 1000) (now + 60 * 60 * 1000))
  = false →
  events w !! id = Some e →
  now + 55 * 60 * 1000 < startTime e ≤ now + 60 * 60 * 1000 →
  let rows := pending id w in
  let dispatch := Notifications_sendEventReminders (userIds_of rows) (id, e) in
  let update := RsvpRepo_update (rsvpIds_of rows) in
  fails (RsvpRepo_find id) = false →
  fails dispatch = false →
  fails update = false →
  let out := sendEventReminders fails now w in
  out.1 = Ok ()
  ∧ (∀ k r, (k, r) ∈ rows →
       rsvps out.2 !! k = Some (set_reminderSent true r))
  ∧ (rows ≠ [] →
     ∃ calls, trace out.2 = trace w ++ calls
       ∧ filter (dispatches_for id) calls = [dispatch]
       ∧ update ∈ calls).
Proof.
  intros Hf He Hwin rows dispatch update Hfind Hdok Huok out.
  destruct (sendEventReminders_run fails now w Hf) as (Hres & _ & Hrs & Htr).
  destruct (sweep_calls_of_event fails now w id e He Hwin) as (Hdis & Hupd).
  fold out in Hres, Hrs, Htr. fold rows dispatch in Hdis.
  fold rows dispatch update in Hupd.
  split; [done|]. split.
  - intros k r Hin. assert (Hin' := Hin).
    apply elem_of_pending in Hin as (Hr & Hid & Hen & Hse).
    rewrite Hrs, Hr. cbn. f_equal.
    rewrite (sweep_marks_event fails now w id e k r) by done.
    unfold reminded. cbn [fst]. fold rows dispatch update.
    rewrite Hfind, Hdok, Huok.
    destruct rows as [|row rows']; [by apply elem_of_nil in Hin'|].
    cbn. by rewrite bool_decide_eq_true_2.
  - intros Hne. eexists. split; [exact Htr|].
    assert (Hlen : (length rows =? 0)%nat = false) by (by destruct rows).
    split.
    + by rewrite Hdis, Hfind, Hlen.
    + destruct rows as [|[k r] rows'] eqn:Hrows; [done|].
      assert (Hk : k ∈ rsvpIds_of rows) by (rewrite Hrows; cbn; left).
      specialize (Hupd k). rewrite <- Hrows in *. specialize (Hupd Hk).
      rewrite Hfind, Hlen, Hdok in Hupd. cbn [orb] in Hupd.
      assert (Hin : update ∈ [update]) by left.
      rewrite <- Hupd in Hin. by apply list_elem_of_filter in Hin as [_ Hin].
Qed.

Lemma sweep_isolates_failures_witness :
  let out := sendEventReminders (rejects_fetch "event-1") 0 two_events_world in
  candidates 0 two_events_world
  = [("event-1", sample_event "artist-1" (minutes 58) 3);
     ("event-2", sample_event "artist-2" (minutes 57) 1)]
  ∧ out.1 = Ok ()
  ∧ rsvps out.2 !! "rsvp-4" = Some (sample_rsvp "event-2" "user-2" true true)
  ∧ ∃ calls, trace out.2 = trace two_events_world ++ calls
      ∧ filter (dispatches_for "event-2") calls
        = [Notifications_sendEventReminders ["user-2"]
             ("event-2", sample_event "artist-2" (minutes 57) 1)]
      ∧ RsvpRepo_update ["rsvp-4"] ∈ calls.
Proof.
  intros out. split; [by vm_compute|].
  destruct (sweep_isolates_failures (rejects_fetch "event-1") 0 two_events_world
              "event-2" (sample_event "artist-2" (minutes 57) 1))
    as (Hres & Hrows & Hcalls); try reflexivity.
  { unfold minutes. cbn. lia. }
  split; [exact Hres|]. split.
  - apply (Hrows "rsvp-4" (sample_rsvp "event-2" "user-2" true false)).
    apply elem_of_pending. split_and!; reflexivity.
  - destruct Hcalls as (calls & Htr & Hdis & Hupd).
    { by vm_compute. }
    exists calls. split; [exact Htr|]. split.
    + rewrite Hdis. by vm_compute.
    + assert (Hids : rsvpIds_of (pending "event-2" two_events_world)
                     = ["rsvp-4"]) by (by vm_compute).
      by rewrite Hids in Hupd.
Defined.

(** The same sweep in full: the first event's fetch is rejected, the second
    event is dispatched and marked, and the first event's rows are as
    before. *)
Example sendEventReminders_first_fetch_rejected :
  let out := sendEventReminders (rejects_fetch "event-1") 0 two_events_world in
  out.1 = Ok ()
  ∧ trace out.2
    = [EventRepo_getMany (minutes 55) (minutes 60); RsvpRepo_find "event-1";
       RsvpRepo_find "event-2";
       Notifications_sendEventReminders ["user-2"]
         ("event-2", sample_event "artist-2" (minutes 57) 1);
       RsvpRepo_update ["rsvp-4"]]
  ∧ map_to_list (rsvps out.2)
    = [("rsvp-3", sample_rsvp "event-1" "user-3" false false);
       ("rsvp-1", sample_rsvp "event-1" "user-1" true false);
       ("rsvp-2", sample_rsvp "event-1" "user-2" true false);
       ("rsvp-4", sample_rsvp "event-2" "user-2" true true)].
Proof. by vm_compute. Qed.

(** A rejected dispatch: the rows are not marked, no update is issued and
    the sweep ends normally. *)
Example sendEventReminders_dispatch_rejected :
  let out := sendEventReminders rejects_dispatch 0 sample_world in
  out.1 = Ok ()
  ∧ map_to_list (rsvps out.2) = map_to_list (rsvps sample_world)
  ∧ length (trace out.2) = 3%nat.
Proof. by vm_compute. Qed.

(** * Further properties *)

(** ** Pagination *)

Lemma ceil_div_bounds total limit :
  0 < limit →
  ∃ p, ceil_div total limit = Some p
       ∧ (p - 1) * limit < total ≤ p * limit.
Proof.
  intros Hl. unfold ceil_div.
  destruct (Z.eqb_spec limit 0); [lia|].
  eexists. split; [done|].
  pose proof (Z.div_mod (- total) limit ltac:(lia)) as Hdm.
  pose proof (Z.mod_pos_bound (- total) limit Hl) as Hm.
  nia.
Qed.

(** ** The page count in floating point *)

Lemma digits2_pos_bounds p :
  2 ^ (Z.pos (SpecFloat.digits2_pos p) - 1) ≤ Z.pos p < 2 ^ Z.pos (SpecFloat.digits2_pos p).
Proof.
  induction p as [p IH|p IH|]; cbn [SpecFloat.digits2_pos].
  - rewrite Pos2Z.inj_succ, (Pos2Z.inj_xI p).
    replace (Z.succ (Z.pos (SpecFloat.digits2_pos p)) - 1)
      with (Z.succ (Z.pos (SpecFloat.digits2_pos p) - 1)) by lia.
    rewrite !Z.pow_succ_r by lia.
    set (u := 2 ^ _) in *. set (v := 2 ^ _) in *. lia.
  - rewrite Pos2Z.inj_succ, (Pos2Z.inj_xO p).
    replace (Z.succ (Z.pos (SpecFloat.digits2_pos p)) - 1)
      with (Z.succ (Z.pos (SpecFloat.digits2_pos p) - 1)) by lia.
    rewrite !Z.pow_succ_r by lia.
    set (u := 2 ^ _) in *. set (v := 2 ^ _) in *. lia.
  - change (1 ≤ 1 < 2). lia.
Qed.

Lemma Zdigits2_unique m d :
  2 ^ (d - 1) ≤ m < 2 ^ d → 0 < m → SpecFloat.Zdigits2 m = d.
Proof.
  intros Hb Hm. destruct m as [|p|p]; [lia| |lia]. cbn [SpecFloat.Zdigits2].
  pose proof (digits2_pos_bounds p) as Hp.
  set (d' := Z.pos (SpecFloat.digits2_pos p)) in *.
  assert (0 < d).
  { destruct (Z.ltb_spec 0 d); [done|].
    assert (2 ^ d ≤ 1); [|lia].
    destruct (Z.eqb_spec d 0) as [->|]; [done|].
    rewrite Z.pow_neg_r by lia. lia. }
  assert (d - 1 < d') by (apply (Z.pow_lt_mono_r_iff 2); lia).
  assert (d' - 1 < d) by (apply (Z.pow_lt_mono_r_iff 2); lia).
  lia.
Qed.

Lemma Zdigits2_bounds m :
  0 < m → 0 < SpecFloat.Zdigits2 m
          ∧ 2 ^ (SpecFloat.Zdigits2 m - 1) ≤ m < 2 ^ SpecFloat.Zdigits2 m.
Proof.
  intros Hm. destruct m as [|p|p]; [lia| |lia]. cbn [SpecFloat.Zdigits2].
  split; [lia|]. apply digits2_pos_bounds.
Qed.

Lemma iter_xO m d : Z.pos (Pos.iter xO m d) = Z.pos m * 2 ^ Z.pos d.
Proof.
  induction d as [|d IH] using Pos.peano_ind.
  - cbn. lia.
  - rewrite Pos.iter_succ, Pos2Z.inj_xO, IH, Pos2Z.inj_succ, Z.pow_succ_r by lia.
    lia.
Qed.

Lemma fexp_normal x : -1021 ≤ x → SpecFloat.fexp 53 1024 x = x - 53.
Proof. unfold SpecFloat.fexp, SpecFloat.emin. lia. Qed.

Lemma shl_align_le mx ex ex' :
  ex' ≤ ex →
  Z.pos (SpecFloat.shl_align mx ex ex').1 = Z.pos mx * 2 ^ (ex - ex')
  ∧ (SpecFloat.shl_align mx ex ex').2 = ex'.
Proof.
  intros Hle. unfold SpecFloat.shl_align.
  destruct (ex' - ex) as [|d|d] eqn:Hd; cbn [fst snd].
  - replace (ex - ex') with 0 by lia. rewrite Z.pow_0_r. lia.
  - lia.
  - rewrite iter_xO. replace (ex - ex') with (Z.pos d) by lia. done.
Qed.

Lemma loc_of_shr_record_of_loc m l :
  SpecFloat.loc_of_shr_record (SpecFloat.shr_record_of_loc m l) = l
  ∧ SpecFloat.shr_m (SpecFloat.shr_record_of_loc m l) = m.
Proof. by destruct l as [|[]]. Qed.

Lemma shr_1_pos m r s :
  0 < m →
  SpecFloat.shr_1 (SpecFloat.Build_shr_record m r s)
  = SpecFloat.Build_shr_record (m `div` 2) (Z.odd m) (r || s).
Proof.
  intros Hm. destruct m as [|[p|p|]|]; try lia; cbn [SpecFloat.shr_1].
  - f_equal. rewrite (Pos2Z.inj_xI p).
    apply (Z.div_unique _ 2 _ 1); lia.
  - f_equal. rewrite (Pos2Z.inj_xO p).
    apply (Z.div_unique _ 2 _ 0); lia.
  - done.
Qed.

Lemma round_nearest_even_bounds m l :
  m ≤ SpecFloat.round_nearest_even m l ≤ m + 1.
Proof.
  destruct l as [|[]]; cbn; try lia. destruct (Z.even m); lia.
Qed.

(** Rounding a mantissa of 53 bits: no shift before, and one after when
    the rounding carries to [2 ^ 53]. *)
Lemma binary_round_aux_53 mx ex lx :
  2 ^ 52 ≤ mx < 2 ^ 53 → -1074 ≤ ex ≤ 970 →
  SpecFloat.binary_round_aux 53 1024 false mx ex lx
  = let M := SpecFloat.round_nearest_even mx lx in
    if M <? 2 ^ 53 then SpecFloat.S754_finite false (Z.to_pos M) ex
    else SpecFloat.S754_finite false (Z.to_pos (2 ^ 52)) (ex + 1).
Proof.
  intros Hm He. unfold SpecFloat.binary_round_aux, SpecFloat.shr_fexp.
  rewrite (Zdigits2_unique mx 53) by lia.
  rewrite fexp_normal by lia.
  replace (53 + ex - 53 - ex) with 0 by lia.
  cbn [SpecFloat.shr].
  destruct (loc_of_shr_record_of_loc mx lx) as [-> ->].
  pose proof (round_nearest_even_bounds mx lx) as Hr.
  set (M := SpecFloat.round_nearest_even mx lx) in *. cbn zeta.
  destruct (Z.ltb_spec M (2 ^ 53)).
  - rewrite (Zdigits2_unique M 53) by lia.
    rewrite fexp_normal by lia.
    replace (53 + ex - 53 - ex) with 0 by lia.
    cbn [SpecFloat.shr SpecFloat.shr_record_of_loc SpecFloat.shr_m].
    destruct M as [|p|p]; try lia.
    replace (ex <=? 1024 - 53) with true by lia. done.
  - assert (M = 2 ^ 53) as -> by lia.
    rewrite (Zdigits2_unique (2 ^ 53) 54) by lia.
    rewrite fexp_normal by lia.
    replace (54 + ex - 53 - ex) with 1 by lia.
    cbn [SpecFloat.shr SpecFloat.shr_record_of_loc SpecFloat.shr_m
         SpecFloat.iter_pos].
    rewrite shr_1_pos by lia. cbn [SpecFloat.shr_m].
    replace (ex + 1 <=? 1024 - 53) with true by lia.
    change (2 ^ 53 `div` 2) with (2 ^ 52). done.
Qed.

(** Rounding a mantissa of 54 bits: one shift before, and one after when
    the rounding carries. *)
Lemma binary_round_aux_54 mx ex lx :
  2 ^ 53 ≤ mx < 2 ^ 54 → -1074 ≤ ex ≤ 969 →
  SpecFloat.binary_round_aux 53 1024 false mx ex lx
  = let mrs := SpecFloat.shr_1 (SpecFloat.shr_record_of_loc mx lx) in
    let M := SpecFloat.round_nearest_even (SpecFloat.shr_m mrs)
               (SpecFloat.loc_of_shr_record mrs) in
    if M <? 2 ^ 53 then SpecFloat.S754_finite false (Z.to_pos M) (ex + 1)
    else SpecFloat.S754_finite false (Z.to_pos (2 ^ 52)) (ex + 2).
Proof.
  intros Hm He. unfold SpecFloat.binary_round_aux, SpecFloat.shr_fexp.
  rewrite (Zdigits2_unique mx 54) by lia.
  rewrite fexp_normal by lia.
  replace (54 + ex - 53 - ex) with 1 by lia.
  cbn [SpecFloat.shr SpecFloat.iter_pos].
  set (mrs := SpecFloat.shr_1 (SpecFloat.shr_record_of_loc mx lx)).
  assert (Hmrs : SpecFloat.shr_m mrs = mx `div` 2).
  { subst mrs. destruct lx as [|[]]; cbn [SpecFloat.shr_record_of_loc];
      by rewrite shr_1_pos by lia. }
  assert (2 ^ 52 ≤ mx `div` 2 < 2 ^ 53).
  { split.
    - apply Z.div_le_lower_bound; lia.
    - apply Z.div_lt_upper_bound; lia. }
  pose proof (round_nearest_even_bounds (SpecFloat.shr_m mrs)
                (SpecFloat.loc_of_shr_record mrs)) as Hr.
  set (M := SpecFloat.round_nearest_even _ _) in *. cbn zeta.
  rewrite Hmrs in Hr.
  destruct (Z.ltb_spec M (2 ^ 53)).
  - rewrite (Zdigits2_unique M 53) by lia.
    rewrite fexp_normal by lia.
    replace (53 + (ex + 1) - 53 - (ex + 1)) with 0 by lia.
    cbn [SpecFloat.shr SpecFloat.shr_record_of_loc SpecFloat.shr_m].
    destruct M as [|p|p]; try lia.
    replace (ex + 1 <=? 1024 - 53) with true by lia. done.
  - assert (M = 2 ^ 53) as -> by lia.
    rewrite (Zdigits2_unique (2 ^ 53) 54) by lia.
    rewrite fexp_normal by lia.
    replace (54 + (ex + 1) - 53 - (ex + 1)) with 1 by lia.
    cbn [SpecFloat.shr SpecFloat.shr_record_of_loc SpecFloat.shr_m
         SpecFloat.iter_pos].
    rewrite shr_1_pos by lia. cbn [SpecFloat.shr_m].
    replace (ex + 1 + 1 <=? 1024 - 53) with true by lia.
    change (2 ^ 53 `div` 2) with (2 ^ 52).
    replace (ex + 1 + 1) with (ex + 2) by lia. done.
Qed.

Lemma Number_of_Z_pos a :
  0 < a < 2 ^ 53 →
  ∃ m, Number_of_Z a = SpecFloat.S754_finite false m (SpecFloat.Zdigits2 a - 53)
     ∧ Z.pos m = a * 2 ^ (53 - SpecFloat.Zdigits2 a)
     ∧ 2 ^ 52 ≤ Z.pos m < 2 ^ 53
     ∧ 1 ≤ SpecFloat.Zdigits2 a ≤ 53.
Proof.
  intros Ha. destruct (Zdigits2_bounds a) as (Hd & Hb); [lia|].
  set (d := SpecFloat.Zdigits2 a) in *.
  assert (d ≤ 53).
  { assert (d - 1 < 53); [|lia]. apply (Z.pow_lt_mono_r_iff 2); lia. }
  destruct a as [|p|p]; try lia.
  unfold Number_of_Z, SpecFloat.binary_normalize, SpecFloat.binary_round.
  change (Z.pos (SpecFloat.digits2_pos p)) with d.
  rewrite fexp_normal by lia.
  destruct (shl_align_le p 0 (d + 0 - 53) ltac:(lia)) as [Hm He].
  destruct (SpecFloat.shl_align p 0 (d + 0 - 53)) as [mz ez].
  cbn [fst snd] in Hm, He. subst ez.
  replace (0 - (d + 0 - 53)) with (53 - d) in Hm by lia.
  assert (Hmz : 2 ^ 52 ≤ Z.pos mz < 2 ^ 53).
  { rewrite Hm.
    replace (2 ^ 52) with (2 ^ (d - 1) * 2 ^ (53 - d))
      by (rewrite <- Z.pow_add_r by lia; f_equal; lia).
    replace (2 ^ 53) with (2 ^ d * 2 ^ (53 - d))
      by (rewrite <- Z.pow_add_r by lia; f_equal; lia).
    assert (0 < 2 ^ (53 - d)) by (apply Z.pow_pos_nonneg; lia).
    nia. }
  rewrite binary_round_aux_53 by lia.
  cbn [SpecFloat.round_nearest_even]. cbn zeta.
  destruct (Z.ltb_spec (Z.pos mz) (2 ^ 53)); [|lia].
  exists mz. rewrite Pos2Z.id. replace (d + 0 - 53) with (d - 53) by lia.
  split_and!; try done; lia.
Qed.

Lemma new_location_spec mb r :
  0 ≤ r < mb →
  match SpecFloat.new_location mb r with
  | SpecFloat.loc_Exact => r = 0
  | SpecFloat.loc_Inexact Lt => 0 < 2 * r < mb
  | SpecFloat.loc_Inexact Eq => 2 * r = mb
  | SpecFloat.loc_Inexact Gt => mb < 2 * r
  end.
Proof.
  intros Hr. unfold SpecFloat.new_location.
  destruct (Z.even mb) eqn:Hev.
  - unfold SpecFloat.new_location_even.
    destruct (Z.eqb_spec r 0); [done|].
    destruct (Z.compare_spec (2 * r) mb); cbn; lia.
  - unfold SpecFloat.new_location_odd.
    destruct (Z.eqb_spec r 0); [done|].
    assert (Hodd : Z.odd mb = true) by (by rewrite <- Z.negb_even, Hev).
    apply Z.odd_spec in Hodd as [k Hk].
    destruct (Z.compare_spec (2 * r + 1) mb); cbn; lia.
Qed.

Lemma SFdiv_core_normal ma ea mb eb :
  2 ^ 52 ≤ ma < 2 ^ 53 → 2 ^ 52 ≤ mb < 2 ^ 53 → -52 ≤ ea - eb ≤ 52 →
  SpecFloat.SFdiv_core_binary 53 1024 ma ea mb eb
  = ((ma * 2 ^ 53) `div` mb, ea - eb - 53,
     SpecFloat.new_location mb ((ma * 2 ^ 53) `mod` mb)).
Proof.
  intros Ha Hb He. unfold SpecFloat.SFdiv_core_binary.
  rewrite !(Zdigits2_unique _ 53) by lia.
  rewrite fexp_normal by lia.
  replace (Z.min (53 + ea - (53 + eb) - 53) (ea - eb))
    with (ea - eb - 53) by lia.
  replace (ea - eb - (ea - eb - 53)) with 53 by lia.
  rewrite Z.shiftl_mul_pow2 by lia.
  unfold Z.div, Z.modulo.
  by destruct (Z.div_eucl (ma * 2 ^ 53) mb).
Qed.

(** The ceiling of a number from the value it has. *)
Lemma Math_ceil_value m e k c :
  0 ≤ k → 0 ≤ e + k →
  (c - 1) * 2 ^ k < Z.pos m * 2 ^ (e + k) ≤ c * 2 ^ k →
  Math_ceil (SpecFloat.S754_finite false m e) = Some c.
Proof.
  intros Hk Hek Hc. unfold Math_ceil. cbn [SpecFloat.cond_Zopp]. f_equal.
  assert (0 < 2 ^ k) by (apply Z.pow_pos_nonneg; lia).
  destruct (Z.leb_spec 0 e).
  - rewrite Z.pow_add_r in Hc by lia.
    assert (0 < 2 ^ e) by (apply Z.pow_pos_nonneg; lia).
    set (u := 2 ^ e) in *. set (v := 2 ^ k) in *. nia.
  - assert (0 < 2 ^ (e + k)) by (apply Z.pow_pos_nonneg; lia).
    assert (0 < 2 ^ (- e)) by (apply Z.pow_pos_nonneg; lia).
    assert (Hp : 2 ^ k = 2 ^ (- e) * 2 ^ (e + k))
      by (rewrite <- Z.pow_add_r by lia; f_equal; lia).
    rewrite Hp in Hc.
    set (u := 2 ^ (- e)) in *. set (v := 2 ^ (e + k)) in *.
    assert ((- Z.pos m) `div` u = - c); [|lia].
    symmetry. apply (Z.div_unique _ u _ (c * u - Z.pos m)); nia.
Qed.

(** The ceiling of a quotient from a rounding of a multiple of it that is
    fine enough. *)
Lemma ceil_of_rounded a b P f rem2 M c :
  0 < b → 0 < P → b < 2 * P → (c - 1) * b < a ≤ c * b →
  2 * a * P = 2 * f * b + rem2 → 0 ≤ rem2 < 2 * b →
  (M = f ∧ rem2 ≤ b) ∨ (M = f + 1 ∧ b ≤ rem2) →
  (c - 1) * P < M ≤ c * P.
Proof.
  intros Hb HP HbP Hc Hdiv Hrem HM. split.
  - destruct HM as [[-> Hr]|[-> Hr]].
    + destruct (Z.ltb_spec ((c - 1) * P) f); [done|]. exfalso.
      assert (f * b ≤ (c - 1) * P * b) by nia.
      assert (((c - 1) * b + 1) * P ≤ a * P) by nia.
      nia.
    + destruct (Z.ltb_spec ((c - 1) * P) (f + 1)); [done|]. exfalso.
      assert ((f + 1) * b ≤ (c - 1) * P * b) by nia.
      assert (((c - 1) * b + 1) * P ≤ a * P) by nia.
      nia.
  - destruct HM as [[-> Hr]|[-> Hr]].
    + destruct (Z.leb_spec f (c * P)); [done|]. exfalso.
      assert ((c * P + 1) * b ≤ f * b) by nia.
      assert (a * P ≤ c * b * P) by nia.
      nia.
    + destruct (Z.leb_spec (f + 1) (c * P)); [done|]. exfalso.
      assert (c * P * b ≤ f * b) by nia.
      assert (a * P ≤ c * b * P) by nia.
      nia.
Qed.

(** [Math.ceil(total / limit)] on safe integers is the ceiling of the
    quotient of the integers. *)
Lemma Math_ceil_div_safe a b :
  0 ≤ a ≤ MAX_SAFE_INTEGER → 0 < b ≤ MAX_SAFE_INTEGER →
  Math_ceil (Number_div (Number_of_Z a) (Number_of_Z b)) = ceil_div a b.
Proof.
  unfold MAX_SAFE_INTEGER. intros Ha Hb.
  destruct (ceil_div_bounds a b) as (c & Hc & Hcb); [lia|]. rewrite Hc.
  destruct (Number_of_Z_pos b) as (mb & -> & Hmb & Hmb' & Hdb); [lia|].
  destruct (Z.eqb_spec a 0) as [->|Hne].
  { cbn. f_equal. nia. }
  destruct (Number_of_Z_pos a) as (ma & -> & Hma & Hma' & Hda); [lia|].
  set (da := SpecFloat.Zdigits2 a) in *. set (db := SpecFloat.Zdigits2 b) in *.
  unfold Number_div, SpecFloat.SFdiv.
  rewrite SFdiv_core_normal by lia. cbn [xorb].
  set (tb := 2 ^ (53 - db)) in *.
  set (P := 2 ^ (53 + db - da)).
  assert (Htb : 0 < tb) by (apply Z.pow_pos_nonneg; lia).
  assert (HP : 0 < P) by (apply Z.pow_pos_nonneg; lia).
  assert (HbP : b < P).
  { destruct (Zdigits2_bounds b) as (_ & _ & Hlt); [lia|]. fold db in Hlt.
    assert (2 ^ db ≤ P); [|lia]. apply Z.pow_le_mono_r; lia. }
  assert (HN : Z.pos ma * 2 ^ 53 = a * P * tb).
  { rewrite Hma. subst P tb. rewrite <- !Z.mul_assoc, <- !Z.pow_add_r by lia.
    do 2 f_equal. lia. }
  rewrite HN, Hmb.
  rewrite Z.div_mul_cancel_r, Z.mul_mod_distr_r by lia.
  set (q := (a * P) `div` b). set (r' := (a * P) `mod` b).
  assert (Hdm : a * P = b * q + r') by (apply Z.div_mod; lia).
  assert (Hr' : 0 ≤ r' < b) by (apply Z.mod_pos_bound; lia).
  assert (Hq : 2 ^ 52 ≤ q < 2 ^ 54).
  { assert (b * tb * q ≤ a * P * tb < b * tb * (q + 1)) by nia.
    rewrite <- HN, <- Hmb in H. nia. }
  pose proof (new_location_spec (b * tb) (r' * tb) ltac:(nia)) as Hloc.
  set (loc := SpecFloat.new_location (b * tb) (r' * tb)) in *.
  destruct (Z.ltb_spec q (2 ^ 53)) as [Hq53|Hq54].
  - rewrite binary_round_aux_53 by lia. cbn zeta.
    pose proof (round_nearest_even_bounds q loc) as HMb.
    assert (HM : (SpecFloat.round_nearest_even q loc = q ∧ 2 * r' ≤ b)
                 ∨ (SpecFloat.round_nearest_even q loc = q + 1 ∧ b ≤ 2 * r')).
    { destruct loc as [|[]]; cbn [SpecFloat.round_nearest_even] in *.
      - left. split; [done|]. nia.
      - assert (2 * r' = b) by nia.
        destruct (Z.even q); [left|right]; split; lia.
      - left. split; [done|]. nia.
      - right. split; [done|]. nia. }
    set (M := SpecFloat.round_nearest_even q loc) in *.
    pose proof (ceil_of_rounded a b P q (2 * r') M c ltac:(lia) HP ltac:(lia)
                  Hcb ltac:(lia) ltac:(lia) HM) as HcM.
    destruct (Z.ltb_spec M (2 ^ 53)).
    + apply (Math_ceil_value _ _ (53 + db - da)); [lia|lia|].
      replace (da - 53 - (db - 53) - 53 + (53 + db - da)) with 0 by lia.
      rewrite Z2Pos.id by lia. fold P. lia.
    + apply (Math_ceil_value _ _ (53 + db - da)); [lia|lia|].
      replace (da - 53 - (db - 53) - 53 + 1 + (53 + db - da)) with 1 by lia.
      rewrite Z2Pos.id by lia. fold P.
      change (2 ^ 52 * 2 ^ 1) with (2 ^ 53). lia.
  - rewrite binary_round_aux_54 by lia. cbn zeta.
    set (P' := 2 ^ (52 + db - da)).
    assert (HPP : P = 2 * P').
    { subst P P'. rewrite <- Z.pow_succ_r by lia. f_equal. lia. }
    assert (Hmrs : SpecFloat.shr_1 (SpecFloat.shr_record_of_loc q loc)
                   = SpecFloat.Build_shr_record (q `div` 2) (Z.odd q)
                       (match loc with
                        | SpecFloat.loc_Exact => false
                        | _ => true
                        end)).
    { destruct loc as [|[]]; cbn [SpecFloat.shr_record_of_loc];
        by rewrite shr_1_pos by lia. }
    rewrite Hmrs. cbn [SpecFloat.shr_m].
    set (f := q `div` 2).
    assert (Hqf : q = 2 * f + (if Z.odd q then 1 else 0)).
    { rewrite <- Zmod_odd. apply Z.div_mod. lia. }
    set (l2 := SpecFloat.loc_of_shr_record _).
    pose proof (round_nearest_even_bounds f l2) as HMb.
    assert (HM : (SpecFloat.round_nearest_even f l2 = f
                  ∧ (if Z.odd q then b else 0) + r' ≤ b)
                 ∨ (SpecFloat.round_nearest_even f l2 = f + 1
                    ∧ b ≤ (if Z.odd q then b else 0) + r')).
    { subst l2. destruct (Z.odd q);
        destruct loc as [|[]];
        cbn [SpecFloat.loc_of_shr_record SpecFloat.round_nearest_even] in *.
      - assert (r' = 0) by nia. destruct (Z.even f); [left|right]; split; lia.
      - right. split; [done|]. lia.
      - right. split; [done|]. lia.
      - right. split; [done|]. lia.
      - left. split; [done|]. lia.
      - left. split; [done|]. lia.
      - left. split; [done|]. lia.
      - left. split; [done|]. lia. }
    set (M := SpecFloat.round_nearest_even f l2) in *.
    assert (Hf : 2 ^ 52 ≤ f < 2 ^ 53) by (destruct (Z.odd q); lia).
    pose proof (ceil_of_rounded a b P' f ((if Z.odd q then b else 0) + r') M c
                  ltac:(lia) ltac:(lia) ltac:(lia) Hcb
                  ltac:(destruct (Z.odd q); nia)
                  ltac:(destruct (Z.odd q); lia) HM) as HcM.
    destruct (Z.ltb_spec M (2 ^ 53)).
    + apply (Math_ceil_value _ _ (52 + db - da)); [lia|lia|].
      replace (da - 53 - (db - 53) - 53 + 1 + (52 + db - da)) with 0 by lia.
      rewrite Z2Pos.id by lia. fold P'. lia.
    + apply (Math_ceil_value _ _ (52 + db - da)); [lia|lia|].
      replace (da - 53 - (db - 53) - 53 + 2 + (52 + db - da)) with 1 by lia.
      rewrite Z2Pos.id by lia. fold P'.
      change (2 ^ 52 * 2 ^ 1) with (2 ^ 53). lia.
Qed.

(** Beyond the safe integers the quotient is rounded and the ceiling of
    the integers is not what the code computes. *)
Example Math_ceil_div_unsafe :
  Math_ceil (Number_div (Number_of_Z 13510798882111492) (Number_of_Z 3))
  = Some 4503599627370497
  ∧ ceil_div 13510798882111492 3 = Some 4503599627370498.
Proof. by vm_compute. Qed.

(** X1: for safe integers, [total] not negative and [limit] positive, the
    page count of a result is the number the constructor computes,
    [Math.ceil] of the floating-point quotient [total / limit], and it is
    the least number of pages of that size that hold [total] rows, the
    ceiling of the exact quotient.  It is 0 exactly for no row. *)
Theorem totalPages_ceiling {T} (rows : list T) total page limit :
  0 ≤ total ≤ MAX_SAFE_INTEGER →
  0 < limit ≤ MAX_SAFE_INTEGER →
  ∃ p, totalPages (new_PaginatedResult rows total page limit) = Some p
       ∧ Math_ceil (Number_div (Number_of_Z total) (Number_of_Z limit)) = Some p
       ∧ (p - 1) * limit < total ≤ p * limit
       ∧ (∀ q, total ≤ q * limit → p ≤ q)
       ∧ (p = 0 ↔ total = 0).
Proof.
  intros Ht Hl.
  destruct (ceil_div_bounds total limit ltac:(lia)) as (p & Hp & Hb).
  exists p. split; [exact Hp|].
  split; [by rewrite Math_ceil_div_safe|].
  split; [exact Hb|]. split; [|nia].
  intros q Hq. nia.
Qed.

Lemma totalPages_ceiling_witness :
  ∃ p, totalPages (new_PaginatedResult ["a"; "b"; "c"] 25 2 10) = Some p
       ∧ Math_ceil (Number_div (Number_of_Z 25) (Number_of_Z 10)) = Some p
       ∧ (p - 1) * 10 < 25 ≤ p * 10
       ∧ (∀ q, 25 ≤ q * 10 → p ≤ q)
       ∧ (p = 0 ↔ 25 = 0).
Proof.
  apply (totalPages_ceiling ["a"; "b"; "c"] 25 2 10); by vm_compute.
Defined.

Lemma skip_take_nat {T} (i n : nat) (rows : list T) :
  skip_take ((Z.of_nat i + 1 - 1) * Z.of_nat n) (Z.of_nat n) rows
  = take n (drop (i * n) rows).
Proof.
  unfold skip_take. rewrite Nat2Z.id. do 2 f_equal. lia.
Qed.

Lemma join_pages {T} (n : nat) (rows : list T) (m : nat) :
  mjoin ((λ i, take n (drop (i * n) rows)) <$> seq 0 m) = take (m * n) rows.
Proof.
  induction m as [|m IH]; [done|].
  rewrite seq_S, fmap_app. cbn [fmap list_fmap Nat.add].
  rewrite join_app, IH. cbn [mjoin list_join]. rewrite app_nil_r.
  rewrite take_take_drop. f_equal. lia.
Qed.

(** The pages 1 to [totalPages] of a listing, one after the other, are the
    listing; a later page is empty. *)
Lemma skip_take_pages {T} (rows : list T) limit pages :
  1 ≤ limit →
  ceil_div (Z.of_nat (length rows)) limit = Some pages →
  mjoin ((λ i, skip_take ((Z.of_nat i + 1 - 1) * limit) limit rows)
         <$> seq 0 (Z.to_nat pages)) = rows
  ∧ ∀ page, pages < page → skip_take ((page - 1) * limit) limit rows = [].
Proof.
  intros Hl Hp.
  destruct (ceil_div_bounds (Z.of_nat (length rows)) limit ltac:(lia))
    as (p & Hp' & Hb).
  assert (p = pages) as -> by congruence.
  assert (Hn : limit = Z.of_nat (Z.to_nat limit)) by lia.
  split.
  - rewrite Hn.
    erewrite (list_fmap_ext _ (λ i, take (Z.to_nat limit)
                                      (drop (i * Z.to_nat limit) rows))).
    2:{ intros i x _. apply skip_take_nat. }
    rewrite join_pages. apply take_ge. nia.
  - intros page Hpage. unfold skip_take. rewrite drop_ge; [by rewrite take_nil|].
    nia.
Qed.






Global Instance startTime_ASC_total : Total startTime_ASC.
Proof. intros a b. unfold startTime_ASC. lia. Qed.

Global Instance startTime_ASC_trans : Transitive startTime_ASC.
Proof. intros a b c. unfold startTime_ASC. lia. Qed.

Global Instance createdAt_ASC_total createdAt : Total (createdAt_ASC createdAt).
Proof. intros a b. unfold createdAt_ASC. lia. Qed.

Global Instance createdAt_ASC_trans createdAt :
  Transitive (createdAt_ASC createdAt).
Proof. intros a b c. unfold createdAt_ASC. lia. Qed.

(** An ordered listing of a table: the rows of the table, each once, in
    order. *)
Lemma sorted_listing {T} (R : relation (Entity T)) `{!∀ a b, Decision (R a b)}
    `{!Total R} `{!Transitive R} (t : gmap string T) :
  let rows := merge_sort R (map_to_list t) in
  StronglySorted R rows ∧ NoDup rows
  ∧ (∀ k x, (k, x) ∈ rows ↔ t !! k = Some x)
  ∧ length rows = size t.
Proof.
  intros rows. subst rows.
  pose proof (merge_sort_Permutation R (map_to_list t)) as Hp.
  split; [by apply StronglySorted_merge_sort|].
  split; [rewrite Hp; apply NoDup_map_to_list|].
  split; [intros k x; rewrite Hp; apply elem_of_map_to_list|].
  rewrite Hp. apply length_map_to_list.
Qed.

(** ** Listings *)

Lemma getEventsByArtist_run rejects artist pagination w :
  getEventsByArtist rejects artist pagination w
  = let page := default 1 (PaginationDto.page pagination) in
    let limit := default 20 (PaginationDto.limit pagination) in
    let rows :=
      merge_sort startTime_ASC
        (map_to_list (filter (λ kr, artistId kr.2 = artist) (events w))) in
    if rejects (EventRepo_findAndCount_artist artist ((page - 1) * limit) limit)
    then (Throw QueryFailedError, w)
    else (Ok (new_PaginatedResult (skip_take ((page - 1) * limit) limit rows)
                (Z.of_nat (length rows)) page limit), w).
Proof.
  unfold getEventsByArtist, eventRepo_findAndCount_artist, call_rest. unfold_M.
  cbn zeta. by destruct (rejects _).
Qed.

(** A listing in ascending order of values that are pairwise different is
    in strictly ascending order. *)
Lemma StronglySorted_strict {T} (f : T → Z) (l : list T) :
  StronglySorted (λ a b, f a ≤ f b) l → NoDup (f <$> l) →
  StronglySorted (λ a b, f a < f b) l.
Proof.
  induction 1 as [|x l Hs IH Hx]; intros Hnd; [constructor|].
  rewrite fmap_cons in Hnd. apply NoDup_cons in Hnd as [Hx' Hnd].
  constructor; [by apply IH|].
  apply Forall_forall. intros y Hy.
  rewrite Forall_forall in Hx. specialize (Hx y Hy). cbn in Hx.
  destruct (decide (f x = f y)) as [Heq|]; [|lia].
  destruct Hx'. rewrite Heq. apply list_elem_of_fmap. by exists y.
Qed.

(** X2: [getEventsByArtist] with a page size of at least 1, for the pages
    from 1 on that the store answers, when no two events of the artist
    start at the same instant and the numbers are safe integers.  There is
    one list of the stored events of the artist, past ones included, each
    once and by strictly ascending start: every page reports its length as
    [total] and the same page count, which is what the constructor computes
    in floating point and the least that holds the list; page [n] is the
    [n]-th slice of [limit] events of the list, so the pages 1 to
    [totalPages] one after the other are the list, and a later page is
    empty. *)
Theorem getEventsByArtist_pages rejects artist limit w :
  1 ≤ limit ≤ MAX_SAFE_INTEGER →
  Z.of_nat (size (events w)) ≤ MAX_SAFE_INTEGER →
  (∀ page, 1 ≤ page →
     rejects (EventRepo_findAndCount_artist artist ((page - 1) * limit) limit)
     = false) →
  NoDup (startTimes_of artist w) →
  let result page :=
    (getEventsByArtist rejects artist (page_dto page limit) w).1 in
  ∃ rows pages,
    StronglySorted startTime_lt rows
    ∧ (∀ id e, (id, e) ∈ rows ↔ events w !! id = Some e ∧ artistId e = artist)
    ∧ (pages - 1) * limit < Z.of_nat (length rows) ≤ pages * limit
    ∧ Math_ceil (Number_div (Number_of_Z (Z.of_nat (length rows)))
                   (Number_of_Z limit)) = Some pages
    ∧ (∀ page, 1 ≤ page → ∃ r, result page = Ok r
         ∧ total r = Z.of_nat (length rows)
         ∧ totalPages r = Some pages
         ∧ data r = take (Z.to_nat limit)
                      (drop (Z.to_nat (page - 1) * Z.to_nat limit) rows))
    ∧ mjoin ((λ i, result_data (result (Z.of_nat i + 1)))
             <$> seq 0 (Z.to_nat pages)) = rows
    ∧ (∀ page, pages < page → result_data (result page) = []).
Proof.
  intros Hl Hsize Hacc Hdist result.
  set (rows := merge_sort startTime_ASC
                 (map_to_list (filter (λ kr, artistId kr.2 = artist)
                                 (events w)))).
  destruct (sorted_listing startTime_ASC
              (filter (λ kr, artistId kr.2 = artist) (events w)))
    as (Hs & Hnd & Hin & Hlen).
  fold rows in Hs, Hnd, Hin, Hlen.
  assert (Hsafe : Z.of_nat (length rows) ≤ MAX_SAFE_INTEGER).
  { rewrite Hlen.
    pose proof (map_size_filter (λ kr : string * ArtistEvent,
                                   artistId kr.2 = artist) (events w)).
    lia. }
  destruct (ceil_div_bounds (Z.of_nat (length rows)) limit ltac:(lia))
    as (pages & Hp & Hb).
  assert (Hres : ∀ page, 1 ≤ page → result page
    = Ok (new_PaginatedResult (skip_take ((page - 1) * limit) limit rows)
            (Z.of_nat (length rows)) page limit)).
  { intros page Hpage. subst result. cbn beta.
    rewrite getEventsByArtist_run. cbn. by rewrite Hacc. }
  destruct (skip_take_pages rows limit pages ltac:(lia) Hp) as (Hjoin & Hlate).
  exists rows, pages. split_and!.
  - apply (StronglySorted_strict (λ kr, startTime kr.2)); [exact Hs|].
    unfold startTimes_of in Hdist. revert Hdist.
    apply NoDup_Permutation_proper. apply fmap_Permutation.
    apply merge_sort_Permutation.
  - intros id e. rewrite Hin, map_lookup_filter_Some. done.
  - lia.
  - lia.
  - rewrite Math_ceil_div_safe by lia. exact Hp.
  - intros page Hpage. eexists. split; [by apply Hres|]. split; [done|].
    split; [done|]. cbn. unfold skip_take. do 2 f_equal. nia.
  - etransitivity; [|exact Hjoin]. f_equal. apply list_fmap_ext.
    intros i x _. rewrite Hres by lia. done.
  - intros page Hpage. rewrite Hres by nia. cbn. by apply Hlate.
Qed.

Lemma getEventsByArtist_pages_witness :
  let result page :=
    (getEventsByArtist accepts "artist-1" (page_dto page 2)
       artist_events_world).1 in
  (∃ rows pages,
     StronglySorted startTime_lt rows
     ∧ (∀ id e, (id, e) ∈ rows ↔
          events artist_events_world !! id = Some e ∧ artistId e = "artist-1")
     ∧ (pages - 1) * 2 < Z.of_nat (length rows) ≤ pages * 2
     ∧ Math_ceil (Number_div (Number_of_Z (Z.of_nat (length rows)))
                    (Number_of_Z 2)) = Some pages
     ∧ (∀ page, 1 ≤ page → ∃ r, result page = Ok r
          ∧ total r = Z.of_nat (length rows)
          ∧ totalPages r = Some pages
          ∧ data r = take (Z.to_nat 2)
                       (drop (Z.to_nat (page - 1) * Z.to_nat 2) rows))
     ∧ mjoin ((λ i, result_data (result (Z.of_nat i + 1)))
              <$> seq 0 (Z.to_nat pages)) = rows
     ∧ (∀ page, pages < page → result_data (result page) = []))
  ∧ fst <$> result_data (result 1) = ["event-4"; "event-3"]
  ∧ fst <$> result_data (result 2) = ["event-1"]
  ∧ fst <$> result_data (result 3) = []
  ∧ match result 2 with
    | Ok r => total r = 3 ∧ totalPages r = Some 2
    | Throw _ => False
    end.
Proof.
  intros result. split; [|by vm_compute].
  apply (getEventsByArtist_pages accepts "artist-1" 2 artist_events_world).
  - by vm_compute.
  - by vm_compute.
  - intros page _. reflexivity.
  - apply (bool_decide_unpack _). by vm_compute.
Defined.



(** A feed of one followed artist: the event of the other artist and the
    event already started are left out. *)
Example getFeed_sample :
  let out := getFeed reliable (minutes 57) ["artist-1"; "artist-3"]
               (page_dto 1 20) two_events_world in
  (λ r, (data r, total r, totalPages r)) <$> (match out.1 with
                                              | Ok r => Some r
                                              | Throw _ => None
                                              end)
  = Some ([("event-1", sample_event "artist-1" (minutes 58) 3)], 1, Some 1)
  ∧ trace out.2
    = [EventRepo_findAndCount ["artist-1"; "artist-3"] (minutes 57) 0 20].
Proof. by vm_compute. Qed.




(** ** Creating, editing and deleting an event *)

(** Every outcome of [createEvent]. *)
Lemma createEvent_cases fails now uuid artist dto w :
  let out := createEvent fails now uuid artist dto w in
  let start := CreateEventDto.startTime dto in
  let end_ := CreateEventDto.endTime dto in
  let event := eventRepo_create artist dto start end_ in
  (∃ x, out.1 = Throw x ∧ events out.2 = events w ∧ rsvps out.2 = rsvps w
        ∧ (x = BadRequestException ∧ out.2 = w
             ∧ (start ≤ now ∨ ∃ t, end_ = Some t ∧ t ≤ start)
           ∨ x = QueryFailedError ∧ now < start
             ∧ (fails (EventRepo_save (uuid, event)) = true
                ∨ is_Some (events w !! uuid))))
  ∨ (out.1 = Ok (uuid, event)
     ∧ now < start ∧ (∀ t, end_ = Some t → start < t)
     ∧ events w !! uuid = None
     ∧ fails (EventRepo_save (uuid, event)) = false
     ∧ events out.2 = <[uuid := event]> (events w)
     ∧ rsvps out.2 = rsvps w).
Proof.
  intros out start end_ event. subst out. unfold createEvent.
  fold start end_ event.
  destruct (Z.leb_spec start now).
  { left. exists BadRequestException. split_and!; try done. left. eauto. }
  destruct end_ as [t|] eqn:Hend.
  - destruct (Z.leb_spec t start).
    { left. exists BadRequestException. split_and!; try done. left.
      split_and!; try done. right. by exists t. }
    unfold eventRepo_insert. unfold_M.
    destruct (fails _) eqn:Hf.
    { left. exists QueryFailedError. split_and!; try done. right. eauto. }
    cbn. destruct (events w !! uuid) eqn:Hk.
    { left. exists QueryFailedError. split_and!; try done. right. eauto. }
    right. split_and!; try done. by intros t' [= <-].
  - unfold eventRepo_insert. unfold_M.
    destruct (fails _) eqn:Hf.
    { left. exists QueryFailedError. split_and!; try done. right. eauto. }
    cbn. destruct (events w !! uuid) eqn:Hk.
    { left. exists QueryFailedError. split_and!; try done. right. eauto. }
    right. split_and!; try done.
Qed.

(** X5: [createEvent] succeeds exactly when the start is after [now], the
    end (if any) is after the start, the drawn key is not in use and the
    store accepts the insert.  Then the event is stored under the new key
    for the calling artist with [rsvpCount = 0] and [isVirtual] the DTO's
    flag or [false], every other event and every RSVP row is as before,
    and [getEvent] returns it.  A start at or before [now] or an end at or
    before the start is INVALID_STATE before any store call; every failure
    leaves both tables as they were. *)
Theorem createEvent_spec fails now uuid artist dto w :
  let out := createEvent fails now uuid artist dto w in
  let start := CreateEventDto.startTime dto in
  let end_ := CreateEventDto.endTime dto in
  let event := eventRepo_create artist dto start end_ in
  (out.1 = Ok (uuid, event)
   ↔ now < start ∧ (∀ t, end_ = Some t → start < t)
     ∧ events w !! uuid = None
     ∧ fails (EventRepo_save (uuid, event)) = false)
  ∧ (∀ ev, out.1 = Ok ev →
       ev = (uuid, event)
       ∧ artistId ev.2 = artist ∧ rsvpCount ev.2 = 0
       ∧ isVirtual ev.2 = default false (CreateEventDto.isVirtual dto)
       ∧ startTime ev.2 = start ∧ endTime ev.2 = end_
       ∧ events out.2 = <[uuid := event]> (events w)
       ∧ rsvps out.2 = rsvps w
       ∧ ∀ fails', fails' (EventRepo_findOne uuid) = false →
           (getEvent fails' uuid out.2).1 = Ok ev)
  ∧ (start ≤ now ∨ (∃ t, end_ = Some t ∧ t ≤ start) →
     out = (Throw INVALID_STATE, w))
  ∧ (∀ x, out.1 = Throw x →
       events out.2 = events w ∧ rsvps out.2 = rsvps w).
Proof.
  intros out start end_ event.
  pose proof (createEvent_cases fails now uuid artist dto w) as Hc.
  cbn zeta in Hc. fold start end_ event out in Hc.
  split_and!.
  - split.
    + intros Hok. destruct Hc as [(x & Hx & _)|Hc]; [congruence|].
      by destruct Hc as (_ & ? & ? & ? & ? & _).
    + intros (Hs & He & Hk & Hf).
      destruct Hc as [(x & Hx & _ & _ & Hwhy)|Hc]; [|by destruct Hc].
      destruct Hwhy as [(_ & _ & [Hs'|(t & Ht & Hle)])|(_ & _ & [Hf'|Hk'])].
      * lia.
      * specialize (He t Ht). lia.
      * congruence.
      * rewrite Hk in Hk'. by destruct Hk'.
  - intros ev Hok. destruct Hc as [(x & Hx & _)|Hc]; [congruence|].
    destruct Hc as (Hres & _ & _ & Hk & _ & Hev & Hrs).
    assert (ev = (uuid, event)) as -> by congruence.
    split_and!; try done. intros fails' Hf'.
    rewrite (getEvent_found _ _ _ event); [done|done|].
    rewrite Hev. apply lookup_insert_eq.
  - intros Hbad. subst out. unfold createEvent. fold start end_.
    destruct (Z.leb_spec start now); [done|].
    destruct Hbad as [?|(t & -> & Hle)]; [lia|].
    by destruct (Z.leb_spec t start); [|lia].
  - intros x Hx. destruct Hc as [(x' & _ & Hev & Hrs & _)|Hc]; [done|].
    destruct Hc as (Hres & _). congruence.
Qed.

(** Every outcome of [updateEvent]. *)
Lemma updateEvent_cases fails eid artist dto w :
  let out := updateEvent fails eid artist dto w in
  (∃ x, out.1 = Throw x ∧ events out.2 = events w ∧ rsvps out.2 = rsvps w)
  ∨ (∃ e, events w !! eid = Some e ∧ artistId e = artist
        ∧ let start := default (startTime e) (UpdateEventDto.startTime dto) in
          let end_ :=
            from_option Some (endTime e) (UpdateEventDto.endTime dto) in
          (∀ t, end_ = Some t → start < t)
          ∧ out.1 = Ok (eid, Object_assign e dto start end_)
          ∧ events out.2 = <[eid := Object_assign e dto start end_]> (events w)
          ∧ rsvps out.2 = rsvps w).
Proof.
  intros out. subst out.
  destruct (fails (EventRepo_findOne eid)) eqn:Hf.
  { left. unfold updateEvent. unfold_M. rewrite getEvent_rejected by done.
    eauto. }
  destruct (events w !! eid) as [e|] eqn:He.
  2:{ left. unfold updateEvent. unfold_M. rewrite getEvent_missing by done.
      eauto. }
  rewrite (updateEvent_loaded _ _ _ _ _ e) by done. cbn zeta.
  case_bool_decide as Hown; [left; eauto|].
  assert (artistId e = artist) by (by destruct (decide (artistId e = artist))).
  destruct (from_option Some (endTime e) (UpdateEventDto.endTime dto))
    as [t|] eqn:Hend.
  - destruct (Z.leb_spec t (default (startTime e) (UpdateEventDto.startTime dto)));
      [left; eauto|].
    unfold eventRepo_save. unfold_M.
    destruct (fails (EventRepo_save _)); [left; eauto|].
    right. exists e. cbn. rewrite Hend. split_and!; try done.
    by intros t' [= <-].
  - unfold eventRepo_save. unfold_M.
    destruct (fails (EventRepo_save _)); [left; eauto|].
    right. exists e. cbn. rewrite Hend. split_and!; try done.
Qed.

(** X6: [updateEvent] is for the owner.  With the lookup answered, a
    missing event is NOT_FOUND and an event of another artist is FORBIDDEN;
    the call succeeds exactly for the owner of a stored event whose
    effective end, if any, is after the effective start, when the store
    accepts the save.  Whatever happens, no RSVP row and no other event
    changes and no event appears or disappears; a failure changes nothing
    at all.  On success the event returned is the one stored, its owner and
    its counter are the stored ones, and each of the nine fields of the DTO
    takes the DTO's value when the DTO has one and keeps the stored value
    otherwise. *)
Theorem updateEvent_owner_only fails eid artist dto w :
  fails (EventRepo_findOne eid) = false →
  let out := updateEvent fails eid artist dto w in
  (events w !! eid = None → out.1 = Throw NOT_FOUND)
  ∧ (∀ e, events w !! eid = Some e → artistId e ≠ artist →
       out.1 = Throw FORBIDDEN)
  ∧ (∀ e, events w !! eid = Some e → artistId e = artist →
       (∀ t, from_option Some (endTime e) (UpdateEventDto.endTime dto) = Some t →
             default (startTime e) (UpdateEventDto.startTime dto) < t) →
       (∀ ev, fails (EventRepo_save ev) = false) →
       ∃ ev, out.1 = Ok ev)
  ∧ rsvps out.2 = rsvps w
  ∧ (∀ eid', eid' ≠ eid → events out.2 !! eid' = events w !! eid')
  ∧ (is_Some (events out.2 !! eid) ↔ is_Some (events w !! eid))
  ∧ (∀ x, out.1 = Throw x → events out.2 = events w)
  ∧ (∀ ev, out.1 = Ok ev →
       ∃ e, events w !! eid = Some e ∧ events out.2 !! eid = Some ev.2
         ∧ ev.1 = eid
         ∧ artistId ev.2 = artistId e ∧ artistId e = artist
         ∧ (∀ t, endTime ev.2 = Some t → startTime ev.2 < t)
         ∧ fails (EventRepo_save ev) = false
         ∧ rsvpCount ev.2 = rsvpCount e
         ∧ title ev.2 = default (title e) (UpdateEventDto.title dto)
         ∧ description ev.2
           = default (description e) (UpdateEventDto.description dto)
         ∧ eventType ev.2 = default (eventType e) (UpdateEventDto.eventType dto)
         ∧ startTime ev.2 = default (startTime e) (UpdateEventDto.startTime dto)
         ∧ endTime ev.2
           = match UpdateEventDto.endTime dto with
             | Some t => Some t
             | None => endTime e
             end
         ∧ venue ev.2
           = match UpdateEventDto.venue dto with
             | Some v => Some v
             | None => venue e
             end
         ∧ streamUrl ev.2
           = match UpdateEventDto.streamUrl dto with
             | Some u => Some u
             | None => streamUrl e
             end
         ∧ ticketUrl ev.2
           = match UpdateEventDto.ticketUrl dto with
             | Some u => Some u
             | None => ticketUrl e
             end
         ∧ isVirtual ev.2 = default (isVirtual e) (UpdateEventDto.isVirtual dto)).
Proof.
  intros Hf out.
  pose proof (updateEvent_cases fails eid artist dto w) as Hc.
  cbn zeta in Hc. fold out in Hc.
  split_and!.
  - intros He. subst out. unfold updateEvent. unfold_M.
    by rewrite getEvent_missing.
  - intros e He Hne. subst out.
    rewrite (updateEvent_loaded _ _ _ _ _ e) by done. cbn zeta.
    by rewrite bool_decide_eq_true_2.
  - clear Hc. subst out. intros e He Hown Hord Hsave.
    rewrite (updateEvent_loaded _ _ _ _ _ e) by done. cbn zeta.
    rewrite bool_decide_eq_false_2 by (by intros ?).
    destruct (from_option Some (endTime e) (UpdateEventDto.endTime dto))
      as [t|] eqn:Hend.
    + specialize (Hord t eq_refl).
      destruct (Z.leb_spec t
                  (default (startTime e) (UpdateEventDto.startTime dto)));
        [lia|].
      unfold eventRepo_save. unfold_M. rewrite Hsave. eauto.
    + unfold eventRepo_save. unfold_M. rewrite Hsave. eauto.
  - destruct Hc as [(x & _ & _ & Hrs)|(e & _ & _ & _ & _ & _ & Hrs)]; done.
  - intros eid' Hne.
    destruct Hc as [(x & _ & -> & _)|(e & _ & _ & _ & _ & -> & _)]; [done|].
    by rewrite lookup_insert_ne.
  - destruct Hc as [(x & _ & -> & _)|(e & He & _ & _ & _ & -> & _)]; [done|].
    rewrite lookup_insert_eq, He. split; eauto.
  - intros x Hx.
    destruct Hc as [(x' & _ & Hev & _)|(e & _ & _ & _ & Hok & _)]; [done|].
    congruence.
  - intros ev Hok.
    destruct Hc as [(x & Hx & _)|(e & He & Ha & Hord & Hres & Hev & _)];
      [congruence|].
    assert (ev = (eid, Object_assign e dto
                         (default (startTime e) (UpdateEventDto.startTime dto))
                         (from_option Some (endTime e)
                            (UpdateEventDto.endTime dto)))) as Hev' by congruence.
    assert (Hacc : fails (EventRepo_save ev) = false).
    { subst out. rewrite (updateEvent_loaded _ _ _ _ _ e) in Hok by done.
      cbn zeta in Hok. rewrite <- Hev' in Hok.
      destruct (bool_decide _); [done|].
      destruct (match from_option Some (endTime e) (UpdateEventDto.endTime dto)
                with Some t => _ | None => _ end); [done|].
      revert Hok. unfold eventRepo_save. unfold_M.
      by destruct (fails (EventRepo_save ev)). }
    clear Hok Hres. subst ev.
    exists e. rewrite Hev, lookup_insert_eq. cbn.
    split_and!; try done.
Qed.

Lemma updateEvent_owner_only_witness :
  (updateEvent reliable "event-0" "artist-1" venue_dto sample_world).1
  = Throw NOT_FOUND
  ∧ (updateEvent reliable "event-1" "artist-2" venue_dto sample_world).1
    = Throw FORBIDDEN
  ∧ rsvps (updateEvent reliable "event-1" "artist-1" venue_dto
             sample_world).2 = rsvps sample_world
  ∧ ∃ ev, (updateEvent reliable "event-1" "artist-1" venue_dto
             sample_world).1 = Ok ev
      ∧ title ev.2 = "Moved" ∧ description ev.2 = "desc"
      ∧ eventType ev.2 = LIVE_STREAM ∧ startTime ev.2 = minutes 58
      ∧ endTime ev.2 = Some (minutes 120) ∧ venue ev.2 = Some "Hall 2"
      ∧ streamUrl ev.2 = None ∧ ticketUrl ev.2 = Some "https://tickets"
      ∧ isVirtual ev.2 = false ∧ rsvpCount ev.2 = 3.
Proof.
  split_and!.
  - destruct (updateEvent_owner_only reliable "event-0" "artist-1"
                venue_dto sample_world eq_refl) as (H & _).
    apply H. reflexivity.
  - destruct (updateEvent_owner_only reliable "event-1" "artist-2"
                venue_dto sample_world eq_refl) as (_ & H & _).
    apply (H (sample_event "artist-1" (minutes 58) 3)); [reflexivity|].
    intros [=].
  - destruct (updateEvent_owner_only reliable "event-1" "artist-1"
                venue_dto sample_world eq_refl) as (_ & _ & _ & H & _).
    exact H.
  - destruct (updateEvent_owner_only reliable "event-1" "artist-1"
                venue_dto sample_world eq_refl)
      as (_ & _ & Hok & _ & _ & _ & _ & Hfields).
    destruct (Hok (sample_event "artist-1" (minutes 58) 3)) as [ev Hev].
    { reflexivity. }
    { reflexivity. }
    { intros t [= <-]. by vm_compute. }
    { intros ev. reflexivity. }
    exists ev. split; [exact Hev|].
    destruct (Hfields ev Hev)
      as (e & He & _ & _ & _ & _ & _ & _ & Hc & Ht & Hd & Hty & Hs & Hen & Hv
          & Hsu & Htu & Hiv).
    assert (e = sample_event "artist-1" (minutes 58) 3) as ->
      by (apply (inj Some); rewrite <- He; reflexivity).
    split_and!; assumption.
Defined.

(** Every outcome of [deleteEvent]. *)
Lemma deleteEvent_cases fails rejects eid artist w :
  let out := deleteEvent fails rejects eid artist w in
  (∃ x, out.1 = Throw x ∧ events out.2 = events w ∧ rsvps out.2 = rsvps w)
  ∨ (∃ e, events w !! eid = Some e ∧ artistId e = artist
        ∧ rejects (EventRepo_remove (eid, e)) = false
        ∧ out.1 = Ok ()
        ∧ events out.2 = delete eid (events w)
        ∧ rsvps out.2 = filter (λ kr, eventId kr.2 ≠ eid) (rsvps w)).
Proof.
  intros out. subst out. unfold deleteEvent. unfold_M.
  destruct (fails (EventRepo_findOne eid)) eqn:Hf.
  { left. rewrite getEvent_rejected by done. eauto. }
  destruct (events w !! eid) as [e|] eqn:He.
  2:{ left. rewrite getEvent_missing by done. eauto. }
  rewrite (getEvent_found _ _ _ e) by done. cbn.
  case_bool_decide as Hown; [left; eauto|].
  assert (artistId e = artist) by (by destruct (decide (artistId e = artist))).
  unfold eventRepo_remove, call_rest.
  destruct (rejects _) eqn:Hr; [left; eauto|].
  right. exists e. done.
Qed.

(** X7: [deleteEvent] is for the owner.  With the lookup answered, a
    missing event is NOT_FOUND and an event of another artist is FORBIDDEN;
    a failure changes nothing.  When the owner deletes, the event is gone,
    every other event is as before, the RSVP rows left are exactly the rows
    of the other events, and afterwards the event is NOT_FOUND for
    [getEvent] and no user has an RSVP for it. *)
Theorem deleteEvent_owner_cascade fails rejects eid artist w :
  fails (EventRepo_findOne eid) = false →
  let out := deleteEvent fails rejects eid artist w in
  (events w !! eid = None → out.1 = Throw NOT_FOUND)
  ∧ (∀ e, events w !! eid = Some e → artistId e ≠ artist →
       out.1 = Throw FORBIDDEN)
  ∧ (∀ x, out.1 = Throw x →
       events out.2 = events w ∧ rsvps out.2 = rsvps w)
  ∧ (∀ e, events w !! eid = Some e → artistId e = artist →
       rejects (EventRepo_remove (eid, e)) = false →
       out.1 = Ok ())
  ∧ (out.1 = Ok () →
       events out.2 !! eid = None
       ∧ (∀ eid', eid' ≠ eid → events out.2 !! eid' = events w !! eid')
       ∧ (∀ k r, rsvps out.2 !! k = Some r ↔
            rsvps w !! k = Some r ∧ eventId r ≠ eid)
       ∧ (∀ uid, ¬ has_rsvp eid uid out.2)
       ∧ (∀ fails', fails' (EventRepo_findOne eid) = false →
            (getEvent fails' eid out.2).1 = Throw NOT_FOUND)).
Proof.
  intros Hf out.
  pose proof (deleteEvent_cases fails rejects eid artist w) as Hc.
  cbn zeta in Hc. fold out in Hc.
  split_and!.
  - intros He. subst out. unfold deleteEvent. unfold_M.
    by rewrite getEvent_missing.
  - intros e He Hne. subst out. unfold deleteEvent. unfold_M.
    rewrite (getEvent_found _ _ _ e) by done. cbn.
    by rewrite bool_decide_eq_true_2.
  - intros x Hx.
    destruct Hc as [(x' & _ & Hev & Hrs)|(e & _ & _ & _ & Hok & _)]; [done|].
    congruence.
  - intros e He Ha Hr. subst out. unfold deleteEvent. unfold_M.
    rewrite (getEvent_found _ _ _ e) by done. cbn.
    rewrite bool_decide_eq_false_2 by (intros ?; congruence).
    unfold eventRepo_remove, call_rest. by rewrite Hr.
  - intros Hok.
    destruct Hc as [(x & Hx & _)|(e & He & Ha & _ & _ & Hev & Hrs)];
      [congruence|].
    assert (Hrows : ∀ k r, rsvps out.2 !! k = Some r ↔
                      rsvps w !! k = Some r ∧ eventId r ≠ eid).
    { intros k r. rewrite Hrs, map_lookup_filter_Some. done. }
    split_and!.
    + rewrite Hev. apply lookup_delete_eq.
    + intros eid' Hne. rewrite Hev. by apply lookup_delete_ne.
    + exact Hrows.
    + intros uid (k & r & Hk & He' & _). apply Hrows in Hk as [_ Hk]. done.
    + intros fails' Hf'. rewrite getEvent_missing; [done|done|].
      rewrite Hev. apply lookup_delete_eq.
Qed.

Lemma deleteEvent_owner_cascade_witness :
  let out := deleteEvent reliable accepts "event-1" "artist-1" two_events_world in
  out.1 = Ok ()
  ∧ events out.2 !! "event-1" = None
  ∧ (∀ k r, rsvps out.2 !! k = Some r ↔
       rsvps two_events_world !! k = Some r ∧ eventId r ≠ "event-1")
  ∧ (deleteEvent reliable accepts "event-1" "artist-2" two_events_world).1
    = Throw FORBIDDEN.
Proof.
  intros out.
  destruct (deleteEvent_owner_cascade reliable accepts "event-1" "artist-1"
              two_events_world eq_refl) as (_ & _ & _ & Hok & Heff).
  fold out in Hok, Heff.
  assert (Hres : out.1 = Ok ()).
  { apply (Hok (sample_event "artist-1" (minutes 58) 3)); reflexivity. }
  destruct (Heff Hres) as (Hgone & _ & Hrows & _).
  split; [exact Hres|]. split; [exact Hgone|]. split; [exact Hrows|].
  destruct (deleteEvent_owner_cascade reliable accepts "event-1" "artist-2"
              two_events_world eq_refl) as (_ & H & _).
  apply (H (sample_event "artist-1" (minutes 58) 3)); [reflexivity|].
  intros [=].
Defined.

(** The delete of the sample: the three rows of the first event go with
    it, the row of the second event stays. *)
Example deleteEvent_sample :
  let out := deleteEvent reliable accepts "event-1" "artist-1" two_events_world in
  out.1 = Ok ()
  ∧ map_to_list (events out.2)
    = [("event-2", sample_event "artist-2" (minutes 57) 1)]
  ∧ map_to_list (rsvps out.2)
    = [("rsvp-4", sample_rsvp "event-2" "user-2" true false)].
Proof. by vm_compute. Qed.

(** ** Store invariants *)

Lemma same_attendance_refl t : same_attendance t t.
Proof. by intros k. Qed.

Lemma same_attendance_lookup t t' k r' :
  same_attendance t t' → t' !! k = Some r' →
  ∃ r, t !! k = Some r ∧ eventId r = eventId r' ∧ userId r = userId r'.
Proof.
  intros Hs Hk. specialize (Hs k). rewrite Hk in Hs. cbn in Hs.
  destruct (t !! k) as [r|]; [|done]. injection Hs as He Hu. by exists r.
Qed.

Lemma same_attendance_size eid t t' :
  same_attendance t t' → size (rsvps_of eid t') = size (rsvps_of eid t).
Proof.
  intros Hs.
  rewrite <- (size_dom (rsvps_of eid t')), <- (size_dom (rsvps_of eid t)).
  f_equal.
  apply set_eq. intros k. rewrite !elem_of_dom. unfold rsvps_of, is_Some.
  setoid_rewrite map_lookup_filter_Some. cbn.
  specialize (Hs k). split.
  - intros (r' & Hk & He). rewrite Hk in Hs. cbn in Hs.
    destruct (t !! k) as [r|]; [|done]. injection Hs as He' Hu.
    exists r. split; [done|congruence].
  - intros (r & Hk & He). rewrite Hk in Hs. cbn in Hs.
    destruct (t' !! k) as [r'|]; [|done]. injection Hs as He' Hu.
    exists r'. split; [done|congruence].
Qed.

Lemma mark_sent_same_attendance ids t : same_attendance t (mark_sent ids t).
Proof.
  intros k. rewrite lookup_mark_sent. destruct (t !! k) as [r|]; [|done].
  cbn. by destruct (bool_decide _).
Qed.

(** The invariants read the events and, of the rows, their keys, events
    and users. *)
Lemma consistent_same_attendance w w' :
  events w' = events w → same_attendance (rsvps w) (rsvps w') →
  consistent w → consistent w'.
Proof.
  intros Hev Hs (Href & Huq & Hcnt & Hend). split_and!.
  - intros k r' Hk.
    destruct (same_attendance_lookup _ _ _ _ Hs Hk) as (r & Hr & He & _).
    rewrite Hev, <- He. by apply (Href k).
  - intros k k' r1 r2 Hk Hk' He Hu.
    destruct (same_attendance_lookup _ _ _ _ Hs Hk) as (r & Hr & He1 & Hu1).
    destruct (same_attendance_lookup _ _ _ _ Hs Hk') as (r' & Hr' & He2 & Hu2).
    apply (Huq k k' r r'); congruence.
  - intros eid e He. rewrite Hev in He. unfold attendees.
    rewrite (same_attendance_size eid _ _ Hs). by apply Hcnt.
  - intros eid e t He. rewrite Hev in He. by apply (Hend eid).
Qed.

Lemma consistent_unchanged w w' :
  events w' = events w → rsvps w' = rsvps w → consistent w → consistent w'.
Proof.
  intros Hev Hrs. apply consistent_same_attendance; [done|].
  rewrite Hrs. apply same_attendance_refl.
Qed.

Lemma consistent_empty : consistent empty_world.
Proof.
  split_and!.
  - intros k r Hk. cbn in Hk. by rewrite lookup_empty in Hk.
  - intros k k' r r' Hk. cbn in Hk. by rewrite lookup_empty in Hk.
  - intros eid e He. cbn in He. by rewrite lookup_empty in He.
  - intros eid e t He. cbn in He. by rewrite lookup_empty in He.
Qed.

Lemma no_rows_of_missing_event eid w :
  references_ok w → events w !! eid = None → attendees eid w = 0.
Proof.
  intros Href He. unfold attendees.
  assert (rsvps_of eid (rsvps w) = ∅) as ->; [|by rewrite map_size_empty].
  apply map_empty. intros k. apply map_lookup_filter_None. right.
  intros r Hk Heq. cbn in Heq. destruct (Href k r Hk) as [e He'].
  rewrite Heq in He'. congruence.
Qed.

Lemma createEvent_consistent fails now uuid artist dto w :
  consistent w → consistent (createEvent fails now uuid artist dto w).2.
Proof.
  intros Hc.
  destruct (createEvent_cases fails now uuid artist dto w)
    as [(x & _ & Hev & Hrs & _)|(_ & Hs & He & Hk & _ & Hev & Hrs)].
  { by apply (consistent_unchanged w). }
  destruct Hc as (Href & Huq & Hcnt & Hend). split_and!.
  - intros k r Hr. rewrite Hrs in Hr. rewrite Hev.
    apply lookup_insert_is_Some'. right. by apply (Href k).
  - intros k k' r r'. rewrite !Hrs. apply Huq.
  - intros eid e. rewrite Hev. unfold attendees. rewrite Hrs.
    rewrite lookup_insert. case_decide as Heq.
    + subst eid. intros [= <-]. cbn.
      by rewrite <- (no_rows_of_missing_event uuid w).
    + apply Hcnt.
  - intros eid e t. rewrite Hev, lookup_insert. case_decide as Heq.
    + intros [= <-]. cbn. apply He.
    + apply Hend.
Qed.

Lemma updateEvent_consistent fails eid artist dto w :
  consistent w → consistent (updateEvent fails eid artist dto w).2.
Proof.
  intros Hc.
  destruct (updateEvent_cases fails eid artist dto w)
    as [(x & _ & Hev & Hrs)|(e & He & _ & Hord & _ & Hev & Hrs)].
  { by apply (consistent_unchanged w). }
  cbn zeta in Hord. destruct Hc as (Href & Huq & Hcnt & Hend). split_and!.
  - intros k r Hr. rewrite Hrs in Hr. rewrite Hev.
    apply lookup_insert_is_Some'. right. by apply (Href k).
  - intros k k' r r'. rewrite !Hrs. apply Huq.
  - intros eid' e'. rewrite Hev. unfold attendees. rewrite Hrs.
    rewrite lookup_insert. case_decide as Heq.
    + subst eid'. intros [= <-]. cbn. by apply Hcnt.
    + apply Hcnt.
  - intros eid' e' t. rewrite Hev, lookup_insert. case_decide as Heq.
    + intros [= <-]. cbn. apply Hord.
    + apply Hend.
Qed.

Lemma deleteEvent_consistent fails rejects eid artist w :
  consistent w → consistent (deleteEvent fails rejects eid artist w).2.
Proof.
  intros Hc.
  destruct (deleteEvent_cases fails rejects eid artist w)
    as [(x & _ & Hev & Hrs)|(e & He & _ & _ & _ & Hev & Hrs)].
  { by apply (consistent_unchanged w). }
  destruct Hc as (Href & Huq & Hcnt & Hend). split_and!.
  - intros k r. rewrite Hrs, Hev, map_lookup_filter_Some. cbn.
    intros [Hr Hne]. rewrite lookup_delete_ne by done. by apply (Href k).
  - intros k k' r r'. rewrite !Hrs, !map_lookup_filter_Some.
    intros [Hr _] [Hr' _]. by apply Huq.
  - intros eid' e'. rewrite Hev, lookup_delete_Some. intros [Hne He'].
    unfold attendees, rsvps_of. rewrite Hrs, map_filter_filter.
    rewrite (Hcnt eid' e' He'). unfold attendees, rsvps_of. do 2 f_equal.
    apply map_filter_ext. intros k r _. cbn. split; [|tauto].
    intros Heq. split; [done|congruence].
  - intros eid' e' t. rewrite Hev, lookup_delete_Some. intros [_ He'].
    by apply (Hend eid').
Qed.

Lemma rsvp_consistent fails now uuid eid uid dto w :
  consistent w → consistent (rsvp fails now uuid eid uid dto w).2.
Proof.
  intros Hc.
  destruct (rsvp_cases fails now uuid eid uid dto w)
    as [(x & _ & Hev & Hrs)|(e & _ & He & _ & Hno & Hpk & Hrs & Hev)].
  { by apply (consistent_unchanged w). }
  destruct Hc as (Href & Huq & Hcnt & Hend). split_and!.
  - intros k r. rewrite Hrs, Hev, lookup_insert. case_decide as Heq.
    + intros [= <-]. cbn. rewrite lookup_insert_eq. eauto.
    + intros Hr. apply lookup_insert_is_Some'. right. by apply (Href k).
  - intros k k' r r'. rewrite Hrs, !lookup_insert.
    case_decide as Hk; case_decide as Hk'; try congruence.
    + intros [= <-] Hr' He' Hu'. cbn in He', Hu'. destruct Hno.
      exists k', r'. done.
    + intros Hr [= <-] He' Hu'. cbn in He', Hu'. destruct Hno.
      exists k, r. done.
    + apply Huq.
  - intros eid' e' He'.
    destruct (rsvp_counter_ok fails now uuid eid uid dto eid' w)
      as (e'' & He'' & Hc'').
    + rewrite Hev in He'. apply lookup_insert_Some in He' as [[<- _]|[_ He']].
      * exists e. split; [done|]. by apply Hcnt.
      * exists e'. split; [done|]. by apply Hcnt.
    + congruence.
  - intros eid' e' t. rewrite Hev, lookup_insert. case_decide as Heq.
    + intros [= <-]. cbn. by apply (Hend eid).
    + apply Hend.
Qed.

Lemma unRsvp_consistent fails eid uid w :
  consistent w → consistent (unRsvp fails eid uid w).2.
Proof.
  intros Hc.
  destruct (unRsvp_cases fails eid uid w)
    as [(x & _ & Hev & Hrs)|(k0 & r0 & _ & Hk0 & _ & _ & Hrs & Hev)].
  { by apply (consistent_unchanged w). }
  destruct Hc as (Href & Huq & Hcnt & Hend). split_and!.
  - intros k r. rewrite Hrs, Hev, lookup_delete_Some. intros [_ Hr].
    apply lookup_alter_is_Some. by apply (Href k).
  - intros k k' r r'. rewrite Hrs, !lookup_delete_Some.
    intros [_ Hr] [_ Hr']. by apply Huq.
  - intros eid' e' He'.
    destruct (unRsvp_counter_ok fails eid uid eid' w) as (e'' & He'' & Hc'').
    + assert (is_Some (events w !! eid')) as [e1 He1].
      { rewrite Hev in He'. eapply lookup_alter_is_Some. eauto. }
      exists e1. split; [done|]. by apply Hcnt.
    + congruence.
  - intros eid' e' t. rewrite Hev, lookup_alter_Some.
    intros [(<- & e1 & He1 & ->)|[_ He1]]; [|by apply (Hend eid')].
    cbn. by apply (Hend eid).
Qed.

Lemma markReminderSent_run fails rsvpIds w :
  markReminderSent fails rsvpIds w
  = if (length rsvpIds =? 0)%nat then (Ok (), w)
    else if fails (RsvpRepo_update rsvpIds)
    then (Throw QueryFailedError, log_call (RsvpRepo_update rsvpIds) w)
    else (Ok (), set_rsvps (mark_sent rsvpIds (rsvps w))
                   (log_call (RsvpRepo_update rsvpIds) w)).
Proof.
  unfold markReminderSent, rsvpRepo_update. unfold_M.
  destruct (length rsvpIds =? 0)%nat; [done|]. by destruct (fails _).
Qed.

Lemma markReminderSent_consistent fails rsvpIds w :
  consistent w → consistent (markReminderSent fails rsvpIds w).2.
Proof.
  rewrite markReminderSent_run.
  destruct (length rsvpIds =? 0)%nat; [done|].
  destruct (fails _); cbn.
  - by apply consistent_unchanged.
  - apply consistent_same_attendance; [done|]. apply mark_sent_same_attendance.
Qed.

(** ** What a sweep writes and calls *)

Lemma sendEventReminders_rejected fails now w :
  fails (EventRepo_getMany (now + 55 * 60 * 1000) (now + 60 * 60 * 1000))
  = true →
  sendEventReminders fails now w
  = (Throw QueryFailedError,
     log_call (EventRepo_getMany (now + 55 * 60 * 1000) (now + 60 * 60 * 1000))
       w).
Proof.
  intros Hf. unfold sendEventReminders. unfold mbind, M_bind, bind.
  rewrite getEventsStartingSoon_run. cbn zeta. by rewrite Hf.
Qed.

(** The tables after a sweep, whatever is rejected. *)
Lemma sendEventReminders_tables fails now w :
  let out := sendEventReminders fails now w in
  let getMany :=
    EventRepo_getMany (now + 55 * 60 * 1000) (now + 60 * 60 * 1000) in
  events out.2 = events w
  ∧ (∀ k, rsvps out.2 !! k
          = (λ r, if negb (fails getMany) && marked fails (candidates now w) w k
                  then set_reminderSent true r else r) <$> rsvps w !! k)
  ∧ out.1 = (if fails getMany then Throw QueryFailedError else Ok ()).
Proof.
  intros out getMany. subst out.
  destruct (fails getMany) eqn:Hf.
  - subst getMany. rewrite sendEventReminders_rejected by done. cbn.
    split_and!; try done. intros k. by destruct (rsvps w !! k).
  - destruct (sendEventReminders_run fails now w Hf) as (Hres & Hev & Hrs & _).
    split_and!; done.
Qed.

Lemma marked_pending fails now w k r :
  marked fails (candidates now w) w k = true → rsvps w !! k = Some r →
  reminderEnabled r = true ∧ reminderSent r = false
  ∧ ∃ e, (eventId r, e) ∈ candidates now w.
Proof.
  intros Hm Hr. apply marked_true in Hm as ([id e] & Hin & _ & Hk).
  apply elem_of_rsvpIds_of in Hk as (r' & Hr' & Hid & Hen & Hse).
  assert (r' = r) as -> by congruence. cbn in Hid. subst id. eauto.
Qed.

(** X8: all a sweep writes is [reminderSent = true] on rows that had
    [reminderEnabled = true] and [reminderSent = false] and belong to
    selected events.  Whatever is rejected, it leaves the events as they
    are, adds and deletes no row, and changes no other row and no other
    column; a row already marked stays marked.  It throws only when its
    selection query is rejected, and then it has written nothing. *)
Theorem sweep_marks_only fails now w :
  let out := sendEventReminders fails now w in
  events out.2 = events w
  ∧ marks_only (rsvps w) (rsvps out.2)
  ∧ (∀ k r, rsvps w !! k = Some r → rsvps out.2 !! k ≠ Some r →
       ∃ e, events w !! eventId r = Some e
            ∧ now + 55 * 60 * 1000 < startTime e ≤ now + 60 * 60 * 1000)
  ∧ (∀ k r, rsvps w !! k = Some r → reminderSent r = true →
       rsvps out.2 !! k = Some r)
  ∧ (out.1 = Ok ()
     ∨ out.1 = Throw TRANSIENT_STORE_FAILURE
       ∧ fails (EventRepo_getMany (now + 55 * 60 * 1000)
                  (now + 60 * 60 * 1000)) = true
       ∧ rsvps out.2 = rsvps w).
Proof.
  intros out.
  destruct (sendEventReminders_tables fails now w) as (Hev & Hrs & Hres).
  fold out in Hev, Hrs, Hres.
  assert (Hrow : ∀ k r, rsvps w !! k = Some r →
            rsvps out.2 !! k = Some r
            ∨ (rsvps out.2 !! k = Some (set_reminderSent true r)
               ∧ marked fails (candidates now w) w k = true)).
  { intros k r Hr. rewrite Hrs, Hr. cbn.
    destruct (negb _); cbn; [|by left].
    destruct (marked _ _ _ _); [by right|by left]. }
  split_and!.
  - done.
  - intros k. destruct (rsvps w !! k) as [r|] eqn:Hr.
    + destruct (Hrow k r Hr) as [->|[-> Hm]]; [by left|]. right.
      destruct (marked_pending fails now w k r Hm Hr) as (? & ? & _). done.
    + by rewrite Hrs, Hr.
  - intros k r Hr Hne. destruct (Hrow k r Hr) as [?|[_ Hm]]; [done|].
    destruct (marked_pending fails now w k r Hm Hr) as (_ & _ & e & Hin).
    exists e. by apply elem_of_candidates.
  - intros k r Hr Hsent. destruct (Hrow k r Hr) as [?|[_ Hm]]; [done|].
    destruct (marked_pending fails now w k r Hm Hr) as (_ & ? & _).
    congruence.
  - rewrite Hres. destruct (fails _) eqn:Hf; [right|by left].
    split_and!; try done. apply map_eq. intros k. rewrite Hrs. cbn.
    by destruct (rsvps w !! k).
Qed.

Lemma reminder_calls_sound fails now w ev c :
  ev ∈ candidates now w →
  c ∈ reminder_calls fails ev (pending ev.1 w) → sweep_call now w c.
Proof.
  intros Hev. unfold reminder_calls.
  assert (Hne : (length (pending ev.1 w) =? 0)%nat = false →
            userIds_of (pending ev.1 w) ≠ []
            ∧ rsvpIds_of (pending ev.1 w) ≠ []).
  { destruct (pending ev.1 w); [done|]. done. }
  intros [->|Hin]%elem_of_cons.
  { cbn. exists ev.2. by destruct ev. }
  destruct (fails (RsvpRepo_find ev.1)); cbn [orb] in Hin;
    [by apply elem_of_nil in Hin|].
  destruct (length (pending ev.1 w) =? 0)%nat eqn:Hlen;
    [by apply elem_of_nil in Hin|].
  destruct (Hne eq_refl) as [Hu Hi].
  apply elem_of_cons in Hin as [->|Hin]; [done|].
  destruct (fails (Notifications_sendEventReminders _ _));
    [by apply elem_of_nil in Hin|].
  apply list_elem_of_singleton in Hin as ->. cbn. by exists ev.
Qed.

Lemma sweep_trace_sound fails now w :
  ∃ calls, trace (sendEventReminders fails now w).2 = trace w ++ calls
           ∧ Forall (sweep_call now w) calls.
Proof.
  destruct (fails (EventRepo_getMany (now + 55 * 60 * 1000)
                     (now + 60 * 60 * 1000))) eqn:Hf.
  - rewrite sendEventReminders_rejected by done. eexists. split; [done|].
    by repeat constructor.
  - destruct (sendEventReminders_run fails now w Hf) as (_ & _ & _ & Htr).
    eexists. split; [exact Htr|]. constructor; [done|].
    apply Forall_forall. intros c (l & Hc & Hl)%list_elem_of_join.
    apply list_elem_of_fmap in Hl as (ev & -> & Hev).
    by apply (reminder_calls_sound fails now w ev).
Qed.

(** X9: every call of a sweep is its selection query, the fetch for a
    selected event, a dispatch for a selected event to the users of its
    pending rows (never an empty list) or the update of those rows: the
    sweep dispatches for no event outside the window and calls nothing
    else on the store. *)
Theorem sweep_calls_sound fails now w :
  ∃ calls, trace (sendEventReminders fails now w).2 = trace w ++ calls
           ∧ Forall (sweep_call now w) calls.
Proof. exact (sweep_trace_sound fails now w). Qed.

Lemma reliable_sweep_clears fails now w ev :
  (∀ c, fails c = false) →
  ev ∈ candidates now w →
  pending ev.1 (sendEventReminders fails now w).2 = [].
Proof.
  intros Hrel Hev.
  destruct (sendEventReminders_run fails now w (Hrel _)) as (_ & _ & Hrs & _).
  unfold pending. apply map_to_list_empty_iff, map_empty. intros k.
  apply map_lookup_filter_None. right. intros r' Hr' (Hid & Hen & Hse).
  cbn in Hid, Hen, Hse. rewrite Hrs in Hr'.
  destruct (rsvps w !! k) as [r|] eqn:Hr; [|done]. cbn in Hr'.
  destruct ev as [id e]. cbn in Hid.
  apply elem_of_candidates in Hev as [He Hwin].
  destruct (marked fails (candidates now w) w k) eqn:Hm.
  { injection Hr' as <-. cbn in Hse. done. }
  injection Hr' as <-.
  rewrite (sweep_marks_event fails now w id e k r) in Hm by done.
  unfold reminded in Hm. rewrite !Hrel in Hm. cbn in Hm.
  rewrite bool_decide_eq_true_2 in Hm by done.
  assert (Hin : (k, r) ∈ pending id w) by (by apply elem_of_pending).
  destruct (pending id w); [by apply elem_of_nil in Hin|done].
Qed.

(** X10: after a sweep in which nothing was rejected, a second sweep at
    the same instant, whatever is rejected in it, sends nothing and marks
    nothing: it makes no dispatch and no update, and both tables stay as
    the first sweep left them. *)
Theorem second_sweep_sends_nothing fails fails' now w :
  (∀ c, fails c = false) →
  let w1 := (sendEventReminders fails now w).2 in
  let out := sendEventReminders fails' now w1 in
  events out.2 = events w1 ∧ rsvps out.2 = rsvps w1
  ∧ ∃ calls, trace out.2 = trace w1 ++ calls
             ∧ Forall (λ c, ¬ sends_or_marks c) calls.
Proof.
  intros Hrel w1 out.
  assert (Hev1 : events w1 = events w).
  { by destruct (sendEventReminders_run fails now w (Hrel _)) as (_ & ? & _). }
  assert (Hcand : candidates now w1 = candidates now w).
  { unfold candidates. by rewrite Hev1. }
  assert (Hclear : ∀ ev, ev ∈ candidates now w1 → pending ev.1 w1 = []).
  { intros ev Hev. rewrite Hcand in Hev.
    by apply reliable_sweep_clears. }
  destruct (sendEventReminders_tables fails' now w1) as (Hev & Hrs & _).
  fold out in Hev, Hrs.
  split; [done|]. split.
  - apply map_eq. intros k. rewrite Hrs.
    destruct (rsvps w1 !! k) as [r|]; [|done]. cbn.
    destruct (negb _); cbn; [|done].
    destruct (marked fails' (candidates now w1) w1 k) eqn:Hm; [|done].
    apply marked_true in Hm as (ev & Hin & _ & Hk).
    rewrite (Hclear ev Hin) in Hk. by apply elem_of_nil in Hk.
  - destruct (fails' (EventRepo_getMany (now + 55 * 60 * 1000)
                        (now + 60 * 60 * 1000))) eqn:Hf.
    + subst out. rewrite sendEventReminders_rejected by done.
      eexists. split; [done|]. constructor; [tauto|constructor].
    + destruct (sendEventReminders_run fails' now w1 Hf) as (_ & _ & _ & Htr).
      eexists. split; [exact Htr|]. constructor; [cbn; tauto|].
      apply Forall_forall. intros c (l & Hc & Hl)%list_elem_of_join.
      apply list_elem_of_fmap in Hl as (ev & -> & Hin).
      rewrite (Hclear ev Hin) in Hc. unfold reminder_calls in Hc.
      cbn in Hc. rewrite orb_true_r in Hc.
      apply list_elem_of_singleton in Hc as ->. cbn. tauto.
Qed.

Lemma second_sweep_sends_nothing_witness :
  let w1 := (sendEventReminders reliable 0 two_events_world).2 in
  let out := sendEventReminders reliable 0 w1 in
  rsvps out.2 = rsvps w1
  ∧ ∃ calls, trace out.2 = trace w1 ++ calls
             ∧ Forall (λ c, ¬ sends_or_marks c) calls.
Proof.
  intros w1 out.
  destruct (second_sweep_sends_nothing reliable reliable 0 two_events_world)
    as (_ & Hrs & Hcalls); [reflexivity|].
  exact (conj Hrs Hcalls).
Defined.

(** The second sweep of the sample only selects and fetches. *)
Example second_sweep_sample :
  let w1 := (sendEventReminders reliable 0 two_events_world).2 in
  drop (length (trace w1)) (trace (sendEventReminders reliable 0 w1).2)
  = [EventRepo_getMany (minutes 55) (minutes 60); RsvpRepo_find "event-1";
     RsvpRepo_find "event-2"].
Proof. by vm_compute. Qed.

(** ** The invariants over the whole service *)

Lemma sendEventReminders_consistent fails now w :
  consistent w → consistent (sendEventReminders fails now w).2.
Proof.
  destruct (sendEventReminders_tables fails now w) as (Hev & Hrs & _).
  apply consistent_same_attendance; [done|].
  intros k. rewrite Hrs. destruct (rsvps w !! k) as [r|]; [|done].
  cbn. by destruct (_ && _).
Qed.

Lemma run_service_consistent cs w :
  consistent w → consistent (run_service cs w).
Proof.
  unfold run_service. revert w.
  induction cs as [|c cs IH]; intros w Hw; [done|].
  cbn. apply IH. destruct c; cbn.
  - by apply createEvent_consistent.
  - by apply updateEvent_consistent.
  - by apply deleteEvent_consistent.
  - by apply rsvp_consistent.
  - by apply unRsvp_consistent.
  - by apply markReminderSent_consistent.
  - by apply sendEventReminders_consistent.
Qed.

(** X11: the counters are exact in every state the service reaches.  From
    a store where every RSVP row references an event, no user has two rows
    for an event, every counter is the number of rows of its event and
    every end is after its start, any sequence of [createEvent],
    [updateEvent], [deleteEvent], [rsvp], [unRsvp], [markReminderSent] and
    sweeps, whatever is rejected on the way, leads to a store where every
    event's [rsvpCount] is the number of RSVP rows that reference it, and
    is not negative. *)
Theorem service_keeps_counters cs w :
  consistent w →
  ∀ eid e, events (run_service cs w) !! eid = Some e →
    rsvpCount e = attendees eid (run_service cs w) ∧ 0 ≤ rsvpCount e.
Proof.
  intros Hw eid e He.
  destruct (run_service_consistent cs w Hw) as (_ & _ & Hcnt & _).
  rewrite (Hcnt eid e He). unfold attendees. split; [done|lia].
Qed.

Lemma service_keeps_counters_witness :
  consistent empty_world
  ∧ ∃ e, events (run_service sample_service_calls empty_world) !! "event-1"
         = Some e
      ∧ rsvpCount e
        = attendees "event-1" (run_service sample_service_calls empty_world)
      ∧ 0 ≤ rsvpCount e.
Proof.
  split; [exact consistent_empty|].
  destruct (events (run_service sample_service_calls empty_world) !! "event-1")
    as [e|] eqn:He; [|by vm_compute in He].
  exists e. split; [reflexivity|].
  exact (service_keeps_counters sample_service_calls empty_world
           consistent_empty "event-1" e He).
Defined.

(** X12: the same calls keep the rest of the integrity of the store: in
    every state reached every RSVP row references a stored event, no user
    has two RSVP rows for one event, and every event that has an end ends
    after it starts. *)
Theorem service_keeps_integrity cs w :
  consistent w →
  references_ok (run_service cs w)
  ∧ one_rsvp_per_user (run_service cs w)
  ∧ ends_after_starts (run_service cs w).
Proof.
  intros Hw.
  destruct (run_service_consistent cs w Hw) as (Href & Huq & _ & Hend).
  done.
Qed.

Lemma service_keeps_integrity_witness :
  references_ok (run_service sample_service_calls empty_world)
  ∧ one_rsvp_per_user (run_service sample_service_calls empty_world)
  ∧ ends_after_starts (run_service sample_service_calls empty_world).
Proof.
  apply (service_keeps_integrity sample_service_calls empty_world).
  exact consistent_empty.
Defined.

(** The store the sample calls reach: one event, one attendee left. *)
Example run_service_sample :
  let w := run_service sample_service_calls empty_world in
  map_to_list (rsvpCount <$> events w) = [("event-1", 1)]
  ∧ map_to_list (rsvps w)
    = [("rsvp-1", sample_rsvp "event-1" "user-1" true true)].
Proof. by vm_compute. Qed.

(** ** Calls one after the other *)

Lemma set_rsvpCount_id e : set_rsvpCount (rsvpCount e) e = e.
Proof. by destruct e. Qed.

(** X13: [unRsvp] undoes [rsvp].  After a successful [rsvp], an [unRsvp]
    of the same event and user whose three store calls are accepted
    succeeds, the RSVP table is the one before the [rsvp], and the counter
    of the event is its old value, clamped at zero: when the old counter
    was not negative the event table is the old one too. *)
Theorem unRsvp_undoes_rsvp fails fails' now uuid eid uid dto w r :
  (rsvp fails now uuid eid uid dto w).1 = Ok r →
  fails' (RsvpRepo_findOne eid uid) = false →
  fails' (Manager_remove r) = false →
  fails' (Manager_update GREATEST_rsvp_count_minus_1_0 eid) = false →
  let w1 := (rsvp fails now uuid eid uid dto w).2 in
  let out := unRsvp fails' eid uid w1 in
  out.1 = Ok ()
  ∧ rsvps out.2 = rsvps w
  ∧ ∃ e, events w !! eid = Some e
      ∧ events out.2
        = <[eid := set_rsvpCount (Z.max (rsvpCount e) 0) e]> (events w)
      ∧ (0 ≤ rsvpCount e → events out.2 = events w).
Proof.
  intros Hok Hf1 Hf2 Hf3 w1 out.
  destruct (rsvp_cases fails now uuid eid uid dto w)
    as [(x & Hx & _)|(e & Hres & He & _ & Hno & Hpk & Hrs & Hev)];
    [congruence|].
  fold w1 in Hrs, Hev.
  set (r0 := manager_create eid uid (default true (RsvpDto.reminderEnabled dto)))
    in *.
  assert (r = (uuid, r0)) as -> by congruence.
  assert (Hhd : head (map_to_list (rsvps_where eid uid (rsvps w1)))
                = Some (uuid, r0)).
  { unfold rsvps_where. rewrite Hrs, map_filter_insert_True by done.
    apply rsvps_where_empty in Hno. unfold rsvps_where in Hno. rewrite Hno.
    by rewrite insert_empty, map_to_list_singleton. }
  pose proof (unRsvp_transaction fails' (uuid, r0) eid
                (log_call (RsvpRepo_findOne eid uid) w1)) as Htx.
  cbn zeta in Htx. rewrite Hf2, Hf3 in Htx. cbn [orb] in Htx.
  subst out. rewrite unRsvp_run by done. cbn zeta. rewrite Hhd.
  destruct Htx as (Hres' & Hrs' & Hev'). cbn [fst log_call rsvps events] in *.
  assert (Hevents : events
            (transaction
               (manager_remove fails' (uuid, r0);;
                manager_update fails' GREATEST_rsvp_count_minus_1_0 eid)
               (log_call (RsvpRepo_findOne eid uid) w1)).2
          = <[eid := set_rsvpCount (Z.max (rsvpCount e) 0) e]> (events w)).
  { rewrite Hev', Hev, alter_insert_eq. f_equal.
    unfold set_rsvpCount. cbn. f_equal. lia. }
  split; [done|]. split.
  - rewrite Hrs', Hrs. by apply delete_insert_id.
  - exists e. split; [done|]. split; [done|].
    intros Hpos. rewrite Hevents, Z.max_l by done.
    rewrite set_rsvpCount_id. by apply insert_id.
Qed.

Lemma unRsvp_undoes_rsvp_witness :
  let w1 := (rsvp reliable 0 "rsvp-4" "event-1" "user-4" default_RsvpDto
               sample_world).2 in
  let out := unRsvp reliable "event-1" "user-4" w1 in
  out.1 = Ok () ∧ rsvps out.2 = rsvps sample_world
  ∧ events out.2 = events sample_world.
Proof.
  intros w1 out.
  destruct (unRsvp_undoes_rsvp reliable reliable 0 "rsvp-4" "event-1" "user-4"
              default_RsvpDto sample_world
              ("rsvp-4", sample_rsvp "event-1" "user-4" true false))
    as (Hres & Hrs & e & He & _ & Hev); [by vm_compute|reflexivity..|].
  split; [exact Hres|]. split; [exact Hrs|]. apply Hev.
  assert (e = sample_event "artist-1" (minutes 58) 3) as ->.
  { assert (Hl : events sample_world !! "event-1"
                 = Some (sample_event "artist-1" (minutes 58) 3))
      by reflexivity.
    congruence. }
  cbn. lia.
Defined.

(** X14: no second RSVP.  After a successful [rsvp], every further [rsvp]
    for the same event and user throws and changes neither table; when its
    two lookups are answered it is INVALID_STATE if the event has started
    by then and ALREADY_EXISTS otherwise. *)
Theorem second_rsvp_rejected fails fails' now now' uuid uuid' eid uid dto dto'
    w r :
  (rsvp fails now uuid eid uid dto w).1 = Ok r →
  let w1 := (rsvp fails now uuid eid uid dto w).2 in
  let out := rsvp fails' now' uuid' eid uid dto' w1 in
  (∃ x, out.1 = Throw x)
  ∧ rsvps out.2 = rsvps w1 ∧ events out.2 = events w1
  ∧ (fails' (EventRepo_findOne eid) = false →
     fails' (RsvpRepo_findOne eid uid) = false →
     ∃ e, events w !! eid = Some e
       ∧ out.1 = Throw (if startTime e <=? now' then INVALID_STATE
                        else ALREADY_EXISTS)).
Proof.
  intros Hok w1 out.
  destruct (rsvp_cases fails now uuid eid uid dto w)
    as [(x & Hx & _)|(e & Hres & He & _ & _ & _ & Hrs & Hev)];
    [congruence|].
  fold w1 in Hrs, Hev.
  assert (Hhas : has_rsvp eid uid w1).
  { exists uuid, (manager_create eid uid
                    (default true (RsvpDto.reminderEnabled dto))).
    rewrite Hrs, lookup_insert_eq. done. }
  destruct (rsvp_cases fails' now' uuid' eid uid dto' w1)
    as [(x & Hx & Hev' & Hrs')|(e' & _ & _ & _ & Hno & _)]; [|done].
  fold out in Hx, Hev', Hrs'.
  split; [eauto|]. split; [done|]. split; [done|].
  intros Hf1 Hf2. exists e. split; [done|].
  subst out. rewrite rsvp_run by done. cbn zeta.
  rewrite Hev, lookup_insert_eq. cbn.
  destruct (startTime e <=? now'); [done|].
  pose proof (rsvps_where_head eid uid w1) as Hhd.
  by destruct (head _).
Qed.

Lemma second_rsvp_rejected_witness :
  let w1 := (rsvp reliable 0 "rsvp-4" "event-1" "user-4" default_RsvpDto
               sample_world).2 in
  (rsvp reliable 0 "rsvp-5" "event-1" "user-4" default_RsvpDto w1).1
  = Throw ALREADY_EXISTS
  ∧ (rsvp reliable (minutes 58) "rsvp-5" "event-1" "user-4" default_RsvpDto
       w1).1 = Throw INVALID_STATE.
Proof.
  intros w1. split.
  - destruct (second_rsvp_rejected reliable reliable 0 0 "rsvp-4" "rsvp-5"
                "event-1" "user-4" default_RsvpDto default_RsvpDto sample_world
                ("rsvp-4", sample_rsvp "event-1" "user-4" true false))
      as (_ & _ & _ & H); [by vm_compute|].
    destruct (H eq_refl eq_refl) as (e & He & Hres).
    assert (e = sample_event "artist-1" (minutes 58) 3) as ->.
    { assert (Hl : events sample_world !! "event-1"
                   = Some (sample_event "artist-1" (minutes 58) 3))
        by reflexivity.
      congruence. }
    exact Hres.
  - destruct (second_rsvp_rejected reliable reliable 0 (minutes 58) "rsvp-4"
                "rsvp-5" "event-1" "user-4" default_RsvpDto default_RsvpDto
                sample_world
                ("rsvp-4", sample_rsvp "event-1" "user-4" true false))
      as (_ & _ & _ & H); [by vm_compute|].
    destruct (H eq_refl eq_refl) as (e & He & Hres).
    assert (e = sample_event "artist-1" (minutes 58) 3) as ->.
    { assert (Hl : events sample_world !! "event-1"
                   = Some (sample_event "artist-1" (minutes 58) 3))
        by reflexivity.
      congruence. }
    exact Hres.
Defined.

(** X15: in a store where no user has two RSVP rows for one event, a
    successful [unRsvp] leaves the user without an RSVP for the event: a
    second [unRsvp] whose lookup is answered is NOT_FOUND and changes
    nothing. *)
Theorem second_unRsvp_not_found fails fails' eid uid w :
  one_rsvp_per_user w →
  (unRsvp fails eid uid w).1 = Ok () →
  let w1 := (unRsvp fails eid uid w).2 in
  let out := unRsvp fails' eid uid w1 in
  ¬ has_rsvp eid uid w1
  ∧ (fails' (RsvpRepo_findOne eid uid) = false →
     out.1 = Throw NOT_FOUND
     ∧ rsvps out.2 = rsvps w1 ∧ events out.2 = events w1).
Proof.
  intros Huq Hok w1 out.
  destruct (unRsvp_cases fails eid uid w)
    as [(x & Hx & _)|(k & r & _ & Hk & He & Hu & Hrs & _)]; [congruence|].
  fold w1 in Hrs.
  assert (Hno : ¬ has_rsvp eid uid w1).
  { intros (k' & r' & Hk' & He' & Hu'). rewrite Hrs in Hk'.
    apply lookup_delete_Some in Hk' as [Hne Hk'].
    apply Hne. apply (Huq k k' r r'); congruence. }
  split; [done|]. intros Hf. subst out. rewrite unRsvp_run by done.
  cbn zeta. pose proof (rsvps_where_head eid uid w1) as Hhd.
  destruct (head _) as [[k1 r1]|]; [|done].
  destruct Hhd as (? & ? & ?). destruct Hno. by exists k1, r1.
Qed.

Lemma second_unRsvp_not_found_witness :
  let w := run_service (take 3 sample_service_calls) empty_world in
  let w1 := (unRsvp reliable "event-1" "user-2" w).2 in
  ¬ has_rsvp "event-1" "user-2" w1
  ∧ (unRsvp reliable "event-1" "user-2" w1).1 = Throw NOT_FOUND.
Proof.
  intros w w1.
  destruct (second_unRsvp_not_found reliable reliable "event-1" "user-2" w)
    as (Hno & H).
  - by destruct (run_service_consistent (take 3 sample_service_calls)
                   empty_world consistent_empty) as (_ & Huq & _).
  - by vm_compute.
  - split; [exact Hno|]. apply (H eq_refl).
Defined.

(** ** Marking reminders *)

Lemma getRsvpsForReminder_run fails eid w :
  getRsvpsForReminder fails eid w
  = if fails (RsvpRepo_find eid)
    then (Throw QueryFailedError, log_call (RsvpRepo_find eid) w)
    else (Ok (pending eid w), log_call (RsvpRepo_find eid) w).
Proof.
  unfold getRsvpsForReminder, rsvpRepo_find. unfold_M. by destruct (fails _).
Qed.

(** X16: [markReminderSent] with no key makes no store call and changes
    nothing.  With keys it issues one update and throws only when the
    store rejects it, changing nothing; on success the rows under the given
    keys have [reminderSent = true] and are otherwise as before, the other
    rows and the events are as before, no row appears or disappears (an
    unknown key is ignored), and marking the same keys again changes no
    row.  After the rows fetched by [getRsvpsForReminder] for an event are
    marked, a new fetch for the event returns no row. *)
Theorem markReminderSent_spec fails rsvpIds w :
  let out := markReminderSent fails rsvpIds w in
  (rsvpIds = [] → out = (Ok (), w))
  ∧ events out.2 = events w
  ∧ (∀ x, out.1 = Throw x →
       x = TRANSIENT_STORE_FAILURE ∧ rsvps out.2 = rsvps w
       ∧ fails (RsvpRepo_update rsvpIds) = true)
  ∧ (out.1 = Ok () →
       (∀ k, rsvps out.2 !! k
             = (λ r, if bool_decide (k ∈ rsvpIds)
                     then set_reminderSent true r else r) <$> rsvps w !! k)
       ∧ (∀ fails', rsvps (markReminderSent fails' rsvpIds out.2).2
                    = rsvps out.2)
       ∧ (∀ eid fails', rsvpIds = rsvpIds_of (pending eid w) →
            fails' (RsvpRepo_find eid) = false →
            (getRsvpsForReminder fails' eid out.2).1 = Ok [])).
Proof.
  intros out. subst out. rewrite markReminderSent_run.
  assert (Hidem : ∀ t : gmap string EventRSVP,
            mark_sent rsvpIds (mark_sent rsvpIds t) = mark_sent rsvpIds t).
  { intros t. apply map_eq. intros k. rewrite !lookup_mark_sent.
    destruct (t !! k) as [r|]; [|done]. cbn. by destruct (bool_decide _). }
  destruct rsvpIds as [|k0 ids] eqn:Hids; cbn [length Nat.eqb].
  - cbn. split_and!; try done. intros _. split_and!.
    + intros k. destruct (rsvps w !! k); [|done]. cbn.
      rewrite bool_decide_eq_false_2; [done|]. apply not_elem_of_nil.
    + done.
    + intros eid fails' Hnil Hf. rewrite getRsvpsForReminder_run, Hf. cbn.
      symmetry in Hnil. apply fmap_nil_inv in Hnil. by rewrite Hnil.
  - rewrite <- Hids in *. destruct (fails (RsvpRepo_update rsvpIds)) eqn:Hf; cbn.
    + split_and!; try done.
      * intros Hnil. congruence.
      * intros x [= <-]. done.
    + split_and!; try done.
      * intros Hnil. congruence.
      * intros _. split_and!.
        -- intros k. apply lookup_mark_sent.
        -- intros fails'. rewrite markReminderSent_run. rewrite Hids at 1.
           cbn [length Nat.eqb]. destruct (fails' _); cbn; [done|].
           apply Hidem.
        -- intros eid fails' Hrows Hf'.
           rewrite getRsvpsForReminder_run, Hf'. cbn. f_equal.
           unfold pending. cbn. apply map_to_list_empty_iff, map_empty.
           intros k. apply map_lookup_filter_None. right.
           intros r' Hr' (Hid & Hen & Hse). cbn in Hid, Hen, Hse.
           rewrite lookup_mark_sent in Hr'.
           destruct (rsvps w !! k) as [r|] eqn:Hr; [|done]. cbn in Hr'.
           case_bool_decide as Hin.
           { injection Hr' as <-. cbn in Hse. done. }
           injection Hr' as <-. apply Hin. rewrite Hrows.
           apply elem_of_rsvpIds_of. by exists r.
Qed.

(** X17: a sweep respects the opt-out and what is already sent.  In a
    store where no user has two RSVP rows for one event, a user whose row
    for an event has [reminderEnabled = false], or has [reminderSent = true]
    already, is in no dispatch of the sweep for that event. *)
Theorem sweep_skips_disabled_and_sent fails now w k r :
  one_rsvp_per_user w →
  rsvps w !! k = Some r →
  reminderEnabled r = false ∨ reminderSent r = true →
  ∃ calls, trace (sendEventReminders fails now w).2 = trace w ++ calls
    ∧ ∀ userIds ev, Notifications_sendEventReminders userIds ev ∈ calls →
        ev.1 = eventId r → userId r ∉ userIds.
Proof.
  intros Huq Hr Hoff.
  destruct (sweep_trace_sound fails now w) as (calls & Htr & Hall).
  exists calls. split; [done|]. intros userIds ev Hc Hev Hin.
  rewrite Forall_forall in Hall. specialize (Hall _ Hc). cbn in Hall.
  destruct Hall as (_ & -> & _). unfold userIds_of in Hin.
  apply list_elem_of_fmap in Hin as ([k' r'] & Hu & Hp). cbn in Hu.
  apply elem_of_pending in Hp as (Hr' & He' & Hen & Hse).
  assert (k = k') as <- by (apply (Huq k k' r r'); congruence).
  assert (r' = r) as -> by congruence.
  destruct Hoff; congruence.
Qed.

Lemma sweep_skips_disabled_and_sent_witness :
  let w := run_service (take 3 sample_service_calls) empty_world in
  let w1 := (markReminderSent reliable ["rsvp-1"] w).2 in
  ∃ calls, trace (sendEventReminders reliable 0 w1).2 = trace w1 ++ calls
    ∧ ∀ userIds ev, Notifications_sendEventReminders userIds ev ∈ calls →
        ev.1 = "event-1" → "user-1" ∉ userIds.
Proof.
  intros w w1.
  apply (sweep_skips_disabled_and_sent reliable 0 w1 "rsvp-1"
           (sample_rsvp "event-1" "user-1" true true)).
  - by destruct (run_service_consistent
                   (take 3 sample_service_calls
                    ++ [CallMarkReminderSent reliable ["rsvp-1"]])
                   empty_world consistent_empty) as (_ & Huq & _).
  - by vm_compute.
  - by right.
Defined.

(** The sweep of that store dispatches to the other attendee only. *)
Example sweep_after_mark_sample :
  let w := run_service (take 3 sample_service_calls) empty_world in
  let w1 := (markReminderSent reliable ["rsvp-1"] w).2 in
  filter (dispatches_for "event-1")
    (trace (sendEventReminders reliable 0 w1).2)
  = [Notifications_sendEventReminders ["user-2"]
       ("event-1",
        {| artistId := "artist-1"; title := "Show"; description := "desc";
           eventType := CONCERT; startTime := minutes 58;
           endTime := Some (minutes 120); venue := None; streamUrl := None;
           ticketUrl := None; isVirtual := false; rsvpCount := 2 |})].
Proof. by vm_compute. Qed.

(** ** The guard *)

(** X18: [ArtistGuard] lets a request through exactly when it carries a
    user with a non-empty artist id.  It never answers [false]: without a
    user, without an artist id or with the empty string it throws
    FORBIDDEN. *)
Theorem canActivate_spec (user : option JwtUser.t) :
  (canActivate user = Ok true
   ↔ ∃ u a, user = Some u ∧ JwtUser.artistId u = Some a ∧ a ≠ "")
  ∧ (canActivate user = Ok true ∨ canActivate user = Throw FORBIDDEN)
  ∧ canActivate None = Throw FORBIDDEN
  ∧ (∀ s, canActivate (Some {| JwtUser.sub := s; JwtUser.artistId := None |})
          = Throw FORBIDDEN)
  ∧ (∀ s, canActivate (Some {| JwtUser.sub := s; JwtUser.artistId := Some "" |})
          = Throw FORBIDDEN).
Proof.
  split_and!; try done.
  - unfold canActivate. destruct user as [[s [[|c a]|]]|]; cbn.
    + split; [done|]. by intros (u & a & [= <-] & [= <-] & Hne).
    + split; [|done]. intros _. eexists _, _. by split_and!.
    + split; [done|]. by intros (u & a & [= <-] & [=] & _).
    + split; [done|]. by intros (u & a & [=] & _).
  - unfold canActivate. destruct user as [[s [[|c a]|]]|]; cbn; eauto.
Qed.

(** ** From an RSVP to its reminder *)

(** X19: an RSVP with reminders on is reminded.  After a successful
    [rsvp] that left [reminderEnabled = true], a sweep in which nothing is
    rejected and whose window holds the start of the event makes exactly
    one dispatch for the event, the user is among its recipients, and the
    new row has [reminderSent = true] afterwards. *)
Theorem rsvp_then_sweep_reminds fails fails' now now' uuid eid uid dto w r e :
  (rsvp fails now uuid eid uid dto w).1 = Ok r →
  reminderEnabled r.2 = true →
  events w !! eid = Some e →
  now' + 55 * 60 * 1000 < startTime e ≤ now' + 60 * 60 * 1000 →
  (∀ c, fails' c = false) →
  let w1 := (rsvp fails now uuid eid uid dto w).2 in
  let out := sendEventReminders fails' now' w1 in
  out.1 = Ok ()
  ∧ rsvps out.2 !! r.1 = Some (set_reminderSent true r.2)
  ∧ ∃ calls userIds ev,
      trace out.2 = trace w1 ++ calls
      ∧ filter (dispatches_for eid) calls
        = [Notifications_sendEventReminders userIds ev]
      ∧ ev.1 = eid ∧ uid ∈ userIds.
Proof.
  intros Hok Hen He Hwin Hrel w1 out.
  destruct (rsvp_cases fails now uuid eid uid dto w)
    as [(x & Hx & _)|(e0 & Hres & He0 & _ & _ & _ & Hrs & Hev)];
    [congruence|].
  fold w1 in Hrs, Hev.
  assert (e0 = e) as -> by congruence.
  set (r0 := manager_create eid uid (default true (RsvpDto.reminderEnabled dto)))
    in *.
  assert (r = (uuid, r0)) as -> by congruence. cbn [fst snd] in *.
  set (e1 := set_rsvpCount (rsvpCount e + 1) e) in *.
  assert (He1 : events w1 !! eid = Some e1).
  { rewrite Hev. apply lookup_insert_eq. }
  assert (Hwin1 : now' + 55 * 60 * 1000 < startTime e1
                  ≤ now' + 60 * 60 * 1000) by done.
  assert (Hr0 : rsvps w1 !! uuid = Some r0).
  { rewrite Hrs. apply lookup_insert_eq. }
  assert (Hin : (uuid, r0) ∈ pending eid w1).
  { apply elem_of_pending. done. }
  assert (Hlen : (length (pending eid w1) =? 0)%nat = false).
  { destruct (pending eid w1); [by apply elem_of_nil in Hin|done]. }
  destruct (sendEventReminders_run fails' now' w1 (Hrel _))
    as (Hres' & _ & Hrs' & Htr).
  fold out in Hres', Hrs', Htr.
  destruct (sweep_calls_of_event fails' now' w1 eid e1 He1 Hwin1) as (Hdis & _).
  rewrite Hrel, Hlen in Hdis. cbn [orb] in Hdis.
  split; [done|]. split.
  - rewrite Hrs', Hr0. cbn. f_equal.
    rewrite (sweep_marks_event fails' now' w1 eid e1 uuid r0) by done.
    unfold reminded. rewrite !Hrel. cbn [fst]. rewrite Hlen. cbn.
    by rewrite bool_decide_eq_true_2.
  - eexists _, _, _. split; [exact Htr|]. split; [exact Hdis|].
    split; [done|]. unfold userIds_of.
    apply list_elem_of_fmap. by exists (uuid, r0).
Qed.

Lemma rsvp_then_sweep_reminds_witness :
  let w1 := (rsvp reliable 0 "rsvp-4" "event-1" "user-4" default_RsvpDto
               sample_world).2 in
  let out := sendEventReminders reliable 0 w1 in
  out.1 = Ok ()
  ∧ rsvps out.2 !! "rsvp-4" = Some (sample_rsvp "event-1" "user-4" true true)
  ∧ ∃ calls userIds ev,
      trace out.2 = trace w1 ++ calls
      ∧ filter (dispatches_for "event-1") calls
        = [Notifications_sendEventReminders userIds ev]
      ∧ ev.1 = "event-1" ∧ "user-4" ∈ userIds.
Proof.
  apply (rsvp_then_sweep_reminds reliable reliable 0 0 "rsvp-4" "event-1"
           "user-4" default_RsvpDto sample_world
           ("rsvp-4", sample_rsvp "event-1" "user-4" true false)
           (sample_event "artist-1" (minutes 58) 3)).
  - by vm_compute.
  - reflexivity.
  - reflexivity.
  - unfold minutes. cbn. lia.
  - reflexivity.
Defined.
